(** * OSIPTEL scraper: a shallow embedding of the task-processing engine

    The development follows the Python modules of the repository:
    - [Core]   : osiptel_core.py   (results, statistics, progress manager,
                                    results writer)
    - [Worker] : osiptel_worker.py (proxy manager, browser manager, retry
                                    loop and main loop of a worker)
    - [Main]   : osiptel_main.py   (the result consumer of the orchestrator)
    - [Optimizer] : system_optimizer.py (tuning numbers, performance report)
    - [Auto]   : run_auto.py       (id count and final metrics)

    Conventions of the embedding.
    - Python [int] is [Z]; loop indices that range over literal bounds are
      [nat].
    - Python [float] is modelled by exact rationals [Q]: rounding, infinities
      and NaN are outside the model.  Where a statement depends on how a
      division is rounded, the division is a parameter [fdiv]; where it
      depends on [**] not raising OverflowError, it says so
      ([pow_in_range]).
    - A [str] is a [string] of 8-bit characters, except for the ids read
      from the input file, which are lists over an abstract type of
      characters with [str.isdigit] as a parameter.
    - [set] is [gset], [dict] is [gmap]; the progress file is its text, a
      CSV file is the list of the payloads of the [write] calls that
      produced it.
    - Wall-clock time, random draws and the page scraper are inputs that the
      environment hands to the functions. *)

From Stdlib Require Import Ascii String QArith Qabs Qpower Lqa.
From stdpp Require Import gmap strings list fin_maps pretty.

Local Open Scope Z_scope.

(** ** Python string helpers *)

Module PyStr.

(** chr(34), chr(10), ',' and chr(13) *)
Definition dquote : ascii := "034"%char.
Definition newline : ascii := "010"%char.
Definition comma : ascii := ","%char.

(** [c in s] for a one-character needle *)
Fixpoint char_in (c : ascii) (s : string) : bool :=
  match s with
  | EmptyString => false
  | String a s' => if Ascii.eqb a c then true else char_in c s'
  end.

(** [sub in s] *)
Fixpoint contains (sub s : string) : bool :=
  match s with
  | EmptyString => String.prefix sub EmptyString
  | String _ s' => String.prefix sub s || contains sub s'
  end.

(** [s.lower()] on ASCII letters *)
Definition lower_char (c : ascii) : ascii :=
  let n := nat_of_ascii c in
  if ((65 <=? n)%nat && (n <=? 90)%nat)%bool then ascii_of_nat (n + 32) else c.

Fixpoint lower (s : string) : string :=
  match s with
  | EmptyString => EmptyString
  | String a s' => String (lower_char a) (lower s')
  end.

(** [s[:n]] and [s[n:]] *)
Fixpoint take (n : nat) (s : string) : string :=
  match n, s with
  | O, _ => EmptyString
  | _, EmptyString => EmptyString
  | S n', String a s' => String a (take n' s')
  end.

Fixpoint drop (n : nat) (s : string) : string :=
  match n, s with
  | O, _ => s
  | _, EmptyString => EmptyString
  | S n', String _ s' => drop n' s'
  end.

(** [s.replace(chr(34), chr(34)+chr(34))] *)
Fixpoint double_quotes (s : string) : string :=
  match s with
  | EmptyString => EmptyString
  | String a s' =>
      if Ascii.eqb a dquote
      then String dquote (String dquote (double_quotes s'))
      else String a (double_quotes s')
  end.

(** [sep.join(l)] *)
Fixpoint join (sep : string) (l : list string) : string :=
  match l with
  | [] => EmptyString
  | [x] => x
  | x :: l' => x +:+ sep +:+ join sep l'
  end.

(** [all(p(c) for c in s)] *)
Fixpoint all_chars (p : ascii → bool) (s : string) : bool :=
  match s with
  | EmptyString => true
  | String a s' => p a && all_chars p s'
  end.

(** The characters of [str(n)] for an int [n]: the digits and the sign. *)
Definition num_char (c : ascii) : bool :=
  let n := nat_of_ascii c in
  ((48 <=? n)%nat && (n <=? 57)%nat) || (n =? 45)%nat.

(** [''.join(filter(p, s))] *)
Fixpoint filter (p : ascii → bool) (s : string) : string :=
  match s with
  | EmptyString => EmptyString
  | String a s' => if p a then String a (filter p s') else filter p s'
  end.

(** [s.replace(c, d)] for one-character [c] and [d] *)
Fixpoint replace_char (c d : ascii) (s : string) : string :=
  match s with
  | EmptyString => EmptyString
  | String a s' => String (if Ascii.eqb a c then d else a) (replace_char c d s')
  end.

(** [c.isdigit()] on ASCII *)
Definition is_digit (c : ascii) : bool :=
  let n := nat_of_ascii c in ((48 <=? n)%nat && (n <=? 57)%nat).

(** [int(x)] for a float [x]: the fraction is cut off, towards zero. *)
Definition int_of (x : Q) : Z := Z.quot (Qnum x) (Z.pos (Qden x)).

End PyStr.

(** ** osiptel_core.py *)

Module Core.

Inductive TaskStatus := PENDING | IN_PROGRESS | SUCCESS | FAILED | SKIPPED.

Inductive ErrorType :=
| TIMEOUT | PROXY_ERROR | PAGE_LOAD_ERROR | SELECTOR_NOT_FOUND
| DATA_EXTRACTION_ERROR | BROWSER_CRASH | RATE_LIMITED | UNKNOWN.

Definition ErrorType_value (e : ErrorType) : string :=
  match e with
  | TIMEOUT => "timeout"
  | PROXY_ERROR => "proxy_error"
  | PAGE_LOAD_ERROR => "page_load_error"
  | SELECTOR_NOT_FOUND => "selector_not_found"
  | DATA_EXTRACTION_ERROR => "data_extraction_error"
  | BROWSER_CRASH => "browser_crash"
  | RATE_LIMITED => "rate_limited"
  | UNKNOWN => "unknown"
  end.

#[global] Instance TaskStatus_eq_dec : EqDecision TaskStatus.
Proof. solve_decision. Defined.

(** The fields of [ScraperConfig] that the engine reads. *)
Record ScraperConfig := {
  max_bandwidth_mb : Z;
  estimated_kb_per_ruc : Q;
  max_retries : Z;
  retry_base_delay : Q;
  retry_max_delay : Q;
  retry_multiplier : Q;
  checkpoint_interval : Z;
  batch_save_size : Z
}.

(** [ScraperConfig()] with the defaults of the dataclass. *)
Definition default_config : ScraperConfig := {|
  max_bandwidth_mb := 9700;
  estimated_kb_per_ruc := 550;
  max_retries := 3;
  retry_base_delay := 5;
  retry_max_delay := 30;
  retry_multiplier := 2;
  checkpoint_interval := 25;
  batch_save_size := 1000
|}.

Record PhoneLine := {
  modalidad : string;
  numero : string;
  operadora : string
}.

Record RUCResult := {
  ruc : string;
  status : TaskStatus;
  lines : list PhoneLine;
  error_type : option ErrorType;
  error_message : option string;
  attempts : Z;
  timestamp : string;
  duration_seconds : Q
}.

Definition success (r : RUCResult) : bool := bool_decide (status r = SUCCESS).

Definition line_count (r : RUCResult) : Z := Z.of_nat (length (lines r)).

Definition set_attempts (r : RUCResult) (a : Z) : RUCResult :=
  {| ruc := ruc r; status := status r; lines := lines r;
     error_type := error_type r; error_message := error_message r;
     attempts := a; timestamp := timestamp r;
     duration_seconds := duration_seconds r |}.

(** *** Statistics *)

Record Statistics := {
  total_rucs : Z;
  processed : Z;
  successful : Z;
  failed : Z;
  total_lines_found : Z;
  estimated_bandwidth_kb : Q;
  start_time : option string;
  end_time : option string;
  errors_by_type : gmap string Z;
  total_retries : Z
}.

Definition Statistics_init : Statistics := {|
  total_rucs := 0; processed := 0; successful := 0; failed := 0;
  total_lines_found := 0; estimated_bandwidth_kb := 0;
  start_time := None; end_time := None;
  errors_by_type := ∅; total_retries := 0
|}.

Definition Statistics_update (self : Statistics) (result : RUCResult)
    (estimated_kb : Q) : Statistics :=
  let processed' := processed self + 1 in
  let bandwidth' := (estimated_bandwidth_kb self + estimated_kb)%Q in
  let retries' := total_retries self + Z.max 0 (attempts result - 1) in
  if success result then
    {| total_rucs := total_rucs self;
       processed := processed';
       successful := successful self + 1;
       failed := failed self;
       total_lines_found := total_lines_found self + line_count result;
       estimated_bandwidth_kb := bandwidth';
       start_time := start_time self; end_time := end_time self;
       errors_by_type := errors_by_type self;
       total_retries := retries' |}
  else
    {| total_rucs := total_rucs self;
       processed := processed';
       successful := successful self;
       failed := failed self + 1;
       total_lines_found := total_lines_found self;
       estimated_bandwidth_kb := bandwidth';
       start_time := start_time self; end_time := end_time self;
       errors_by_type :=
         match error_type result with
         | Some e =>
             let error_name := ErrorType_value e in
             <[error_name := default 0 (errors_by_type self !! error_name) + 1]>
               (errors_by_type self)
         | None => errors_by_type self
         end;
       total_retries := retries' |}.

Definition bandwidth_mb (self : Statistics) : Q :=
  (estimated_bandwidth_kb self / 1024)%Q.

(** *** ProgressManager *)

(** One entry of [failed_rucs]: the dict
    [{'error_type': .., 'error_message': .., 'attempts': ..}]. *)
Record FailureInfo := {
  fi_error_type : string;
  fi_error_message : option string;
  fi_attempts : Z
}.

Record ProgressManager := {
  pm_config : ScraperConfig;
  progress_path : string;
  processed_rucs : gset string;
  failed_rucs : gmap string FailureInfo;
  statistics : Statistics
}.

Definition ProgressManager_init (config : ScraperConfig) (path : string)
    : ProgressManager :=
  {| pm_config := config; progress_path := path;
     processed_rucs := ∅; failed_rucs := ∅; statistics := Statistics_init |}.

Definition add_result (self : ProgressManager) (result : RUCResult)
    (estimated_kb : Q) : ProgressManager :=
  {| pm_config := pm_config self;
     progress_path := progress_path self;
     processed_rucs := {[ ruc result ]} ∪ processed_rucs self;
     failed_rucs :=
       if negb (success result) then
         <[ ruc result :=
              {| fi_error_type :=
                   match error_type result with
                   | Some e => ErrorType_value e
                   | None => "unknown"
                   end;
                 fi_error_message := error_message result;
                 fi_attempts := attempts result |} ]> (failed_rucs self)
       else failed_rucs self;
     statistics := Statistics_update (statistics self) result estimated_kb |}.

(** The result consumer calls [add_result] once for each result that
    arrives, with the bandwidth estimate of that result. *)
Definition add_results (self : ProgressManager) (results : list (RUCResult * Q))
    : ProgressManager :=
  foldl (λ pm c, add_result pm c.1 c.2) self results.

Definition get_pending_rucs (self : ProgressManager) (all_rucs : list string)
    : list string :=
  filter (λ ruc, ruc ∉ processed_rucs self) all_rucs.

Definition is_bandwidth_exceeded (self : ProgressManager) : bool := false.

Definition get_remaining_bandwidth_mb (self : ProgressManager) : Q :=
  let rest :=
    (inject_Z (max_bandwidth_mb (pm_config self))
     - bandwidth_mb (statistics self))%Q in
  if Qlt_le_dec 0 rest then rest else 0%Q.

(** [counters_consistent] is the relation between the three counters of
    [Statistics]. *)
Definition counters_consistent (s : Statistics) : Prop :=
  processed s = successful s + failed s.

(** *** The progress file and [save]

    The disk maps a path to the text of the file.  [save] is the sequence
    of the effects it performs, in program order; a process that is killed
    has performed a prefix of them. *)

Abbreviation Disk := (gmap string string).

Inductive fs_op :=
| OpenW (path : string)                (* open(path, 'w') *)
| WriteStr (path : string) (s : string)  (* f.write(s) *)
| CloseF (path : string)               (* leaving the [with] block *)
| Replace (src dst : string).          (* os.replace(src, dst) *)

Inductive op :=
| Acquire                              (* entering [async with self._lock] *)
| Release                              (* leaving it *)
| Fs (o : fs_op).

(** [os.replace] moves the whole file in one step; when [src] is missing it
    raises FileNotFoundError and the disk is left as it is. *)
Definition exec_fs (o : fs_op) (d : Disk) : Disk :=
  match o with
  | OpenW p => <[p := ""]> d
  | WriteStr p s => alter (λ c, c +:+ s) p d
  | CloseF _ => d
  | Replace src dst =>
      match d !! src with
      | Some c => <[dst := c]> (delete src d)
      | None => d
      end
  end.

(** The dict [data] that [save] serializes. *)
Record ProgressData := {
  pd_processed_rucs : list string;
  pd_failed_rucs : gmap string FailureInfo;
  pd_statistics : Statistics;
  pd_last_save : string
}.

Definition save_data (self : ProgressManager) (now : string) : ProgressData :=
  {| pd_processed_rucs := elements (processed_rucs self);
     pd_failed_rucs := failed_rucs self;
     pd_statistics := statistics self;
     pd_last_save := now |}.

(** The line [self.processed_rucs = set(data.get('processed_rucs', []))]
    of [load], on the data read back from the progress file. *)
Definition load_processed_rucs (data : ProgressData) : gset string :=
  list_to_set (pd_processed_rucs data).

Definition temp_path (self : ProgressManager) : string :=
  progress_path self +:+ ".tmp".

Section Save.
(** [json.dumps(data, indent=2, ensure_ascii=False)], with
    [Statistics.to_dict] folded in. *)
Variable json_dumps : ProgressData → string.

Definition save_ops (self : ProgressManager) (now : string) : list op :=
  [ Acquire;
    Fs (OpenW (temp_path self));
    Fs (WriteStr (temp_path self) (json_dumps (save_data self now)));
    Fs (CloseF (temp_path self));
    Fs (Replace (temp_path self) (progress_path self));
    Release ].

Definition exec_op (o : op) (d : Disk) : Disk :=
  match o with
  | Fs f => exec_fs f d
  | _ => d
  end.

(** A [save] that runs to its end, alone. *)
Definition save (self : ProgressManager) (now : string) (d : Disk) : Disk :=
  foldl (λ d o, exec_op o d) d (save_ops self now).
End Save.

(** Tasks of the event loop that share the disk and the lock.  Each task
    is the list of effects it still has to perform.  [step i n] lets task
    [i] perform its next effect; a task that waits for the lock does not
    move.  A write may reach the file in pieces: [n] is the number of
    characters that the step flushes. *)
Record System := {
  sys_disk : Disk;
  sys_lock : bool;
  sys_tasks : list (list op)
}.

Definition step (i n : nat) (s : System) : System :=
  match sys_tasks s !! i with
  | Some (Acquire :: k) =>
      if sys_lock s then s
      else {| sys_disk := sys_disk s; sys_lock := true;
              sys_tasks := <[i := k]> (sys_tasks s) |}
  | Some (Release :: k) =>
      {| sys_disk := sys_disk s; sys_lock := false;
         sys_tasks := <[i := k]> (sys_tasks s) |}
  | Some (Fs (WriteStr p str) :: k) =>
      if (n <? String.length str)%nat then
        {| sys_disk := exec_fs (WriteStr p (PyStr.take n str)) (sys_disk s);
           sys_lock := sys_lock s;
           sys_tasks := <[i := Fs (WriteStr p (PyStr.drop n str)) :: k]> (sys_tasks s) |}
      else
        {| sys_disk := exec_fs (WriteStr p str) (sys_disk s);
           sys_lock := sys_lock s;
           sys_tasks := <[i := k]> (sys_tasks s) |}
  | Some (Fs o :: k) =>
      {| sys_disk := exec_fs o (sys_disk s); sys_lock := sys_lock s;
         sys_tasks := <[i := k]> (sys_tasks s) |}
  | _ => s
  end.

Definition run (sched : list (nat * nat)) (s : System) : System :=
  foldl (λ s c, step c.1 c.2 s) s sched.

Section SaveProtocol.
Variable json_dumps : ProgressData → string.

(** The event loop at the start: the disk [d0], the lock free, and one
    task for each call of [save], given by the manager it saves and the
    time it reads. *)
Definition save_system (d0 : Disk) (saves : list (ProgressManager * string))
    : System :=
  {| sys_disk := d0; sys_lock := false;
     sys_tasks := map (λ c, save_ops json_dumps c.1 c.2) saves |}.

(** The same tasks with the lock taken away, to see what it is for. *)
Definition is_fs (o : op) : bool :=
  match o with Fs _ => true | _ => false end.

Definition unlocked_system (d0 : Disk) (saves : list (ProgressManager * string))
    : System :=
  {| sys_disk := d0; sys_lock := false;
     sys_tasks :=
       map (λ c, filter (λ o, is_fs o = true) (save_ops json_dumps c.1 c.2)) saves |}.

(** What a reader of [path] may find: the file as it was before the
    saves, or the complete text of one of them. *)
Definition snapshot_ok (d0 : Disk) (saves : list (ProgressManager * string))
    (path : string) (d : Disk) : Prop :=
  d !! path = d0 !! path
  ∨ ∃ c, c ∈ saves ∧ d !! path = Some (json_dumps (save_data c.1 c.2)).

(** A task that does not hold the lock has not begun or is done. *)
Definition idle (pm : ProgressManager) (now : string) (ops : list op) : Prop :=
  ops = save_ops json_dumps pm now ∨ ops = [].

(** The task that holds the lock, by what it still has to do, and the
    temporary file at that point. *)
Definition holder_stage (pm : ProgressManager) (now : string) (d : Disk)
    (ops : list op) : Prop :=
  let tmp := temp_path pm in
  let payload := json_dumps (save_data pm now) in
  let tail := [Fs (CloseF tmp); Fs (Replace tmp (progress_path pm)); Release] in
  ops = Fs (OpenW tmp) :: Fs (WriteStr tmp payload) :: tail
  ∨ (∃ written rest,
       ops = Fs (WriteStr tmp rest) :: tail
       ∧ d !! tmp = Some written ∧ written +:+ rest = payload)
  ∨ (ops = tail ∧ d !! tmp = Some payload)
  ∨ (ops = [Fs (Replace tmp (progress_path pm)); Release]
     ∧ d !! tmp = Some payload)
  ∨ ops = [Release].

Definition save_inv (d0 : Disk) (saves : list (ProgressManager * string))
    (path : string) (s : System) : Prop :=
  snapshot_ok d0 saves path (sys_disk s)
  ∧ length (sys_tasks s) = length saves
  ∧ if sys_lock s then
      ∃ h c ops,
        saves !! h = Some c ∧ sys_tasks s !! h = Some ops
        ∧ holder_stage c.1 c.2 (sys_disk s) ops
        ∧ ∀ j c' ops', j ≠ h → saves !! j = Some c' →
            sys_tasks s !! j = Some ops' → idle c'.1 c'.2 ops'
    else
      ∀ j c' ops', saves !! j = Some c' →
        sys_tasks s !! j = Some ops' → idle c'.1 c'.2 ops'.
End SaveProtocol.

(** *** ResultsWriter

    [main_file] is the text appended to [output_path]; [save_dir] holds
    the files of the batch directory by name.  Start and end times of a
    batch, and the rates derived from them, are left out of [BatchTime]. *)

Record BatchTime := {
  bt_batch_number : Z;
  bt_filename : string;
  bt_rucs_count : Z;
  bt_successful_count : Z;
  bt_total_lines : Z
}.

Record ResultsWriter := {
  rw_config : ScraperConfig;
  _header_written : bool;
  _max_lines : Z;
  _batch_results : list RUCResult;
  _total_saved : Z;
  _batch_number : Z;
  _input_filename : string;
  _batch_times : list BatchTime;
  main_file : list string;
  save_dir : gmap string (list string)
}.

(** [ResultsWriter(config, input_filename)] over the files found on disk;
    [input_filename] is the name as the constructor keeps it, that is
    [Path(input_filename).stem]. *)
Definition ResultsWriter_init (config : ScraperConfig)
    (input_filename : string) (main : list string)
    (dir : gmap string (list string)) : ResultsWriter :=
  {| rw_config := config; _header_written := false; _max_lines := 0;
     _batch_results := []; _total_saved := 0; _batch_number := 0;
     _input_filename := input_filename; _batch_times := [];
     main_file := main; save_dir := dir |}.

Definition col_modalidad (i : nat) : string := "Modalidad_" +:+ pretty i.
Definition col_numero (i : nat) : string := "Numero_Telefonico_" +:+ pretty i.
Definition col_operadora (i : nat) : string := "Empresa_Operadora_" +:+ pretty i.

Definition _generate_header (max_lines : nat) : list string :=
  "RUC" :: flat_map (λ i, [col_modalidad i; col_numero i; col_operadora i])
             (seq 1 max_lines).

Definition _escape_csv (value : string) : string :=
  if PyStr.char_in PyStr.comma value
     || PyStr.char_in PyStr.dquote value
     || PyStr.char_in PyStr.newline value
  then String PyStr.dquote (PyStr.double_quotes value)
         +:+ String PyStr.dquote EmptyString
  else value.

(** [enumerate(l, start)] *)
Fixpoint enumerate {A} (start : nat) (l : list A) : list (nat * A) :=
  match l with
  | [] => []
  | x :: l' => (start, x) :: enumerate (S start) l'
  end.

(** The body of the loop [for idx, line in enumerate(result.lines, 1)]. *)
Definition set_line_columns (d : gmap string string) (c : nat * PhoneLine)
    : gmap string string :=
  <[col_operadora c.1 := operadora c.2]>
    (<[col_numero c.1 := numero c.2]>
       (<[col_modalidad c.1 := modalidad c.2]> d)).

(** The dict [row_data] built from a result. *)
Definition row_data (result : RUCResult) : gmap string string :=
  foldl set_line_columns {["RUC" := ruc result]} (enumerate 1 (lines result)).

(** [d.get(key, '')] *)
Definition dict_get (d : gmap string string) (key : string) : string :=
  default "" (d !! key).

(** The list [values] of a row. *)
Definition row_values (result : RUCResult) : list string :=
  let d := row_data result in
  dict_get d "RUC"
  :: flat_map (λ i, [ _escape_csv (dict_get d (col_modalidad i));
                      _escape_csv (dict_get d (col_numero i));
                      _escape_csv (dict_get d (col_operadora i)) ])
       (seq 1 100).

Definition csv_line (values : list string) : string :=
  PyStr.join "," values +:+ String PyStr.newline EmptyString.

Definition header_line : string := csv_line (_generate_header 100).
Definition row_line (result : RUCResult) : string := csv_line (row_values result).

(** The three cells of a record, and the cell that column group [k]
    (counted from 0) shows for a field: the escaped field of record [k], or
    the empty string when the result has no such record. *)
Definition line_cells (l : PhoneLine) : list string :=
  [_escape_csv (modalidad l); _escape_csv (numero l); _escape_csv (operadora l)].


(** Between [before] and [after] the main file gained the row of [result]
    and nothing else, but for the header in front of the first row. *)
Definition appends_one_row (before after : ResultsWriter) (result : RUCResult)
    : Prop :=
  main_file after
  = main_file before
      ++ (if _header_written before then [] else [header_line])
      ++ [row_line result].

(** *** Reading a line back

    The logical fields of a line of text are what a CSV reader makes of
    it.  [csv_record] is the state machine of Python's [csv.reader] with
    its default dialect: the comma separates fields, a field that starts
    with chr(34) runs to the closing chr(34), two of them inside stand for
    one, and a line feed or carriage return outside quotes ends the
    record.  It gives the fields of the first record and the text after
    it.  This is the reading under which the fields of a row are counted;
    no code of the repository reads the main file back. *)













Definition batch_filename (self : ResultsWriter) (batch_number : Z) : string :=
  _input_filename self +:+ "_" +:+ pretty (batch_save_size (rw_config self))
    +:+ "_parte" +:+ pretty batch_number +:+ ".csv".

Definition timing_report_name (self : ResultsWriter) : string :=
  _input_filename self +:+ "_timing_report.json".

Definition sumZ (l : list Z) : Z := foldr Z.add 0 l.

(** The batch size of a writer as a count. *)
Definition batch_size (self : ResultsWriter) : nat :=
  Z.to_nat (batch_save_size (rw_config self)).

(** [ceil(n / b)], and the [k]-th group of [b] results of a run ([k]
    counted from 1). *)
Definition ceil_div (n b : nat) : nat := ((n + b - 1) / b)%nat.

Definition batch_chunk (b k : nat) (results : list RUCResult) : list RUCResult :=
  take b (drop ((k - 1) * b) results).

(** The writer [w], which started as [w0], has written the batch files 1
    to [q] of [results]: file [k] holds the header and the rows of the
    [k]-th group, and apart from these files and the timing report the
    batch directory is as it was. *)
Definition batches_written (w0 w : ResultsWriter) (b q : nat)
    (results : list RUCResult) : Prop :=
  rw_config w = rw_config w0
  ∧ _input_filename w = _input_filename w0
  ∧ _batch_number w = _batch_number w0 + Z.of_nat q
  ∧ (∀ k, (1 ≤ k ≤ q)%nat →
       save_dir w !! batch_filename w0 (_batch_number w0 + Z.of_nat k)
       = Some (header_line :: map row_line (batch_chunk b k results)))
  ∧ (∀ f, (∀ k, (1 ≤ k ≤ q)%nat →
                f ≠ batch_filename w0 (_batch_number w0 + Z.of_nat k)) →
          f ≠ timing_report_name w0 →
          save_dir w !! f = save_dir w0 !! f).

Section Writer.
(** [json.dumps(report, indent=2, ensure_ascii=False)] of the report that
    [_save_timing_report] computes from [_batch_times]. *)
Variable report_dumps : list BatchTime → string.

Definition _save_timing_report (self : ResultsWriter) : ResultsWriter :=
  {| rw_config := rw_config self;
     _header_written := _header_written self;
     _max_lines := _max_lines self;
     _batch_results := _batch_results self;
     _total_saved := _total_saved self;
     _batch_number := _batch_number self;
     _input_filename := _input_filename self;
     _batch_times := _batch_times self;
     main_file := main_file self;
     save_dir := <[timing_report_name self := [report_dumps (_batch_times self)]]>
                   (save_dir self) |}.

Definition _save_batch (self : ResultsWriter) : ResultsWriter :=
  match _batch_results self with
  | [] => self
  | _ =>
      let batch_number := _batch_number self + 1 in
      let name := batch_filename self batch_number in
      let content :=
        header_line :: map row_line (_batch_results self) in
      let entry :=
        {| bt_batch_number := batch_number;
           bt_filename := name;
           bt_rucs_count := Z.of_nat (length (_batch_results self));
           bt_successful_count :=
             sumZ (map (λ r, 1) (filter (λ r, success r = true) (_batch_results self)));
           bt_total_lines := sumZ (map line_count (_batch_results self)) |} in
      let written :=
        {| rw_config := rw_config self;
           _header_written := _header_written self;
           _max_lines := _max_lines self;
           _batch_results := _batch_results self;
           _total_saved := _total_saved self;
           _batch_number := batch_number;
           _input_filename := _input_filename self;
           _batch_times := _batch_times self ++ [entry];
           main_file := main_file self;
           save_dir := <[name := content]> (save_dir self) |} in
      let reported := _save_timing_report written in
      {| rw_config := rw_config reported;
         _header_written := _header_written reported;
         _max_lines := _max_lines reported;
         _batch_results := [];
         _total_saved :=
           _total_saved reported + Z.of_nat (length (_batch_results reported));
         _batch_number := _batch_number reported;
         _input_filename := _input_filename reported;
         _batch_times := _batch_times reported;
         main_file := main_file reported;
         save_dir := save_dir reported |}
  end.

Definition write_result (self : ResultsWriter) (result : RUCResult)
    : ResultsWriter :=
  let write_header := negb (_header_written self) in
  let appended :=
    {| rw_config := rw_config self;
       _header_written := true;
       _max_lines := 100;
       _batch_results := _batch_results self ++ [result];
       _total_saved := _total_saved self;
       _batch_number := _batch_number self;
       _input_filename := _input_filename self;
       _batch_times := _batch_times self;
       main_file :=
         main_file self
           ++ (if write_header then [header_line] else [])
           ++ [row_line result];
       save_dir := save_dir self |} in
  if Z.of_nat (length (_batch_results appended))
       >=? batch_save_size (rw_config self)
  then _save_batch appended
  else appended.

Definition finalize (self : ResultsWriter) : ResultsWriter :=
  let flushed :=
    match _batch_results self with
    | [] => self
    | _ => _save_batch self
    end in
  match _batch_times flushed with
  | [] => flushed
  | _ => _save_timing_report flushed
  end.
End Writer.

(** *** The rest of the configuration *)

Record ProxyConfig := {
  host : string;
  port : Z;
  username : string;
  password : string
}.

Definition get_effective_port (self : ProxyConfig) : Z := port self.

(** [bool(self.username and self.password)] *)
Definition is_configured (self : ProxyConfig) : bool :=
  negb (String.eqb (username self) "") && negb (String.eqb (password self) "").

(** [fdiv] is the division of two floats as the machine rounds it;
    [None] stands for the ZeroDivisionError of a zero estimate. *)
Definition calculate_max_rucs (fdiv : Q → Q → Q) (self : ScraperConfig)
    : option Z :=
  let max_kb := max_bandwidth_mb self * 1024 in
  if Qeq_bool (estimated_kb_per_ruc self) 0 then None
  else Some (PyStr.int_of (fdiv (inject_Z max_kb) (estimated_kb_per_ruc self))).

(** What binary64 division guarantees where its result is finite: the
    rounding is monotone and leaves the integers up to 2^53 in place, so
    the rounded quotient is on the same side of such an integer as the
    exact quotient. *)
Definition rounds_division (fdiv : Q → Q → Q) : Prop :=
  ∀ (a b : Q) (n : Z),
    (0 < b)%Q → Z.abs n ≤ 2 ^ 53 →
    ((a / b <= inject_Z n)%Q → (fdiv a b <= inject_Z n)%Q)
    ∧ ((inject_Z n <= a / b)%Q → (inject_Z n <= fdiv a b)%Q).

(** *** Derived statistics *)

Definition success_rate (self : Statistics) : Q :=
  if processed self =? 0 then 0%Q
  else (inject_Z (successful self) / inject_Z (processed self) * 100)%Q.

(** The consumer feeds one result after the other into [update]. *)
Definition Statistics_updates (self : Statistics) (results : list (RUCResult * Q))
    : Statistics :=
  foldl (λ st c, Statistics_update st c.1 c.2) self results.

(** The name under which a result is counted in [errors_by_type]. *)
Definition counted_error (result : RUCResult) : option string :=
  if success result then None else ErrorType_value <$> error_type result.

(** *** The failed-ids export

    [write_failed_rucs] gives the payloads written to the file, or [None]
    when it returns without opening it.  The rows follow the order in which
    the ledger is enumerated. *)

Definition failed_header : string :=
  "RUC,Error_Type,Error_Message,Attempts" +:+ String PyStr.newline EmptyString.

(** The message of a row: [info.get('error_message') or ''], with chr(34)
    replaced by chr(39) and newlines by spaces, cut at 200 characters. *)
Definition failed_message (info : FailureInfo) : string :=
  PyStr.take 200
    (PyStr.replace_char PyStr.newline " "
       (PyStr.replace_char PyStr.dquote "'" (default "" (fi_error_message info)))).

Definition failed_row (ruc : string) (info : FailureInfo) : string :=
  ruc +:+ "," +:+ fi_error_type info +:+ ","
    +:+ String PyStr.dquote (failed_message info)
    +:+ String PyStr.dquote ("," +:+ pretty (fi_attempts info)
                               +:+ String PyStr.newline EmptyString).

Definition write_failed_rucs (failed_rucs : gmap string FailureInfo)
    : option (list string) :=
  if decide (failed_rucs = ∅) then None
  else Some (failed_header
             :: map (λ c, failed_row c.1 c.2) (map_to_list failed_rucs)).

(** *** Reading the ids

    A Python string is the list of its characters (code points); [char] is
    their type and [isdigit c] the value of [str.isdigit] on the
    one-character string [c].  [len] counts characters. *)

Section Reading.
Context {char : Type}.
Variable isdigit : char → bool.

(** [''.join(filter(str.isdigit, ruc))] *)
Definition clean_ruc (ruc : list char) : list char := List.filter isdigit ruc.

(** The loop of [read_rucs_from_file] over the cells of the first column. *)
Definition valid_rucs (rucs : list (list char)) : list (list char) :=
  omap (λ ruc, let clean := clean_ruc ruc in
               if (length clean =? 11)%nat then Some clean else None) rucs.

(** How a call of [read_rucs_from_file] ends. *)
Inductive ReadOutcome :=
| ReturnRucs (valid : list (list char)) (total_rows : Z)
| RaiseValueError       (* the suffix is none of .xlsx, .xls, .csv *)
| RaiseReadError.       (* pandas or the access to the first column raised *)

(** [file_ext] is [Path(file_path).suffix.lower()]; [first_column] is
    what pandas hands over as [df.iloc[:, 0].astype(str).str.strip()
    .tolist()], or [None] when reading the file or taking the column
    raised. *)
Definition read_rucs_from_file (file_ext : string)
    (first_column : option (list (list char))) : ReadOutcome :=
  if bool_decide (file_ext ∈ [".xlsx"; ".xls"]) || bool_decide (file_ext = ".csv")
  then
    match first_column with
    | None => RaiseReadError
    | Some rucs => ReturnRucs (valid_rucs rucs) (Z.of_nat (length rucs))
    end
  else RaiseValueError.
End Reading.

(** [None] stands for the ZeroDivisionError raised by [calculate_max_rucs]. *)
Definition validate_ruc_count {A} (fdiv : Q → Q → Q) (rucs : list A)
    (config : ScraperConfig) : option bool :=
  let count := Z.of_nat (length rucs) in
  match calculate_max_rucs fdiv config with
  | None => None
  | Some max_safe => Some (negb (count >? max_safe))
  end.

End Core.

(** ** osiptel_worker.py *)

Module Worker.
Import Core.

(** *** ProxyManager *)

Record ProxyManager := { _session_counter : Z }.

Definition ProxyManager_init : ProxyManager := {| _session_counter := 0 |}.

(** [time_ms] is the reading [int(time.time() * 1000)] and [random_part]
    the draw [random.randint(10000, 99999)] of the call. *)
Definition get_session_id (self : ProxyManager) (worker_id time_ms random_part : Z)
    : string * ProxyManager :=
  let counter := _session_counter self + 1 in
  let timestamp := time_ms `mod` 100000 in
  ("w" +:+ pretty worker_id +:+ "s" +:+ pretty counter
     +:+ "t" +:+ pretty timestamp +:+ "r" +:+ pretty random_part,
   {| _session_counter := counter |}).

(** The calls of one run, in the order in which they take the lock. *)
Record Call := { call_worker_id : Z; call_time_ms : Z; call_random_part : Z }.

Fixpoint session_ids (self : ProxyManager) (calls : list Call) : list string :=
  match calls with
  | [] => []
  | c :: calls' =>
      let r := get_session_id self (call_worker_id c) (call_time_ms c)
                 (call_random_part c) in
      r.1 :: session_ids r.2 calls'
  end.

(** *** The retry loop of a worker *)

(** [min(a, b)] and [random.uniform(a, b)] with [u] the value of
    [random.random()]. *)
Definition py_min (a b : Q) : Q := if Qlt_le_dec b a then b else a.
Definition uniform (a b u : Q) : Q := (a + (b - a) * u)%Q.

(** The delay before the jitter is added.  The power is the exact one;
    [pow_in_range] below delimits the configurations for which [**] does
    not raise OverflowError. *)
Definition base_delay (config : ScraperConfig) (attempt : Z) : Q :=
  py_min (retry_base_delay config * retry_multiplier config ^ (attempt - 1))%Q
         (retry_max_delay config).

Definition retry_delay (config : ScraperConfig) (attempt : Z) (u : Q) : Q :=
  let delay := base_delay config attempt in
  (delay + uniform 0 (delay * (3 # 10)) u)%Q.

(** What one pass through the body of the [try] block gives: either
    [scrape_ruc] returned a result, or [new_page] or the scraper raised an
    exception whose text is [msg]. *)
Inductive AttemptOutcome :=
| Scraped (result : RUCResult)
| Raised (msg : string).

(** The environment of one call: the outcome of each attempt, the value of
    [random.random()] used for its jitter, and the clock. *)
Record Env := {
  attempt_outcome : Z → AttemptOutcome;
  jitter_draw : Z → Q;
  env_now : Z → string
}.

Inductive Event :=
| EvScrape (attempt : Z)
| EvSleep (attempt : Z) (delay : Q)
| EvRotateIp (attempt : Z).

Inductive Outcome :=
| Return (result : RUCResult)
| RaiseAttributeError.     (* [last_result] is None after the loop *)

Definition classify_exception (error_msg : string) : ErrorType :=
  let low := PyStr.lower error_msg in
  if PyStr.contains "closed" low || PyStr.contains "target" low then BROWSER_CRASH
  else if PyStr.contains "timeout" low then TIMEOUT
  else UNKNOWN.

Definition exception_result (env : Env) (ruc : string) (attempt : Z)
    (error_msg : string) : RUCResult :=
  {| Core.ruc := ruc; status := FAILED; lines := [];
     error_type := Some (classify_exception error_msg);
     error_message := Some (PyStr.take 500 error_msg);
     attempts := attempt;
     timestamp := env_now env attempt;
     duration_seconds := 0 |}.

(** The [for attempt in range(1, max_retries + 1)] loop; [fuel] is the
    number of iterations that remain. *)
Fixpoint attempts_loop (config : ScraperConfig) (env : Env) (ruc : string)
    (fuel : nat) (attempt : Z) (last_result : option RUCResult)
    (trace : list Event) : Outcome * list Event :=
  match fuel with
  | O =>
      match last_result with
      | Some r => (Return (set_attempts r (max_retries config)), trace)
      | None => (RaiseAttributeError, trace)
      end
  | S fuel' =>
      let trace := (trace ++ [EvScrape attempt])%list in
      let step :=
        match attempt_outcome env attempt with
        | Scraped result =>
            let result := set_attempts result attempt in
            if success result then inl result else inr result
        | Raised msg => inr (exception_result env ruc attempt msg)
        end in
      match step with
      | inl result => (Return result, trace)
      | inr last =>
          let trace :=
            if attempt <? max_retries config then
              (trace ++ [EvSleep attempt
                           (retry_delay config attempt (jitter_draw env attempt));
                         EvRotateIp attempt])%list
            else trace in
          attempts_loop config env ruc fuel' (attempt + 1) (Some last) trace
      end
  end.

Definition _process_ruc_with_retries (config : ScraperConfig) (env : Env)
    (ruc : string) : Outcome * list Event :=
  attempts_loop config env ruc (Z.to_nat (max_retries config)) 1 None [].

(** The backoff never shrinks from one retry to the next. *)
Definition backoff_nondecreasing (config : ScraperConfig) : Prop :=
  ∀ a, 1 ≤ a → a + 1 < max_retries config →
       (base_delay config a <= base_delay config (a + 1))%Q.

(** The number of times the scraper was invoked. *)
Definition is_scrape (e : Event) : bool :=
  match e with EvScrape _ => true | _ => false end.

Definition scrape_count (trace : list Event) : nat :=
  length (filter (λ e, is_scrape e = true) trace).

(** [result] is what a worker running under [config] hands to the result
    queue for some id. *)
Definition worker_result (config : ScraperConfig) (result : RUCResult) : Prop :=
  ∃ env ruc trace, _process_ruc_with_retries config env ruc = (Return result, trace).

(** Every entry of the failure ledger carries the full attempt count. *)
Definition ledger_exhausted (config : ScraperConfig) (pm : ProgressManager) : Prop :=
  ∀ id info, failed_rucs pm !! id = Some info → fi_attempts info = max_retries config.

(** *** Proxy settings of a session *)

(** The dict that [get_proxy_config_for_camoufox] returns. *)
Record ProxySettings := {
  ps_server : string;
  ps_username : string;
  ps_password : string
}.

Definition get_proxy_config_for_camoufox (config : ProxyConfig) (session_id : string)
    : ProxySettings :=
  let base_username := username config in
  let username_with_session := base_username +:+ "_session-" +:+ session_id in
  {| ps_server := "http://" +:+ host config +:+ ":" +:+ pretty (port config);
     ps_username := username_with_session;
     ps_password := password config |}.

Definition get_proxy_url (config : ProxyConfig) (session_id : string) : string :=
  let base_username := username config in
  let username_with_session := base_username +:+ "_session-" +:+ session_id in
  "http://" +:+ username_with_session +:+ "@" +:+ host config
    +:+ ":" +:+ pretty (port config).

(** *** BrowserManager

    [_browser] and [_browser_context] say whether the attribute holds an
    object ([true]) or [None].  The proxy manager is shared with the other
    workers, so it travels with the browser manager; the log records under
    which session each browser was created and each page opened, and each
    call of [__aexit__]. *)

Inductive BrowserEvent :=
| Created (session_id : string)
| PageOpened (session_id : string)
| Closed.

#[global] Instance BrowserEvent_eq_dec : EqDecision BrowserEvent.
Proof. solve_decision. Defined.

Record BrowserManager := {
  bm_worker_id : Z;
  _browser : bool;
  _browser_context : bool;
  _current_session_id : option string;
  _pages_opened : Z;
  _max_pages_per_browser : Z;
  bm_proxy : ProxyManager;
  bm_log : list BrowserEvent
}.

Definition BrowserManager_init (worker_id : Z) (proxy : ProxyManager)
    : BrowserManager :=
  {| bm_worker_id := worker_id; _browser := false; _browser_context := false;
     _current_session_id := None;
     _pages_opened := 0; _max_pages_per_browser := 150;
     bm_proxy := proxy; bm_log := [] |}.

(** How the creation of a browser ends: [AsyncCamoufox(...)] raises,
    [__aenter__] raises, or the browser starts. *)
Inductive CreationOutcome :=
| ContextFails
| EnterFails
| Starts.

(** What the environment decides when a browser is created: the clock and
    the random draw of the session id, and how the creation ends. *)
Record Creation := {
  cr_time_ms : Z;
  cr_random_part : Z;
  cr_outcome : CreationOutcome
}.

Definition _cleanup (self : BrowserManager) : BrowserManager :=
  if _browser_context self then
    {| bm_worker_id := bm_worker_id self; _browser := false;
       _browser_context := false;
       _current_session_id := _current_session_id self;
       _pages_opened := _pages_opened self;
       _max_pages_per_browser := _max_pages_per_browser self;
       bm_proxy := bm_proxy self;
       bm_log := (bm_log self ++ [Closed])%list |}
  else self.

Definition _create_browser (c : Creation) (self : BrowserManager)
    : bool * BrowserManager :=
  let sid := get_session_id (bm_proxy self) (bm_worker_id self)
               (cr_time_ms c) (cr_random_part c) in
  match cr_outcome c with
  | ContextFails =>
      (false,
       _cleanup
         {| bm_worker_id := bm_worker_id self; _browser := _browser self;
            _browser_context := _browser_context self;
            _current_session_id := Some sid.1;
            _pages_opened := _pages_opened self;
            _max_pages_per_browser := _max_pages_per_browser self;
            bm_proxy := sid.2;
            bm_log := bm_log self |})
  | EnterFails =>
      (false,
       _cleanup
         {| bm_worker_id := bm_worker_id self; _browser := _browser self;
            _browser_context := true;
            _current_session_id := Some sid.1;
            _pages_opened := _pages_opened self;
            _max_pages_per_browser := _max_pages_per_browser self;
            bm_proxy := sid.2;
            bm_log := bm_log self |})
  | Starts =>
      (true,
       {| bm_worker_id := bm_worker_id self; _browser := true;
          _browser_context := true;
          _current_session_id := Some sid.1;
          _pages_opened := 0;
          _max_pages_per_browser := _max_pages_per_browser self;
          bm_proxy := sid.2;
          bm_log := (bm_log self ++ [Created sid.1])%list |})
  end.

(** [inr] carries the manager as the raised exception leaves it. *)
Definition get_browser (force_new : bool) (c : Creation) (self : BrowserManager)
    : BrowserManager + BrowserManager :=
  let needs_restart :=
    force_new || negb (_browser self)
    || (_pages_opened self >=? _max_pages_per_browser self) in
  if needs_restart then
    let created := _create_browser c (_cleanup self) in
    if created.1 then inl created.2 else inr created.2
  else inl self.

(** [page_opens] tells whether [browser.new_page()] returns. *)
Definition new_page (c : Creation) (page_opens : bool) (self : BrowserManager)
    : BrowserManager + BrowserManager :=
  match get_browser false c self with
  | inr failed => inr failed
  | inl ready =>
      if page_opens then
        inl {| bm_worker_id := bm_worker_id ready; _browser := _browser ready;
               _browser_context := _browser_context ready;
               _current_session_id := _current_session_id ready;
               _pages_opened := _pages_opened ready + 1;
               _max_pages_per_browser := _max_pages_per_browser ready;
               bm_proxy := bm_proxy ready;
               bm_log :=
                 (bm_log ready
                    ++ [PageOpened (default "" (_current_session_id ready))])%list |}
      else inr ready
  end.

Definition rotate_ip (c : Creation) (self : BrowserManager) : BrowserManager :=
  (_create_browser c (_cleanup self)).2.

Definition close (self : BrowserManager) : BrowserManager := _cleanup self.

(** The calls that reach a browser manager, and a call of another worker
    to the shared proxy manager. *)
Inductive BrowserOp :=
| OpNewPage (c : Creation) (page_opens : bool)
| OpRotateIp (c : Creation)
| OpClose
| OpOtherWorker (call : Call).

Definition browser_step (self : BrowserManager) (o : BrowserOp) : BrowserManager :=
  match o with
  | OpNewPage c page_opens =>
      match new_page c page_opens self with inl bm | inr bm => bm end
  | OpRotateIp c => rotate_ip c self
  | OpClose => close self
  | OpOtherWorker call =>
      {| bm_worker_id := bm_worker_id self; _browser := _browser self;
         _browser_context := _browser_context self;
         _current_session_id := _current_session_id self;
         _pages_opened := _pages_opened self;
         _max_pages_per_browser := _max_pages_per_browser self;
         bm_proxy := (get_session_id (bm_proxy self) (call_worker_id call)
                        (call_time_ms call) (call_random_part call)).2;
         bm_log := bm_log self |}
  end.

Definition browser_run (self : BrowserManager) (ops : list BrowserOp)
    : BrowserManager :=
  foldl browser_step self ops.

(** The number of pages opened under a session. *)
Definition pages_of (session_id : string) (log : list BrowserEvent) : nat :=
  length (filter (λ e, e = PageOpened session_id) log).

(** The sessions under which browsers were created, oldest first. *)
Definition created_sessions (log : list BrowserEvent) : list string :=
  omap (λ e, match e with Created sid => Some sid | _ => None end) log.

(** [sid] is a token that a proxy manager gave out at a counter below
    that of [proxy]. *)
Definition issued_before (proxy : ProxyManager) (sid : string) : Prop :=
  ∃ p w t r, sid = (get_session_id p w t r).1
             ∧ _session_counter p < _session_counter proxy.

(** What holds of a browser manager between calls. *)
Definition browser_inv (self : BrowserManager) : Prop :=
  NoDup (created_sessions (bm_log self))
  ∧ (∀ sid, sid ∈ created_sessions (bm_log self) → issued_before (bm_proxy self) sid)
  ∧ (∀ sid, PageOpened sid ∈ bm_log self → sid ∈ created_sessions (bm_log self))
  ∧ (∀ sid, Z.of_nat (pages_of sid (bm_log self))
            ≤ Z.max 1 (_max_pages_per_browser self))
  ∧ (_browser self = true →
     _browser_context self = true
     ∧ ∃ sid, _current_session_id self = Some sid
              ∧ last (created_sessions (bm_log self)) = Some sid
              ∧ Z.of_nat (pages_of sid (bm_log self)) = _pages_opened self).

(** *** The page scraper *)

Definition _classify_error (error_message : string) : ErrorType :=
  let error_lower := PyStr.lower error_message in
  if PyStr.contains "timeout" error_lower then TIMEOUT
  else if PyStr.contains "proxy" error_lower || PyStr.contains "connect" error_lower
  then PROXY_ERROR
  else if PyStr.contains "selector" error_lower || PyStr.contains "element" error_lower
  then SELECTOR_NOT_FOUND
  else if PyStr.contains "navigation" error_lower || PyStr.contains "net::" error_lower
  then PAGE_LOAD_ERROR
  else if PyStr.contains "crash" error_lower || PyStr.contains "target closed" error_lower
  then BROWSER_CRASH
  else if PyStr.contains "429" error_lower || PyStr.contains "rate" error_lower
          || PyStr.contains "banned" error_lower
  then RATE_LIMITED
  else UNKNOWN.

(** The polling loop of [_wait_for_table_complete]: [readings i] is the row
    count that poll [i] finds (-1 without a table), [fuel] the polls that
    remain; the result is the number of polls made. *)
Fixpoint stable_loop (readings : nat → Z) (fuel attempt : nat)
    (stable_count prev_count : Z) : nat :=
  match fuel with
  | O => attempt
  | S fuel' =>
      let current_count := readings attempt in
      if (current_count =? prev_count) && (current_count >=? 0) then
        let stable_count := stable_count + 1 in
        if stable_count >=? 4 then S attempt
        else stable_loop readings fuel' (S attempt) stable_count current_count
      else stable_loop readings fuel' (S attempt) 0 current_count
  end.

(** The number of polls, and the time spent waiting in milliseconds: 2000
    before each poll and 3000 at the end. *)
Definition table_polls (readings : nat → Z) : nat :=
  stable_loop readings 30 0 0 (-1).

Definition _wait_for_table_complete (readings : nat → Z) : Z :=
  2000 * Z.of_nat (table_polls readings) + 3000.

(** *** The main loop of a worker

    [queue] holds what the worker takes from the queue, in order; when it
    is used up the wait times out on an empty queue.  [running i] says
    that iteration [i] gets as far as taking an item: it is false when
    [_running] was cleared or when the task was cancelled while it
    waited on the queue.  [envs i] is the environment of the task of
    iteration [i] and [delay_draw i] the value of [random.random()] in the
    delay after it.  [cancelled_processing i] says that the task is
    cancelled while [_process_ruc_with_retries] is suspended in iteration
    [i], [cancelled_sleeping i] that it is cancelled during the sleep
    after the result was handed over. *)

Record WorkerEnv := {
  running : nat → bool;
  envs : nat → Env;
  delay_draw : nat → Q;
  cancelled_processing : nat → bool;
  cancelled_sleeping : nat → bool
}.

Record WorkerRun := {
  emitted : list RUCResult;        (* what [result_callback] received *)
  _processed_count : Z;
  crashed : bool;                  (* the loop ended in [except Exception] *)
  sleeps : list Q;                 (* the delays slept between tasks *)
  left : list (option string);     (* what was not taken from the queue *)
  dropped : option string          (* an id taken for which no result was
                                      handed over *)
}.

Fixpoint worker_loop (config : ScraperConfig) (min_delay max_delay : Q)
    (wenv : WorkerEnv) (i : nat) (queue : list (option string))
    (acc : WorkerRun) : WorkerRun :=
  match queue with
  | [] => acc
  | item :: queue' =>
      if running wenv i then
        match item with
        | None =>
            {| emitted := emitted acc; _processed_count := _processed_count acc;
               crashed := false; sleeps := sleeps acc; left := queue';
               dropped := None |}
        | Some ruc =>
            match (_process_ruc_with_retries config (envs wenv i) ruc).1 with
            | Return result =>
                if cancelled_processing wenv i then
                  {| emitted := emitted acc;
                     _processed_count := _processed_count acc;
                     crashed := false; sleeps := sleeps acc; left := queue';
                     dropped := Some ruc |}
                else if cancelled_sleeping wenv i then
                  {| emitted := (emitted acc ++ [result])%list;
                     _processed_count := _processed_count acc + 1;
                     crashed := false; sleeps := sleeps acc; left := queue';
                     dropped := None |}
                else
                  worker_loop config min_delay max_delay wenv (S i) queue'
                    {| emitted := (emitted acc ++ [result])%list;
                       _processed_count := _processed_count acc + 1;
                       crashed := false;
                       sleeps :=
                         (sleeps acc
                            ++ [uniform min_delay max_delay (delay_draw wenv i)])%list;
                       left := queue';
                       dropped := None |}
            | RaiseAttributeError =>
                {| emitted := emitted acc; _processed_count := _processed_count acc;
                   crashed := true; sleeps := sleeps acc; left := queue';
                   dropped := Some ruc |}
            end
        end
      else
        {| emitted := emitted acc; _processed_count := _processed_count acc;
           crashed := false; sleeps := sleeps acc; left := queue;
           dropped := None |}
  end.

(** [Worker.run] *)
Definition worker_run (config : ScraperConfig) (min_delay max_delay : Q)
    (wenv : WorkerEnv) (queue : list (option string)) : WorkerRun :=
  worker_loop config min_delay max_delay wenv 0 queue
    {| emitted := []; _processed_count := 0; crashed := false; sleeps := [];
       left := queue; dropped := None |}.

(** The power [retry_multiplier ** (attempt - 1)] stays far enough below
    the largest float for every attempt that is followed by a retry, so
    that [**] does not raise OverflowError.  The retry loop is modelled
    for such configurations. *)
Definition pow_in_range (config : ScraperConfig) : Prop :=
  ∀ attempt, 1 ≤ attempt < max_retries config →
    (Qabs (retry_multiplier config) ^ (attempt - 1) <= 2 ^ 1023)%Q.

(** What attempt [attempt] leaves in [result] or [last_result], and
    whether the loop returns at it. *)
Definition attempt_result (env : Env) (ruc : string) (attempt : Z) : RUCResult :=
  match attempt_outcome env attempt with
  | Scraped result => set_attempts result attempt
  | Raised msg => exception_result env ruc attempt msg
  end.

Definition attempt_succeeds (env : Env) (attempt : Z) : bool :=
  match attempt_outcome env attempt with
  | Scraped result => success (set_attempts result attempt)
  | Raised _ => false
  end.


(** The events of a retry: the attempt, the sleep and the rotation. *)
Definition retry_events (config : ScraperConfig) (env : Env) (a : nat)
    : list Event :=
  [ EvScrape (Z.of_nat a);
    EvSleep (Z.of_nat a) (retry_delay config (Z.of_nat a) (jitter_draw env (Z.of_nat a)));
    EvRotateIp (Z.of_nat a) ].

End Worker.

(** ** osiptel_main.py *)

Module Main.
Import Core.

(** The state that [_process_results] works on: the two managers, the
    local [checkpoint_counter] and the disk that holds the progress file. *)
Record Orchestrator := {
  config : ScraperConfig;
  progress_manager : ProgressManager;
  results_writer : ResultsWriter;
  checkpoint_counter : Z;
  disk : Disk
}.

Section Consumer.
Variable json_dumps : ProgressData → string.
Variable report_dumps : list BatchTime → string.

(** The body of the loop for one result taken from the queue at time
    [now]. *)
Definition process_result (self : Orchestrator) (result : RUCResult)
    (now : string) : Orchestrator :=
  let estimated_kb := estimated_kb_per_ruc (config self) in
  let pm := add_result (progress_manager self) result estimated_kb in
  let rw :=
    if success result then write_result report_dumps (results_writer self) result
    else results_writer self in
  let counter := checkpoint_counter self + 1 in
  if counter >=? checkpoint_interval (config self) then
    {| config := config self; progress_manager := pm; results_writer := rw;
       checkpoint_counter := 0;
       disk := save json_dumps pm now (disk self) |}
  else
    {| config := config self; progress_manager := pm; results_writer := rw;
       checkpoint_counter := counter; disk := disk self |}.

(** The loop over the result queue; [None] is the sentinel.  [queue] holds
    the items that the loop takes, in order: it ends where the loop is
    left by its timeout branch.  [_process_results_events] below has the
    timeouts themselves. *)
Fixpoint _process_results (self : Orchestrator)
    (queue : list (option RUCResult * string)) : Orchestrator :=
  match queue with
  | [] => self
  | (None, _) :: _ => self
  | (Some result, now) :: queue' =>
      _process_results (process_result self result now) queue'
  end.
End Consumer.

(** What the loop of [_process_results] meets, wait by wait: the wait for
    the queue returns an item taken at time [now] ([None] is the
    sentinel), or it times out after 60 seconds, with the value of
    [_shutdown_requested] and of [t.done()] for each worker task at that
    moment. *)
Inductive QueueEvent :=
| Got (item : option RUCResult) (now : string)
| TimedOut (shutdown_requested : bool) (tasks_done : list bool).

(** The [continue] of the timeout branch: shutdown was requested or no
    worker task is done; otherwise the loop is left. *)
Definition keeps_waiting (shutdown_requested : bool) (tasks_done : list bool)
    : bool :=
  shutdown_requested || forallb negb tasks_done.

Section Events.
Variable json_dumps : ProgressData → string.
Variable report_dumps : list BatchTime → string.

(** [_process_results] with its timeouts. *)
Fixpoint _process_results_events (self : Orchestrator) (events : list QueueEvent)
    : Orchestrator :=
  match events with
  | [] => self
  | TimedOut shutdown_requested tasks_done :: events' =>
      if keeps_waiting shutdown_requested tasks_done
      then _process_results_events self events'
      else self
  | Got None _ :: _ => self
  | Got (Some result) now :: events' =>
      _process_results_events
        (process_result json_dumps report_dumps self result now) events'
  end.
End Events.

(** The results that the loop handles before it is left, with the times
    at which they were taken. *)
Fixpoint handled_results (events : list QueueEvent) : list (RUCResult * string) :=
  match events with
  | [] => []
  | TimedOut shutdown_requested tasks_done :: events' =>
      if keeps_waiting shutdown_requested tasks_done
      then handled_results events'
      else []
  | Got None _ :: _ => []
  | Got (Some result) now :: events' => (result, now) :: handled_results events'
  end.

End Main.

(** ** system_optimizer.py *)

Module Optimizer.

(** The fields of [SystemResources] that the calculations read and set. *)
Record SystemResources := {
  cpu_cores : Z;
  ram_available_gb : Q;
  network_latency_ms : Q;
  optimal_workers : Z;
  optimal_delay_min : Q;
  optimal_delay_max : Q;
  max_pages_per_browser : Z
}.

Definition network_factor (self : SystemResources) : Q :=
  if Qlt_le_dec (network_latency_ms self) 100 then 20
  else if Qlt_le_dec (network_latency_ms self) 200 then 16
  else if Qlt_le_dec (network_latency_ms self) 400 then 12
  else 8.

Definition calculate_optimal_workers (self : SystemResources) : SystemResources :=
  let cpu_factor := (inject_Z (cpu_cores self) * (5 # 2))%Q in
  let ram_mb := (ram_available_gb self * 1024)%Q in
  let ram_factor := (ram_mb / 350)%Q in
  let optimal :=
    PyStr.int_of
      (Worker.py_min (Worker.py_min cpu_factor ram_factor) (network_factor self)) in
  let optimal := Z.max 4 (Z.min optimal 24) in
  {| cpu_cores := cpu_cores self; ram_available_gb := ram_available_gb self;
     network_latency_ms := network_latency_ms self;
     optimal_workers := optimal;
     optimal_delay_min := optimal_delay_min self;
     optimal_delay_max := optimal_delay_max self;
     max_pages_per_browser := max_pages_per_browser self |}.

Definition calculate_optimal_delays (self : SystemResources) : SystemResources :=
  let delays : Q * Q :=
    if Qlt_le_dec (network_latency_ms self) 100 then ((1 # 2)%Q, 1%Q)
    else if Qlt_le_dec (network_latency_ms self) 200 then ((8 # 10)%Q, (3 # 2)%Q)
    else if Qlt_le_dec (network_latency_ms self) 400 then (1%Q, 2%Q)
    else ((3 # 2)%Q, 3%Q) in
  {| cpu_cores := cpu_cores self; ram_available_gb := ram_available_gb self;
     network_latency_ms := network_latency_ms self;
     optimal_workers := optimal_workers self;
     optimal_delay_min := delays.1;
     optimal_delay_max := delays.2;
     max_pages_per_browser := max_pages_per_browser self |}.

Definition calculate_pages_per_browser (self : SystemResources) : SystemResources :=
  let pages :=
    if Qlt_le_dec 8 (ram_available_gb self) then 200
    else if Qlt_le_dec 4 (ram_available_gb self) then 150
    else if Qlt_le_dec 2 (ram_available_gb self) then 100
    else 50 in
  {| cpu_cores := cpu_cores self; ram_available_gb := ram_available_gb self;
     network_latency_ms := network_latency_ms self;
     optimal_workers := optimal_workers self;
     optimal_delay_min := optimal_delay_min self;
     optimal_delay_max := optimal_delay_max self;
     max_pages_per_browser := pages |}.

(** The three calculations of [optimize], in its order. *)
Definition optimize (detected : SystemResources) : SystemResources :=
  calculate_pages_per_browser
    (calculate_optimal_delays (calculate_optimal_workers detected)).

(** The fields of [PerformanceReport] that [calculate_metrics] reads and
    sets; a time is a number of seconds. *)
Record PerformanceReport := {
  start_time : option Q;
  end_time : option Q;
  total_duration_seconds : Q;
  total_rucs_to_process : Z;
  rucs_processed : Z;
  rucs_successful : Z;
  rucs_failed : Z;
  rucs_remaining : Z;
  rucs_per_minute : Q;
  rucs_per_hour : Q;
  rucs_per_worker_per_hour : Q;
  bandwidth_used_mb : Q;
  bandwidth_remaining_mb : Q;
  avg_kb_per_ruc : Q;
  workers_used : Z
}.

Definition PerformanceReport_init : PerformanceReport :=
  {| start_time := None; end_time := None; total_duration_seconds := 0;
     total_rucs_to_process := 0; rucs_processed := 0; rucs_successful := 0;
     rucs_failed := 0; rucs_remaining := 0; rucs_per_minute := 0;
     rucs_per_hour := 0; rucs_per_worker_per_hour := 0; bandwidth_used_mb := 0;
     bandwidth_remaining_mb := 0; avg_kb_per_ruc := 0; workers_used := 0 |}.

(** [fdiv] is the division of two floats as the machine rounds it. *)
Definition calculate_metrics (fdiv : Q → Q → Q) (self : PerformanceReport)
    : PerformanceReport :=
  let duration :=
    match end_time self, start_time self with
    | Some e, Some s => (e - s)%Q
    | _, _ => total_duration_seconds self
    end in
  let minutes := fdiv duration 60%Q in
  let hours := fdiv duration 3600%Q in
  let timed := if Qlt_le_dec 0 duration then true else false in
  let per_minute :=
    if timed then
      if Qlt_le_dec 0 minutes then fdiv (inject_Z (rucs_processed self)) minutes
      else 0%Q
    else rucs_per_minute self in
  let per_hour :=
    if timed then
      if Qlt_le_dec 0 hours then fdiv (inject_Z (rucs_processed self)) hours
      else 0%Q
    else rucs_per_hour self in
  let per_worker :=
    if timed && (workers_used self >? 0) && (if Qlt_le_dec 0 hours then true else false)
    then fdiv per_hour (inject_Z (workers_used self))
    else rucs_per_worker_per_hour self in
  let avg :=
    if (rucs_processed self >? 0)
       && (if Qlt_le_dec 0 (bandwidth_used_mb self) then true else false)
    then fdiv (bandwidth_used_mb self * 1024)%Q (inject_Z (rucs_processed self))
    else avg_kb_per_ruc self in
  {| start_time := start_time self; end_time := end_time self;
     total_duration_seconds := duration;
     total_rucs_to_process := total_rucs_to_process self;
     rucs_processed := rucs_processed self;
     rucs_successful := rucs_successful self;
     rucs_failed := rucs_failed self;
     rucs_remaining := total_rucs_to_process self - rucs_processed self;
     rucs_per_minute := per_minute;
     rucs_per_hour := per_hour;
     rucs_per_worker_per_hour := per_worker;
     bandwidth_used_mb := bandwidth_used_mb self;
     bandwidth_remaining_mb := bandwidth_remaining_mb self;
     avg_kb_per_ruc := avg;
     workers_used := workers_used self |}.

End Optimizer.

(** ** run_auto.py *)

Module Auto.
Import Core.

(** The test [r and len(r) == 11 and r.isdigit()] of [initialize], on a
    string as the list of its characters; [r.isdigit()] asks for at least
    one character and [str.isdigit] of each. *)
Definition counted_ruc {char : Type} (isdigit : char → bool) (r : list char)
    : bool :=
  negb (length r =? 0)%nat && (length r =? 11)%nat
  && (negb (length r =? 0)%nat && forallb isdigit r).

Definition counted_rucs {char : Type} (isdigit : char → bool)
    (rucs : list (list char)) : list (list char) :=
  List.filter (counted_ruc isdigit) rucs.

(** What [run] copies from the statistics of the orchestrator into the
    report. *)
Definition record_statistics (report : Optimizer.PerformanceReport)
    (stats : Statistics) : Optimizer.PerformanceReport :=
  {| Optimizer.start_time := Optimizer.start_time report;
     Optimizer.end_time := Optimizer.end_time report;
     Optimizer.total_duration_seconds := Optimizer.total_duration_seconds report;
     Optimizer.total_rucs_to_process := Optimizer.total_rucs_to_process report;
     Optimizer.rucs_processed := processed stats;
     Optimizer.rucs_successful := successful stats;
     Optimizer.rucs_failed := failed stats;
     Optimizer.rucs_remaining := Optimizer.rucs_remaining report;
     Optimizer.rucs_per_minute := Optimizer.rucs_per_minute report;
     Optimizer.rucs_per_hour := Optimizer.rucs_per_hour report;
     Optimizer.rucs_per_worker_per_hour := Optimizer.rucs_per_worker_per_hour report;
     Optimizer.bandwidth_used_mb := bandwidth_mb stats;
     Optimizer.bandwidth_remaining_mb := Optimizer.bandwidth_remaining_mb report;
     Optimizer.avg_kb_per_ruc := Optimizer.avg_kb_per_ruc report;
     Optimizer.workers_used := Optimizer.workers_used report |}.

(** The metrics part of [finalize], up to its call of [calculate_metrics];
    [now] is the time it reads and [fdiv] the division of floats. *)
Definition finalize_metrics (fdiv : Q → Q → Q) (max_bandwidth_mb : Q) (now : Q)
    (report : Optimizer.PerformanceReport) : Optimizer.PerformanceReport :=
  let total :=
    if Optimizer.total_rucs_to_process report =? 0
    then Optimizer.rucs_processed report
    else Optimizer.total_rucs_to_process report in
  Optimizer.calculate_metrics fdiv
    {| Optimizer.start_time := Optimizer.start_time report;
       Optimizer.end_time := Some now;
       Optimizer.total_duration_seconds := Optimizer.total_duration_seconds report;
       Optimizer.total_rucs_to_process := total;
       Optimizer.rucs_processed := Optimizer.rucs_processed report;
       Optimizer.rucs_successful := Optimizer.rucs_successful report;
       Optimizer.rucs_failed := Optimizer.rucs_failed report;
       Optimizer.rucs_remaining := Z.max 0 (total - Optimizer.rucs_processed report);
       Optimizer.rucs_per_minute := Optimizer.rucs_per_minute report;
       Optimizer.rucs_per_hour := Optimizer.rucs_per_hour report;
       Optimizer.rucs_per_worker_per_hour :=
         Optimizer.rucs_per_worker_per_hour report;
       Optimizer.bandwidth_used_mb := Optimizer.bandwidth_used_mb report;
       Optimizer.bandwidth_remaining_mb :=
         (max_bandwidth_mb - Optimizer.bandwidth_used_mb report)%Q;
       Optimizer.avg_kb_per_ruc := Optimizer.avg_kb_per_ruc report;
       Optimizer.workers_used := Optimizer.workers_used report |}.

End Auto.

(** ** Sample data *)

Module Examples.
Import Core.

Definition line1 : PhoneLine :=
  {| modalidad := "Prepago"; numero := "999888777"; operadora := "Claro, S.A." |}.

Definition ok_result : RUCResult :=
  {| ruc := "20100000001"; status := SUCCESS; lines := [line1];
     error_type := None; error_message := None; attempts := 1;
     timestamp := "2025-01-01T00:00:00"; duration_seconds := 12 |}.

Definition failed_result : RUCResult :=
  {| ruc := "20100000002"; status := FAILED; lines := [];
     error_type := Some TIMEOUT;
     error_message := Some "Timeout waiting for page/selector";
     attempts := 3;
     timestamp := "2025-01-01T00:00:05"; duration_seconds := 0 |}.

(** A run of three results with batches of two. *)
Definition small_batches : ScraperConfig :=
  {| max_bandwidth_mb := 9700; estimated_kb_per_ruc := 550; max_retries := 3;
     retry_base_delay := 5; retry_max_delay := 30; retry_multiplier := 2;
     checkpoint_interval := 25; batch_save_size := 2 |}.

(** A multiplier below one. *)
Definition shrinking_backoff : ScraperConfig :=
  {| max_bandwidth_mb := 9700; estimated_kb_per_ruc := 550; max_retries := 3;
     retry_base_delay := 5; retry_max_delay := 30; retry_multiplier := 1 # 2;
     checkpoint_interval := 25; batch_save_size := 1000 |}.

Definition fresh_orchestrator : Main.Orchestrator :=
  {| Main.config := default_config;
     Main.progress_manager :=
       ProgressManager_init default_config "osiptel_output/progress.json";
     Main.results_writer := ResultsWriter_init default_config "rucs" [] ∅;
     Main.checkpoint_counter := 0;
     Main.disk := ∅ |}.

(** Serializers that keep nothing; sample runs do not look at the text. *)
Definition no_json : ProgressData → string := λ _, "{}".
Definition no_report : list BatchTime → string := λ _, "{}".

(** A serializer that keeps the time of the save only. *)
Definition time_only : ProgressData → string := pd_last_save.

(** Every attempt times out. *)
Definition always_timeout : Worker.Env :=
  {| Worker.attempt_outcome := λ _, Worker.Raised "Timeout 30000ms exceeded";
     Worker.jitter_draw := λ _, 1 # 2;
     Worker.env_now := λ _, "2025-01-01T00:00:00" |}.




(** A worker that is never told to stop and whose tasks all time out. *)
Definition steady_worker : Worker.WorkerEnv :=
  {| Worker.running := λ _, true;
     Worker.envs := λ _, always_timeout;
     Worker.delay_draw := λ _, 1 # 2;
     Worker.cancelled_processing := λ _, false;
     Worker.cancelled_sleeping := λ _, false |}.


(** A configuration that allows no attempt. *)
Definition no_attempts : ScraperConfig :=
  {| max_bandwidth_mb := 9700; estimated_kb_per_ruc := 550; max_retries := 0;
     retry_base_delay := 5; retry_max_delay := 30; retry_multiplier := 2;
     checkpoint_interval := 25; batch_save_size := 1000 |}.

End Examples.

(** * Properties of the engine *)

Import Core.

(** [conjs] splits a conjunction into its parts without introducing
    anything. *)
Ltac conjs := repeat match goal with |- _ ∧ _ => split end.

(** ** Strings: the text of a number and what can be read back from it *)

Section StringFacts.

Lemma all_chars_app p s1 s2 :
  PyStr.all_chars p (s1 +:+ s2) = PyStr.all_chars p s1 && PyStr.all_chars p s2.
Proof. induction s1 as [|a s1 IH]; simpl; [done |]. by rewrite IH, andb_assoc. Qed.

Lemma pretty_N_char_num x : PyStr.num_char (pretty_N_char x) = true.
Proof. unfold pretty_N_char. by repeat case_match. Qed.

Lemma pretty_N_go_num x : ∀ s,
  PyStr.all_chars PyStr.num_char s = true →
  PyStr.all_chars PyStr.num_char (pretty_N_go x s) = true.
Proof.
  induction (N.lt_wf_0 x) as [x _ IH]; intros s Hs.
  destruct (decide (x = 0)%N) as [->|Hx]; [by rewrite pretty_N_go_0 |].
  rewrite pretty_N_go_step by lia.
  apply IH; [apply N.div_lt; lia |].
  simpl. by rewrite pretty_N_char_num, Hs.
Qed.

Lemma pretty_N_num (x : N) : PyStr.all_chars PyStr.num_char (pretty x) = true.
Proof.
  unfold pretty, pretty_N. case_decide; [done |]. by apply pretty_N_go_num.
Qed.

Lemma pretty_nat_num (x : nat) : PyStr.all_chars PyStr.num_char (pretty x) = true.
Proof. apply pretty_N_num. Qed.

Lemma pretty_Z_num (x : Z) : PyStr.all_chars PyStr.num_char (pretty x) = true.
Proof.
  destruct x as [|p|p]; [done | apply pretty_N_num |].
  unfold pretty, pretty_Z. rewrite all_chars_app. simpl.
  apply (pretty_N_num (Npos p)).
Qed.

(** A separator that is not a number character ends the number: the text
    before it and the text after it are determined. *)
Lemma num_prefix_unique (a : ascii) : ∀ s1 s2 r1 r2,
  PyStr.num_char a = false →
  PyStr.all_chars PyStr.num_char s1 = true →
  PyStr.all_chars PyStr.num_char s2 = true →
  s1 +:+ String a r1 = s2 +:+ String a r2 →
  s1 = s2 ∧ r1 = r2.
Proof.
  induction s1 as [|c s1 IH]; intros [|c' s2] r1 r2 Ha H1 H2 Heq; simpl in *.
  - by simplify_eq.
  - simplify_eq. apply andb_true_iff in H2 as [? _]. congruence.
  - simplify_eq. apply andb_true_iff in H1 as [? _]. congruence.
  - apply andb_true_iff in H1 as [_ H1]. apply andb_true_iff in H2 as [_ H2].
    injection Heq as -> Heq. destruct (IH s2 r1 r2 Ha H1 H2 Heq) as [-> ->]. done.
Qed.

End StringFacts.

(** ** Statistics *)

Section StatisticsSpec.

Lemma success_iff (result : RUCResult) :
  success result = true ↔ status result = SUCCESS.
Proof. unfold success. by rewrite bool_decide_eq_true. Qed.

Lemma update_processed self result kb :
  processed (Statistics_update self result kb) = processed self + 1.
Proof. unfold Statistics_update. by destruct (success result). Qed.

(** C10. [Statistics.update] adds one to [processed] and one to exactly one
    of [successful] (status SUCCESS) and [failed] (any other status); the
    difference [processed - (successful + failed)] is left unchanged, so
    [processed == successful + failed] is preserved by every update,
    whatever the result and the bandwidth estimate. *)
Theorem statistics_update_counters
    (self : Statistics) (result : RUCResult) (estimated_kb : Q) :
  let self' := Statistics_update self result estimated_kb in
  processed self' = processed self + 1
  ∧ (status result = SUCCESS →
       successful self' = successful self + 1 ∧ failed self' = failed self)
  ∧ (status result ≠ SUCCESS →
       successful self' = successful self ∧ failed self' = failed self + 1)
  ∧ processed self' - (successful self' + failed self')
      = processed self - (successful self + failed self)
  ∧ (counters_consistent self → counters_consistent self').
Proof.
  unfold counters_consistent, Statistics_update; simpl.
  destruct (success result) eqn:Hs; simpl.
  - apply success_iff in Hs. repeat split; intros; try done; lia.
  - assert (status result ≠ SUCCESS) as Hne.
    { intros H. apply success_iff in H. congruence. }
    repeat split; intros; try done; lia.
Qed.

Lemma statistics_update_counters_witness :
  counters_consistent Statistics_init
  ∧ counters_consistent
      (Statistics_update Statistics_init Examples.failed_result 550).
Proof.
  split; [reflexivity |].
  apply (statistics_update_counters Statistics_init Examples.failed_result 550).
  reflexivity.
Defined.

End StatisticsSpec.

(** ** Progress manager *)

Section ProgressSpec.

Lemma add_result_processed pm result kb id :
  id ∈ processed_rucs (add_result pm result kb)
  ↔ id = ruc result ∨ id ∈ processed_rucs pm.
Proof. simpl. set_solver. Qed.

Lemma add_results_processed results : ∀ pm id,
  id ∈ processed_rucs (add_results pm results)
  ↔ id ∈ processed_rucs pm ∨ ∃ c, c ∈ results ∧ ruc c.1 = id.
Proof.
  induction results as [|c results IH]; intros pm id.
  - simpl. split; [auto | intros [?|(c & Hc & _)]; [done | by inversion Hc]].
  - unfold add_results in *. simpl. rewrite IH, add_result_processed.
    split.
    + intros [[->|?]|(c' & Hc' & <-)]; eauto.
      * right. exists c. split; [left | done].
      * right. exists c'. split; [by right | done].
    + intros [?|(c' & Hc' & <-)]; [auto |].
      apply elem_of_cons in Hc' as [->|?]; [auto |].
      right. by exists c'.
Qed.

Lemma get_pending_rucs_elem pm all_rucs id :
  id ∈ get_pending_rucs pm all_rucs ↔ id ∈ all_rucs ∧ id ∉ processed_rucs pm.
Proof. unfold get_pending_rucs. rewrite list_elem_of_filter. tauto. Qed.

Lemma get_pending_rucs_nil pm all_rucs :
  (∀ id, id ∈ all_rucs → id ∈ processed_rucs pm) →
  get_pending_rucs pm all_rucs = [].
Proof.
  intros Hall. destruct (get_pending_rucs pm all_rucs) as [|id l] eqn:E; [done |].
  assert (id ∈ get_pending_rucs pm all_rucs) as Hin by (rewrite E; left).
  apply get_pending_rucs_elem in Hin as [Hin Hnot]. by destruct Hnot; auto.
Qed.

(** C1. [add_result] puts the id of every result, of whatever status, into
    [processed_rucs]; once a result has been recorded for every id of [S],
    [get_pending_rucs S] is the empty list, also on the set read back from
    the saved progress data. *)
Theorem idempotent_resume
    (pm : ProgressManager) (results : list (RUCResult * Q)) (S : list string)
    (now : string) :
  (∀ id, id ∈ S → ∃ c, c ∈ results ∧ ruc c.1 = id) →
  (∀ pm' result kb, ruc result ∈ processed_rucs (add_result pm' result kb))
  ∧ get_pending_rucs (add_results pm results) S = []
  ∧ load_processed_rucs (save_data (add_results pm results) now)
      = processed_rucs (add_results pm results).
Proof.
  intros Hcover. split; [|split].
  - intros pm' result kb. apply add_result_processed. by left.
  - apply get_pending_rucs_nil. intros id Hid.
    apply add_results_processed. right. by apply Hcover.
  - unfold load_processed_rucs. simpl. apply list_to_set_elements_L.
Qed.

Lemma idempotent_resume_witness :
  get_pending_rucs
    (add_results (ProgressManager_init default_config "progress.json")
       [(Examples.ok_result, 550%Q); (Examples.failed_result, 550%Q)])
    ["20100000001"; "20100000002"; "20100000001"]
  = [].
Proof.
  apply (idempotent_resume (ProgressManager_init default_config "progress.json")
           [(Examples.ok_result, 550%Q); (Examples.failed_result, 550%Q)]
           ["20100000001"; "20100000002"; "20100000001"] "").
  intros id Hid.
  apply elem_of_cons in Hid as [-> | Hid];
    [exists (Examples.ok_result, 550%Q); split; [left | reflexivity] |].
  apply elem_of_cons in Hid as [-> | Hid];
    [exists (Examples.failed_result, 550%Q); split; [right; left | reflexivity] |].
  apply list_elem_of_singleton in Hid as ->.
  exists (Examples.ok_result, 550%Q); split; [left | reflexivity].
Defined.

End ProgressSpec.

(** ** Session tokens of the proxy manager *)

Section SessionTokens.
Import Worker.

(** The counter can be read back from a token. *)
Lemma token_determines_counter pm1 pm2 w1 w2 t1 t2 r1 r2 :
  (get_session_id pm1 w1 t1 r1).1 = (get_session_id pm2 w2 t2 r2).1 →
  _session_counter pm1 = _session_counter pm2.
Proof.
  unfold get_session_id. cbn [fst String.app]. intros Heq.
  injection Heq as Heq.
  apply num_prefix_unique in Heq as [_ Heq]; [| done | apply pretty_Z_num ..].
  apply num_prefix_unique in Heq as [Hc _]; [| done | apply pretty_Z_num ..].
  apply (inj pretty) in Hc. lia.
Qed.

Lemma session_ids_later calls : ∀ self tok,
  tok ∈ session_ids self calls →
  ∃ pm' w t r,
    _session_counter self ≤ _session_counter pm'
    ∧ tok = (get_session_id pm' w t r).1.
Proof.
  induction calls as [|c calls IH]; intros self tok Hin; simpl in Hin.
  - by inversion Hin.
  - apply elem_of_cons in Hin as [->|Hin].
    + exists self, (call_worker_id c), (call_time_ms c), (call_random_part c).
      split; [lia | done].
    + apply IH in Hin as (pm' & w & t & r & Hle & ->).
      exists pm', w, t, r. split; [| done].
      simpl in Hle. lia.
Qed.

(** C8. The tokens that [get_session_id] returns during one run are
    pairwise distinct, whatever the workers that ask, the order in which
    they take the lock, the clock readings and the random draws: the
    counter grows by one with each call and can be read back from the
    token. *)
Theorem session_ids_unique (self : ProxyManager) (calls : list Call) :
  NoDup (session_ids self calls)
  ∧ (∀ i j a b,
       session_ids self calls !! i = Some a →
       session_ids self calls !! j = Some b →
       i ≠ j → a ≠ b).
Proof.
  assert (NoDup (session_ids self calls)) as Hnd.
  { revert self. induction calls as [|c calls IH]; intros self; simpl.
    - constructor.
    - constructor; [| apply IH].
      intros Hin. apply session_ids_later in Hin as (pm' & w & t & r & Hle & Heq).
      apply token_determines_counter in Heq.
      simpl in Hle. lia. }
  split; [done |].
  intros i j a b Hi Hj Hij ->. apply Hij.
  by eapply NoDup_lookup.
Qed.

Lemma session_ids_unique_witness :
  NoDup
    (session_ids ProxyManager_init
       [ {| call_worker_id := 0; call_time_ms := 1730000000123; call_random_part := 10000 |};
         {| call_worker_id := 0; call_time_ms := 1730000000123; call_random_part := 10000 |};
         {| call_worker_id := 1; call_time_ms := 1730000000123; call_random_part := 10000 |} ]).
Proof.
  apply (proj1 (session_ids_unique ProxyManager_init
                  [ {| call_worker_id := 0; call_time_ms := 1730000000123;
                       call_random_part := 10000 |};
                    {| call_worker_id := 0; call_time_ms := 1730000000123;
                       call_random_part := 10000 |};
                    {| call_worker_id := 1; call_time_ms := 1730000000123;
                       call_random_part := 10000 |} ])).
Defined.

End SessionTokens.

(** ** The retry loop of a worker *)

Section RetryLoop.
Import Worker.

Lemma success_set_attempts r a : success (set_attempts r a) = success r.
Proof. done. Qed.

Lemma scrape_count_app t1 t2 :
  scrape_count (t1 ++ t2) = (scrape_count t1 + scrape_count t2)%nat.
Proof. unfold scrape_count. by rewrite filter_app, length_app. Qed.

(** What the loop adds to the trace, and what it returns. *)
Lemma attempts_loop_spec config env ruc : ∀ fuel attempt last trace,
  ∃ added,
    (attempts_loop config env ruc fuel attempt last trace).2 = trace ++ added
    ∧ (∀ a d, EvSleep a d ∈ added →
         attempt ≤ a < attempt + Z.of_nat fuel
         ∧ a < max_retries config
         ∧ d = retry_delay config a (jitter_draw env a))
    ∧ (∀ a, EvScrape a ∈ added → attempt ≤ a < attempt + Z.of_nat fuel)
    ∧ (scrape_count added ≤ fuel)%nat
    ∧ (∀ r, (attempts_loop config env ruc fuel attempt last trace).1 = Return r →
         success r = true
         ∨ (attempts r = max_retries config ∧ scrape_count added = fuel))
    ∧ ((attempts_loop config env ruc fuel attempt last trace).1 = RaiseAttributeError →
         fuel = 0%nat ∧ last = None).
Proof.
  induction fuel as [|fuel IH]; intros attempt last trace.
  - exists []. simpl. rewrite app_nil_r.
    destruct last as [r|]; simpl; conjs;
      try (intros a d H; by inversion H); try (intros a H; by inversion H);
      try done.
    intros r' [= <-]. right. done.
  - cbn [attempts_loop].
    set (step := match attempt_outcome env attempt with
                 | Scraped result =>
                     if success (set_attempts result attempt)
                     then inl (set_attempts result attempt)
                     else inr (set_attempts result attempt)
                 | Raised msg => inr (exception_result env ruc attempt msg)
                 end).
    assert (∀ r, step = inl r → success r = true) as Hinl.
    { subst step. intros r. destruct (attempt_outcome env attempt) as [res|msg]; [| done].
      destruct (success (set_attempts res attempt)) eqn:E; [| done]. by intros [= <-]. }
    destruct step as [r|lastr] eqn:Hstep.
    + exists [EvScrape attempt]. simpl. conjs; try done.
      * intros a d Ha. apply list_elem_of_singleton in Ha. done.
      * intros a Ha. apply list_elem_of_singleton in Ha. simplify_eq. lia.
      * unfold scrape_count. simpl. lia.
      * intros r' [= <-]. left. by apply Hinl.
    + set (extra := if attempt <? max_retries config
                    then [EvSleep attempt (retry_delay config attempt (jitter_draw env attempt));
                          EvRotateIp attempt]
                    else []).
      assert ((if attempt <? max_retries config
               then (trace ++ [EvScrape attempt])
                      ++ [EvSleep attempt (retry_delay config attempt (jitter_draw env attempt));
                          EvRotateIp attempt]
               else trace ++ [EvScrape attempt])
              = trace ++ EvScrape attempt :: extra) as ->.
      { subst extra. destruct (attempt <? max_retries config);
          by rewrite <- ?app_assoc. }
      destruct (IH (attempt + 1) (Some lastr) (trace ++ EvScrape attempt :: extra))
        as (added & Htr & Hsleep & Hscrape & Hcount & Hret & Herr).
      exists (EvScrape attempt :: extra ++ added).
      assert (scrape_count (EvScrape attempt :: extra ++ added)
              = S (scrape_count added)) as Hc.
      { change (EvScrape attempt :: extra ++ added)
          with ([EvScrape attempt] ++ extra ++ added).
        rewrite !scrape_count_app. subst extra.
        by destruct (attempt <? max_retries config). }
      split; [| split; [| split; [| split; [| split]]]].
      * rewrite Htr. by rewrite <- app_assoc.
      * intros a d Hin. apply elem_of_cons in Hin as [? | Hin]; [done |].
        apply elem_of_app in Hin as [Hin | Hin].
        -- subst extra. destruct (attempt <? max_retries config) eqn:Hlt;
             [| by inversion Hin].
           apply Z.ltb_lt in Hlt.
           apply elem_of_cons in Hin as [[= -> ->] | Hin];
             [conjs; (lia || done) |].
           apply list_elem_of_singleton in Hin. done.
        -- apply Hsleep in Hin as (? & ? & ?). conjs; (lia || done).
      * intros a Hin. apply elem_of_cons in Hin as [[= ->] | Hin]; [lia |].
        apply elem_of_app in Hin as [Hin | Hin].
        -- subst extra. destruct (attempt <? max_retries config);
             [| by inversion Hin].
           apply elem_of_cons in Hin as [? | Hin]; [done |].
           apply list_elem_of_singleton in Hin. done.
        -- apply Hscrape in Hin. lia.
      * rewrite Hc. lia.
      * intros r Hr. apply Hret in Hr as [? | [? ?]]; [by left | right].
        split; [done |]. rewrite Hc. lia.
      * intros Hr. apply Herr in Hr as [_ ?]. done.
Qed.

Lemma py_min_le_r a b : (py_min a b <= b)%Q.
Proof. unfold py_min. destruct (Qlt_le_dec b a); lra. Qed.

Lemma py_min_mono a a' b : (a <= a')%Q → (py_min a b <= py_min a' b)%Q.
Proof.
  unfold py_min. intros H.
  destruct (Qlt_le_dec b a), (Qlt_le_dec b a'); lra.
Qed.

Lemma base_delay_mono config a b :
  (0 <= retry_base_delay config)%Q →
  (1 <= retry_multiplier config)%Q →
  a ≤ b →
  (base_delay config a <= base_delay config b)%Q.
Proof.
  intros Hbase Hmult Hab. unfold base_delay. apply py_min_mono.
  rewrite !(Qmult_comm (retry_base_delay config)).
  apply Qmult_le_compat_r; [| done].
  apply Qpower_le_compat_l; [lia | done].
Qed.

Lemma uniform_range a u :
  (0 <= a)%Q → (0 <= u)%Q → (u < 1)%Q →
  (0 <= uniform 0 a u)%Q ∧ (uniform 0 a u <= a)%Q.
Proof. unfold uniform. intros. split; nra. Qed.

(** C2 (as it holds).  The delay before retry [a] is
    [min(retry_base_delay * retry_multiplier^(a-1), retry_max_delay)] plus
    the jitter [uniform(0, 0.3 * that)]; the delay before the jitter never
    exceeds [retry_max_delay]; with [retry_base_delay >= 0] and
    [retry_multiplier >= 1] it does not decrease from one attempt to the
    next; when it is not negative the jitter lies between 0 and 0.3 times
    it.  The worker sleeps only after an attempt [a] with
    [1 <= a < max_retries], for exactly that delay, and never scrapes
    beyond attempt [max_retries]. *)
Theorem retry_backoff (config : ScraperConfig) (env : Env) (ruc : string) :
  (∀ a u,
     retry_delay config a u
     = (py_min (retry_base_delay config * retry_multiplier config ^ (a - 1))
               (retry_max_delay config)
        + uniform 0
            (py_min (retry_base_delay config * retry_multiplier config ^ (a - 1))
                    (retry_max_delay config) * (3 # 10)) u)%Q)
  ∧ (∀ a, (base_delay config a <= retry_max_delay config)%Q)
  ∧ ((0 <= retry_base_delay config)%Q → (1 <= retry_multiplier config)%Q →
       (∀ a b, a ≤ b → (base_delay config a <= base_delay config b)%Q)
       ∧ backoff_nondecreasing config)
  ∧ (∀ a u, (0 <= u)%Q → (u < 1)%Q → (0 <= base_delay config a)%Q →
       (0 <= uniform 0 (base_delay config a * (3 # 10)) u)%Q
       ∧ (uniform 0 (base_delay config a * (3 # 10)) u
          <= base_delay config a * (3 # 10))%Q)
  ∧ (∀ a d, EvSleep a d ∈ (_process_ruc_with_retries config env ruc).2 →
       1 ≤ a < max_retries config
       ∧ d = retry_delay config a (jitter_draw env a))
  ∧ (∀ a, EvScrape a ∈ (_process_ruc_with_retries config env ruc).2 →
       1 ≤ a ≤ max_retries config).
Proof.
  conjs.
  - done.
  - intros a. apply py_min_le_r.
  - intros Hbase Hmult. split.
    + intros a b Hab. by apply base_delay_mono.
    + intros a _ _. apply base_delay_mono; [done | done | lia].
  - intros a u Hu0 Hu1 Hd. apply uniform_range; [nra | done | done].
  - intros a d Hin. unfold _process_ruc_with_retries in Hin.
    destruct (attempts_loop_spec config env ruc
                (Z.to_nat (max_retries config)) 1 None [])
      as (added & Htr & Hsleep & _).
    rewrite Htr in Hin. simpl in Hin.
    apply Hsleep in Hin as (? & ? & ?). split; [lia | done].
  - intros a Hin. unfold _process_ruc_with_retries in Hin.
    destruct (attempts_loop_spec config env ruc
                (Z.to_nat (max_retries config)) 1 None [])
      as (added & Htr & _ & Hscrape & _).
    rewrite Htr in Hin. simpl in Hin.
    apply Hscrape in Hin. lia.
Qed.

(** The default configuration: 5 seconds, doubled at each retry. *)
Lemma retry_backoff_witness :
  (0 <= retry_base_delay default_config)%Q
  ∧ (1 <= retry_multiplier default_config)%Q
  ∧ backoff_nondecreasing default_config.
Proof.
  assert (0 <= retry_base_delay default_config)%Q as H0
    by (unfold Qle; simpl; lia).
  assert (1 <= retry_multiplier default_config)%Q as H1
    by (unfold Qle; simpl; lia).
  split; [exact H0 | split; [exact H1 |]].
  exact (proj2 (proj1 (proj2 (proj2
           (retry_backoff default_config Examples.always_timeout "20100000001")))
           H0 H1)).
Defined.

(** C2 (as stated) fails: with a multiplier below 1 the delay shrinks. *)
Lemma backoff_decreases_for_small_multiplier :
  ¬ backoff_nondecreasing Examples.shrinking_backoff.
Proof.
  intros H. specialize (H 1). simpl in H.
  assert (5 <= 5 # 2)%Q as Hle by (apply H; lia).
  unfold Qle in Hle. simpl in Hle. lia.
Qed.

End RetryLoop.

(** ** The failure ledger *)

Section FailureLedger.
Import Worker.

Lemma add_result_ledger_failed pm result kb :
  success result = false →
  failed_rucs (add_result pm result kb) !! ruc result
  = Some {| fi_error_type :=
              match error_type result with
              | Some e => ErrorType_value e
              | None => "unknown"
              end;
            fi_error_message := error_message result;
            fi_attempts := attempts result |}.
Proof. intros Hs. simpl. rewrite Hs. simpl. apply lookup_insert_eq. Qed.

Lemma worker_result_exhausted config result :
  worker_result config result → success result = false →
  attempts result = max_retries config.
Proof.
  intros (env & id & trace & Hrun) Hs.
  unfold _process_ruc_with_retries in Hrun.
  destruct (attempts_loop_spec config env id
              (Z.to_nat (max_retries config)) 1 None [])
    as (added & _ & _ & _ & _ & Hret & _).
  rewrite Hrun in Hret.
  destruct (Hret result eq_refl) as [? | [? _]]; [congruence | done].
Qed.

Lemma add_result_ledger_exhausted config pm result kb :
  ledger_exhausted config pm → worker_result config result →
  ledger_exhausted config (add_result pm result kb).
Proof.
  intros Hpm Hres id info. simpl.
  destruct (success result) eqn:Hs; simpl; [apply Hpm |].
  rewrite lookup_insert. case_decide as Hid.
  - intros [= <-]. simpl. by apply worker_result_exhausted.
  - apply Hpm.
Qed.

(** C6. A result that [_process_ruc_with_retries] returns without success
    has [attempts = max_retries], and the scraper was invoked exactly
    [max_retries] times for it; [add_result] stores that count in the
    ledger entry of the id, with the error kind and message of the result.
    Hence a ledger that is filled from worker results only holds ids whose
    attempts were all used.  With [max_retries >= 1] the worker does
    return a result. *)
Theorem failed_results_exhaust_retries (config : ScraperConfig) :
  (∀ env id result trace,
     _process_ruc_with_retries config env id = (Return result, trace) →
     success result = false →
     attempts result = max_retries config
     ∧ scrape_count trace = Z.to_nat (max_retries config)
     ∧ ∀ pm kb,
         failed_rucs (add_result pm result kb) !! ruc result
         = Some {| fi_error_type :=
                     match error_type result with
                     | Some e => ErrorType_value e
                     | None => "unknown"
                     end;
                   fi_error_message := error_message result;
                   fi_attempts := max_retries config |})
  ∧ (∀ pm results,
       ledger_exhausted config pm →
       (∀ c, c ∈ results → worker_result config c.1) →
       ledger_exhausted config (add_results pm results))
  ∧ ledger_exhausted config (ProgressManager_init config "")
  ∧ (1 ≤ max_retries config →
     ∀ env id, ∃ result,
       (_process_ruc_with_retries config env id).1 = Return result).
Proof.
  conjs.
  - intros env id result trace Hrun Hs.
    assert (attempts result = max_retries config) as Hatt.
    { apply worker_result_exhausted; [| done]. by exists env, id, trace. }
    conjs; [done | |].
    + unfold _process_ruc_with_retries in Hrun.
      destruct (attempts_loop_spec config env id
                  (Z.to_nat (max_retries config)) 1 None [])
        as (added & Htr & _ & _ & _ & Hret & _).
      rewrite Hrun in Htr, Hret. simpl in Htr. subst trace.
      destruct (Hret result eq_refl) as [? | [_ ?]]; [congruence | done].
    + intros pm kb. rewrite <- Hatt. by apply add_result_ledger_failed.
  - intros pm results. revert pm.
    induction results as [|c results IH]; intros pm Hpm Hres; [done |].
    unfold add_results in *. simpl. apply IH.
    + apply add_result_ledger_exhausted; [done |]. apply Hres. left.
    + intros c' Hc'. apply Hres. by right.
  - intros id info. simpl. by rewrite lookup_empty.
  - intros Hmax env id. unfold _process_ruc_with_retries.
    destruct (attempts_loop_spec config env id
                (Z.to_nat (max_retries config)) 1 None [])
      as (added & _ & _ & _ & _ & _ & Herr).
    destruct (attempts_loop config env id (Z.to_nat (max_retries config)) 1 None []).1
      as [result|] eqn:E; [by exists result |].
    destruct (Herr eq_refl) as [Hfuel _]. lia.
Qed.

(** Every attempt times out under the default configuration. *)
Lemma failed_results_exhaust_retries_witness :
  ∃ result trace,
    _process_ruc_with_retries default_config Examples.always_timeout "20100000001"
      = (Return result, trace)
    ∧ success result = false
    ∧ attempts result = 3
    ∧ scrape_count trace = 3%nat.
Proof.
  eexists _, _. split; [reflexivity |]. split; [reflexivity |].
  split;
    apply (proj1 (failed_results_exhaust_retries default_config)
             Examples.always_timeout "20100000001" _ _ eq_refl eq_refl).
Defined.

End FailureLedger.

(** ** Rows of the output files *)

Section RowFormat.

#[local] Instance col_modalidad_inj : Inj (=) (=) col_modalidad.
Proof. intros i j H. unfold col_modalidad in H. by simplify_eq. Qed.
#[local] Instance col_numero_inj : Inj (=) (=) col_numero.
Proof. intros i j H. unfold col_numero in H. by simplify_eq. Qed.
#[local] Instance col_operadora_inj : Inj (=) (=) col_operadora.
Proof. intros i j H. unfold col_operadora in H. by simplify_eq. Qed.









Lemma flat_map_cells_length (ls : list PhoneLine) :
  length (flat_map line_cells ls) = (3 * length ls)%nat.
Proof. induction ls as [|l ls IH]; simpl; [done | lia]. Qed.


Section WithReport.
Variable report_dumps : list BatchTime → string.

Lemma save_timing_report_main_file self :
  main_file (_save_timing_report report_dumps self) = main_file self.
Proof. done. Qed.

Lemma save_batch_main_file self :
  main_file (_save_batch report_dumps self) = main_file self.
Proof. unfold _save_batch. by destruct (_batch_results self). Qed.

Lemma write_result_main_file self result :
  main_file (write_result report_dumps self result)
  = main_file self
      ++ (if _header_written self then [] else [header_line])
      ++ [row_line result].
Proof.
  unfold write_result. case_match; rewrite ?save_batch_main_file; simpl;
    by destruct (_header_written self).
Qed.

(** C5 (as it holds).  The result consumer appends to the main file
    exactly one row for a result with status SUCCESS (after the header,
    when the file has none yet), whether or not a batch is flushed; for
    any other result it appends nothing. *)
Theorem main_row_per_successful_result (json_dumps : ProgressData → string)
    (self : Main.Orchestrator) (result : RUCResult) (now : string) :
  let after :=
    Main.results_writer
      (Main.process_result json_dumps report_dumps self result now) in
  (status result = SUCCESS →
     appends_one_row (Main.results_writer self) after result)
  ∧ (status result ≠ SUCCESS →
       main_file after = main_file (Main.results_writer self)).
Proof.
  unfold appends_one_row, Main.process_result. split; intros Hs.
  - apply success_iff in Hs. rewrite Hs.
    case_match; simpl; apply write_result_main_file.
  - assert (success result = false) as ->.
    { destruct (success result) eqn:E; [| done]. by apply success_iff in E. }
    by case_match.
Qed.

End WithReport.

End RowFormat.

Section MainRows.

Lemma main_row_per_successful_result_witness :
  appends_one_row
    (Main.results_writer Examples.fresh_orchestrator)
    (Main.results_writer
       (Main.process_result Examples.no_json Examples.no_report
          Examples.fresh_orchestrator Examples.ok_result "2025-01-01T00:00:01"))
    Examples.ok_result.
Proof.
  apply (main_row_per_successful_result Examples.no_report Examples.no_json
           Examples.fresh_orchestrator Examples.ok_result "2025-01-01T00:00:01").
  reflexivity.
Defined.

(** C5 (as stated) fails: a result with status FAILED is recorded as
    processed but no row is appended for it. *)
Lemma failed_result_appends_no_row :
  status Examples.failed_result = FAILED
  ∧ ¬ appends_one_row
        (Main.results_writer Examples.fresh_orchestrator)
        (Main.results_writer
           (Main.process_result Examples.no_json Examples.no_report
              Examples.fresh_orchestrator Examples.failed_result
              "2025-01-01T00:00:06"))
        Examples.failed_result.
Proof.
  split; [reflexivity |].
  unfold appends_one_row. intros H.
  apply (f_equal length) in H. vm_compute in H. discriminate H.
Qed.

End MainRows.

(** ** Bandwidth *)

Section Bandwidth.
Variable json_dumps : ProgressData → string.
Variable report_dumps : list BatchTime → string.

Lemma process_result_processed self result now :
  processed (statistics (Main.progress_manager
               (Main.process_result json_dumps report_dumps self result now)))
  = processed (statistics (Main.progress_manager self)) + 1.
Proof.
  unfold Main.process_result. case_match; simpl; apply update_processed.
Qed.

Lemma process_results_processed (arrivals : list (RUCResult * string)) : ∀ self,
  processed (statistics (Main.progress_manager
               (Main._process_results json_dumps report_dumps self
                  (map (λ c, (Some c.1, c.2)) arrivals))))
  = processed (statistics (Main.progress_manager self))
    + Z.of_nat (length arrivals).
Proof.
  induction arrivals as [|[r now] arrivals IH]; intros self; simpl; [lia |].
  rewrite IH, process_result_processed. lia.
Qed.

(** C9. [is_bandwidth_exceeded] is [False] for every progress manager,
    whatever its configuration and statistics, and the result consumer
    handles every result that arrives before the sentinel, however large
    the estimated bandwidth has grown. *)
Theorem bandwidth_limit_not_enforced
    (pm : ProgressManager) (self : Main.Orchestrator)
    (arrivals : list (RUCResult * string)) :
  is_bandwidth_exceeded pm = false
  ∧ processed (statistics (Main.progress_manager
                 (Main._process_results json_dumps report_dumps self
                    (map (λ c, (Some c.1, c.2)) arrivals))))
    = processed (statistics (Main.progress_manager self))
      + Z.of_nat (length arrivals).
Proof. split; [done | apply process_results_processed]. Qed.

End Bandwidth.

(** ** Batches *)

Section BatchPartition.
Variable report_dumps : list BatchTime → string.

Lemma batch_filename_inj self k k' :
  batch_filename self k = batch_filename self k' → k = k'.
Proof.
  unfold batch_filename. intros H. simplify_eq.
  change ".csv" with (String "." "csv") in H.
  apply num_prefix_unique in H as [H _]; [| done | apply pretty_Z_num ..].
  by apply (inj pretty) in H.
Qed.

Lemma batch_filename_not_report self k :
  batch_filename self k ≠ timing_report_name self.
Proof.
  unfold batch_filename, timing_report_name. intros H. simplify_eq.
  pose proof (pretty_Z_num (batch_save_size (rw_config self))) as Hnum.
  destruct (pretty (batch_save_size (rw_config self))) as [|c rest];
    simpl in H; [discriminate H |].
  injection H as -> _. discriminate Hnum.
Qed.

Lemma batch_filename_same w w0 k :
  rw_config w = rw_config w0 → _input_filename w = _input_filename w0 →
  batch_filename w k = batch_filename w0 k.
Proof. unfold batch_filename. by intros -> ->. Qed.

Lemma batch_chunk_app b k rs more :
  (1 ≤ k)%nat → (k * b ≤ length rs)%nat →
  batch_chunk b k (rs ++ more) = batch_chunk b k rs.
Proof.
  intros Hk Hlen. unfold batch_chunk.
  rewrite drop_app_le by nia. apply take_app_le. rewrite length_drop. nia.
Qed.

Lemma batch_chunk_last b q rs :
  (q * b ≤ length rs)%nat → (length rs ≤ q * b + b)%nat →
  batch_chunk b (S q) rs = drop (q * b) rs.
Proof.
  intros H1 H2. unfold batch_chunk. replace (S q - 1)%nat with q by lia.
  apply take_ge. rewrite length_drop. lia.
Qed.

Lemma batches_written_report w0 w b q rs :
  batches_written w0 w b q rs →
  batches_written w0 (_save_timing_report report_dumps w) b q rs.
Proof.
  intros (Hc & Hn & Hnum & Hfiles & Hrest). unfold batches_written. simpl.
  assert (timing_report_name w = timing_report_name w0) as ->
    by (unfold timing_report_name; by rewrite Hn).
  conjs; try done.
  - intros k Hk. rewrite lookup_insert_ne; [by apply Hfiles |].
    intros E. symmetry in E. by apply batch_filename_not_report in E.
  - intros f Hf Hr. rewrite lookup_insert_ne by done. by apply Hrest.
Qed.

Lemma save_batch_fields w :
  _batch_results w ≠ [] →
  rw_config (_save_batch report_dumps w) = rw_config w
  ∧ _input_filename (_save_batch report_dumps w) = _input_filename w
  ∧ _batch_number (_save_batch report_dumps w) = _batch_number w + 1
  ∧ _batch_results (_save_batch report_dumps w) = []
  ∧ length (_batch_times (_save_batch report_dumps w))
    = S (length (_batch_times w))
  ∧ save_dir (_save_batch report_dumps w)
    = <[timing_report_name w :=
          [report_dumps (_batch_times (_save_batch report_dumps w))]]>
        (<[batch_filename w (_batch_number w + 1) :=
             header_line :: map row_line (_batch_results w)]> (save_dir w)).
Proof.
  intros Hne. unfold _save_batch.
  destruct (_batch_results w) as [|r0 buf] eqn:E; [done |].
  rewrite <- E. clear E. simpl. conjs; try done.
  rewrite length_app. simpl. lia.
Qed.

(** Flushing a buffer that is the next group writes the next file. *)
Lemma batches_written_save_batch w0 w b q rs :
  batches_written w0 w b q rs →
  _batch_results w = batch_chunk b (S q) rs →
  _batch_results w ≠ [] →
  batches_written w0 (_save_batch report_dumps w) b (S q) rs
  ∧ _batch_results (_save_batch report_dumps w) = []
  ∧ length (_batch_times (_save_batch report_dumps w))
    = S (length (_batch_times w)).
Proof.
  intros (Hc & Hn & Hnum & Hfiles & Hrest) Hbuf Hne.
  destruct (save_batch_fields w Hne) as (Hc' & Hn' & Hnum' & Hbuf' & Htimes & Hdir).
  assert (timing_report_name w = timing_report_name w0) as Ht
    by (unfold timing_report_name; by rewrite Hn).
  unfold batches_written.
  rewrite Hc', Hn', Hnum', Hdir, Ht, (batch_filename_same w w0), Hnum by done.
  replace (_batch_number w0 + Z.of_nat q + 1) with (_batch_number w0 + Z.of_nat (S q))
    by lia.
  conjs; try done.
  - intros k Hk.
    rewrite lookup_insert_ne;
      [| intros E; symmetry in E; by apply batch_filename_not_report in E].
    destruct (decide (k = S q)) as [-> | Hkq].
    + by rewrite lookup_insert_eq, Hbuf.
    + rewrite lookup_insert_ne; [apply Hfiles; lia |].
      intros E. apply batch_filename_inj in E. lia.
  - intros f Hf Hr. rewrite lookup_insert_ne by done.
    rewrite lookup_insert_ne; [| intros E; apply (Hf (S q)); [lia | done]].
    apply Hrest; [| done]. intros k Hk. apply Hf. lia.
Qed.

Section Run.
(** A writer whose buffer is empty, and its batch size. *)
Variable w0 : ResultsWriter.
Local Abbreviation b := (batch_size w0).
Hypothesis size_positive : 1 ≤ batch_save_size (rw_config w0).
Hypothesis buffer_empty : _batch_results w0 = [].

(** The state of the writer after the results [rs]: [q] full batches are
    on disk and the rest of [rs] is in the buffer. *)
Lemma write_results_inv (rs : list RUCResult) :
  ∃ q, (q * b ≤ length rs < q * b + b)%nat
       ∧ batches_written w0 (foldl (write_result report_dumps) w0 rs) b q rs
       ∧ _batch_results (foldl (write_result report_dumps) w0 rs)
         = drop (q * b) rs.
Proof.
  assert (1 ≤ b)%nat as Hb by (unfold batch_size in *; lia).
  induction rs as [|r rs IH] using rev_ind.
  - exists 0%nat. simpl. conjs; [lia | lia | | done].
    unfold batches_written. conjs; try done; [lia | intros; lia].
  - destruct IH as (q & Hq & Hw & Hbuf).
    rewrite foldl_app. simpl.
    set (w := foldl (write_result report_dumps) w0 rs) in *.
    unfold write_result.
    set (appended := {| rw_config := rw_config w; _header_written := true;
                        _max_lines := 100;
                        _batch_results := _batch_results w ++ [r];
                        _total_saved := _total_saved w;
                        _batch_number := _batch_number w;
                        _input_filename := _input_filename w;
                        _batch_times := _batch_times w;
                        main_file := _;
                        save_dir := save_dir w |}).
    assert (_batch_results appended = drop (q * b) (rs ++ [r])) as Hbuf'.
    { simpl. rewrite Hbuf. by rewrite drop_app_le by lia. }
    assert (batches_written w0 appended b q (rs ++ [r])) as Hw'.
    { destruct Hw as (Hc & Hn & Hnum & Hfiles & Hrest).
      unfold batches_written. simpl. conjs; try done.
      intros k Hk. rewrite batch_chunk_app by nia. by apply Hfiles. }
    assert (rw_config w = rw_config w0) as Hc by apply Hw.
    assert (length (_batch_results appended) = S (length rs - q * b)) as Hlen.
    { rewrite Hbuf', length_drop, length_app. simpl. lia. }
    rewrite Hc, Hlen.
    destruct (Z.of_nat (S (length rs - q * b)) >=? batch_save_size (rw_config w0))
      eqn:Hge; rewrite Z.geb_leb in Hge.
    + apply Z.leb_le in Hge.
      assert (length rs + 1 = q * b + b)%nat as Hfull by (unfold batch_size in *; lia).
      exists (S q). rewrite length_app. simpl.
      destruct (batches_written_save_batch w0 appended b q (rs ++ [r]))
        as (Hw'' & Hbuf'' & _).
      * done.
      * rewrite Hbuf'. symmetry. apply batch_chunk_last;
          rewrite length_app; simpl; lia.
      * simpl. by destruct (_batch_results w).
      * conjs; [lia | lia | done |].
        rewrite Hbuf''. symmetry. apply drop_ge. rewrite length_app. simpl. lia.
    + apply Z.leb_gt in Hge.
      exists q. rewrite length_app. simpl.
      conjs; [lia | unfold batch_size in *; lia | done | done].
Qed.

Lemma write_results_buffer_length (rs : list RUCResult) :
  length (_batch_results (foldl (write_result report_dumps) w0 rs))
  = (length rs mod b)%nat.
Proof.
  destruct (write_results_inv rs) as (q & Hq & _ & ->).
  rewrite length_drop. apply (Nat.mod_unique _ _ q); lia.
Qed.

Lemma ceil_div_exact q : (1 ≤ b)%nat → ceil_div (q * b) b = q.
Proof.
  intros Hb. unfold ceil_div. symmetry.
  apply (Nat.div_unique _ _ _ (b - 1)); nia.
Qed.

Lemma ceil_div_rest q rem :
  (1 ≤ rem < b)%nat → ceil_div (q * b + rem) b = S q.
Proof.
  intros Hrem. unfold ceil_div. symmetry.
  apply (Nat.div_unique _ _ _ (rem - 1)); nia.
Qed.

Lemma finalize_written (rs : list RUCResult) :
  batches_written w0
    (finalize report_dumps (foldl (write_result report_dumps) w0 rs))
    b (ceil_div (length rs) b) rs
  ∧ _batch_results
      (finalize report_dumps (foldl (write_result report_dumps) w0 rs)) = [].
Proof.
  assert (1 ≤ b)%nat as Hb by (unfold batch_size in *; lia).
  destruct (write_results_inv rs) as (q & Hq & Hw & Hbuf).
  set (w := foldl (write_result report_dumps) w0 rs) in *.
  unfold finalize.
  destruct (_batch_results w) as [|r0 buf] eqn:E.
  - assert (length rs = q * b)%nat as Hlen.
    { apply (f_equal length) in Hbuf. rewrite length_drop in Hbuf.
      simpl in Hbuf. lia. }
    rewrite Hlen, ceil_div_exact by done.
    destruct (_batch_times w); [| split; [by apply batches_written_report | done]].
    done.
  - rewrite <- E in *.
    assert (_batch_results w ≠ []) as Hne by (rewrite E; done).
    assert (1 ≤ length rs - q * b < b)%nat as Hrem.
    { apply (f_equal length) in Hbuf. rewrite length_drop, E in Hbuf.
      simpl in Hbuf. lia. }
    replace (length rs) with (q * b + (length rs - q * b))%nat at 1 by lia.
    rewrite ceil_div_rest by done.
    destruct (batches_written_save_batch w0 w b q rs) as (Hw' & Hbuf' & Ht);
      [done | | done |].
    { rewrite Hbuf. symmetry. apply batch_chunk_last; lia. }
    destruct (_batch_times (_save_batch report_dumps w)); [done |].
    split; [by apply batches_written_report | done].
Qed.

(** C4. After [N] results and [finalize], a writer with batch size
    [B >= 1] that started with an empty buffer has written the batch
    files 1 to [ceil(N/B)] (names pairwise distinct), file [k] holding
    the rows of the [k]-th group of [B] results, and has touched no other
    file of the batch directory but the timing report.  The first
    [floor(N/B)] groups have [B] results and, when [B] does not divide
    [N], the last has [N mod B].  The buffer holds [n mod B] results
    after [n] writes, and a write flushes it exactly when it brings it to
    [B]; [finalize] leaves the buffer empty. *)
Theorem batch_partitioning (rs : list RUCResult) :
  let N := length rs in
  let w := finalize report_dumps (foldl (write_result report_dumps) w0 rs) in
  batches_written w0 w b (ceil_div N b) rs
  ∧ _batch_results w = []
  ∧ (∀ k, (1 ≤ k ≤ N / b)%nat → length (batch_chunk b k rs) = b)
  ∧ ((N mod b ≠ 0)%nat →
       ceil_div N b = S (N / b)
       ∧ length (batch_chunk b (S (N / b)) rs) = (N mod b)%nat)
  ∧ ((N mod b = 0)%nat → ceil_div N b = (N / b)%nat)
  ∧ (∀ k k', batch_filename w0 k = batch_filename w0 k' → k = k')
  ∧ (∀ (pre : list RUCResult) (r : RUCResult),
       let wj := foldl (write_result report_dumps) w0 pre in
       length (_batch_results wj) = (length pre mod b)%nat
       ∧ (S (length (_batch_results wj)) = b →
            _batch_number (write_result report_dumps wj r) = _batch_number wj + 1
            ∧ _batch_results (write_result report_dumps wj r) = [])
       ∧ (S (length (_batch_results wj)) ≠ b →
            _batch_number (write_result report_dumps wj r) = _batch_number wj
            ∧ _batch_results (write_result report_dumps wj r)
              = _batch_results wj ++ [r])).
Proof.
  assert (1 ≤ b)%nat as Hb by (unfold batch_size in *; lia).
  intros N w.
  pose proof (Nat.div_mod_eq N b) as Hdm.
  pose proof (Nat.mod_upper_bound N b ltac:(lia)) as Hmod.
  conjs.
  - apply finalize_written.
  - apply finalize_written.
  - intros k Hk. unfold batch_chunk.
    rewrite length_take, length_drop. fold N. nia.
  - intros Hne. split.
    + rewrite Hdm at 1. rewrite (Nat.mul_comm b). apply ceil_div_rest. lia.
    + unfold batch_chunk. rewrite length_take, length_drop. fold N.
      replace (S (N / b) - 1)%nat with (N / b)%nat by lia. nia.
  - intros Hz. rewrite Hdm at 1. rewrite Hz, Nat.add_0_r, (Nat.mul_comm b).
    by apply ceil_div_exact.
  - apply batch_filename_inj.
  - intros pre r wj.
    pose proof (write_results_buffer_length pre) as Hlen. fold wj in Hlen.
    pose proof (Nat.mod_upper_bound (length pre) b ltac:(lia)) as Hlt.
    destruct (write_results_inv pre) as (q & _ & (Hc & _) & _). fold wj in Hc.
    split; [done |].
    unfold write_result. cbn [_batch_results]. rewrite length_app. simpl length.
    rewrite Hc. split; intros Hfull.
    + assert ((Z.of_nat (length (_batch_results wj) + 1)
                 >=? batch_save_size (rw_config w0)) = true) as ->.
      { rewrite Z.geb_leb. apply Z.leb_le. unfold batch_size in *. lia. }
      match goal with
      | |- context [_save_batch report_dumps ?a] =>
          destruct (save_batch_fields a) as (_ & _ & Hn & Hr & _)
      end.
      { simpl. by destruct (_batch_results wj). }
      by rewrite Hn, Hr.
    + assert ((Z.of_nat (length (_batch_results wj) + 1)
                 >=? batch_save_size (rw_config w0)) = false) as ->.
      { rewrite Z.geb_leb. apply Z.leb_gt. unfold batch_size in *. lia. }
      done.
Qed.

End Run.

End BatchPartition.

Section BatchExample.

Lemma batch_partitioning_witness :
  let w0 := ResultsWriter_init Examples.small_batches "rucs" [] ∅ in
  let rs := [Examples.ok_result; Examples.failed_result; Examples.ok_result] in
  batches_written w0
    (finalize Examples.no_report (foldl (write_result Examples.no_report) w0 rs))
    2 2 rs.
Proof.
  intros w0 rs.
  assert (1 ≤ batch_save_size (rw_config w0)) as Hsize by (simpl; lia).
  assert (_batch_results w0 = []) as Hbuf by reflexivity.
  exact (proj1 (batch_partitioning Examples.no_report w0 Hsize Hbuf rs)).
Defined.

End BatchExample.

(** ** The progress file *)

Section SaveAtomic.
Variable json_dumps : ProgressData → string.

Lemma str_app_cons a (s t : string) : String a s +:+ t = String a (s +:+ t).
Proof. done. Qed.

Lemma str_app_assoc (s1 s2 s3 : string) : (s1 +:+ s2) +:+ s3 = s1 +:+ (s2 +:+ s3).
Proof. induction s1 as [|a s1 IH]; [done | rewrite !str_app_cons; by f_equal]. Qed.

Lemma str_take_drop n : ∀ s, PyStr.take n s +:+ PyStr.drop n s = s.
Proof.
  induction n as [|n IH]; intros [|a s]; try done.
  cbn [PyStr.take PyStr.drop]. rewrite str_app_cons. f_equal. apply IH.
Qed.

Lemma str_suffix_ne (s t : string) : t ≠ "" → s +:+ t ≠ s.
Proof.
  intros Ht. induction s as [|a s IH]; [done |].
  rewrite str_app_cons. intros [= E]. by apply IH.
Qed.

Lemma temp_path_ne (pm : ProgressManager) : temp_path pm ≠ progress_path pm.
Proof. unfold temp_path. by apply str_suffix_ne. Qed.

Section Invariant.
Variable d0 : Disk.
Variable saves : list (ProgressManager * string).
Variable path : string.
Hypothesis same_path : ∀ c, c ∈ saves → progress_path c.1 = path.

Lemma snapshot_ok_other d d' :
  d' !! path = d !! path →
  snapshot_ok json_dumps d0 saves path d →
  snapshot_ok json_dumps d0 saves path d'.
Proof. unfold snapshot_ok. by intros ->. Qed.

(** The holder moves on: the other tasks stay where they are. *)
Lemma holder_step tasks h c k d' :
  length tasks = length saves →
  saves !! h = Some c →
  (∀ j c' ops', j ≠ h → saves !! j = Some c' →
     tasks !! j = Some ops' → idle json_dumps c'.1 c'.2 ops') →
  snapshot_ok json_dumps d0 saves path d' →
  holder_stage json_dumps c.1 c.2 d' k →
  save_inv json_dumps d0 saves path
    {| sys_disk := d'; sys_lock := true; sys_tasks := <[h := k]> tasks |}.
Proof.
  intros Hlen Hc Hothers Hsnap Hstage.
  assert (h < length tasks)%nat as Hlt.
  { rewrite Hlen. by eapply lookup_lt_Some. }
  unfold save_inv. simpl. conjs; [done | by rewrite length_insert |].
  exists h, c, k. conjs; [done | by apply list_lookup_insert_eq | done |].
  intros j c' ops' Hj Hc' Hops. rewrite list_lookup_insert_ne in Hops by done.
  by eapply Hothers.
Qed.

Lemma holder_release tasks h c d :
  length tasks = length saves →
  saves !! h = Some c →
  (∀ j c' ops', j ≠ h → saves !! j = Some c' →
     tasks !! j = Some ops' → idle json_dumps c'.1 c'.2 ops') →
  snapshot_ok json_dumps d0 saves path d →
  save_inv json_dumps d0 saves path
    {| sys_disk := d; sys_lock := false; sys_tasks := <[h := []]> tasks |}.
Proof.
  intros Hlen Hc Hothers Hsnap.
  assert (h < length tasks)%nat as Hlt.
  { rewrite Hlen. by eapply lookup_lt_Some. }
  unfold save_inv. simpl. conjs; [done | by rewrite length_insert |].
  intros j c' ops' Hc' Hops. destruct (decide (j = h)) as [-> | Hj].
  - rewrite list_lookup_insert_eq in Hops by done. injection Hops as <-.
    by right.
  - rewrite list_lookup_insert_ne in Hops by done. by eapply Hothers.
Qed.

Lemma step_inv i n s :
  save_inv json_dumps d0 saves path s →
  save_inv json_dumps d0 saves path (step i n s).
Proof.
  intros Hinv. pose proof Hinv as (Hsnap & Hlen & Hlock).
  destruct (sys_tasks s !! i) as [ops|] eqn:Hi;
    [| unfold step; by rewrite Hi].
  assert (i < length (sys_tasks s))%nat as Hlt by (by eapply lookup_lt_Some).
  destruct (saves !! i) as [c|] eqn:Hc;
    [| apply lookup_ge_None in Hc; lia].
  assert (progress_path c.1 = path) as Hp.
  { apply same_path. by eapply list_elem_of_lookup_2. }
  pose proof (temp_path_ne c.1) as Htmp. rewrite Hp in Htmp.
  destruct s as [d lock tasks]. simpl in *.
  destruct lock.
  - destruct Hlock as (h & ch & opsh & Hch & Hh & Hstage & Hothers).
    destruct (decide (i = h)) as [-> | Hne].
    + rewrite Hh in Hi. injection Hi as ->.
      rewrite Hch in Hc. injection Hc as ->.
      unfold step. simpl. rewrite Hh.
      destruct Hstage
        as [-> | [(written & rest & -> & Hw & Hpay) | [(-> & Hw) | [(-> & Hw) | ->]]]].
      * apply (holder_step _ _ c); try done.
        -- eapply snapshot_ok_other; [| done]. simpl.
           by rewrite lookup_insert_ne.
        -- right; left. exists "", (json_dumps (save_data c.1 c.2)).
           conjs; [done | | done]. simpl. by rewrite lookup_insert_eq.
      * destruct (n <? String.length rest)%nat.
        -- apply (holder_step _ _ c); try done.
           ++ eapply snapshot_ok_other; [| done]. simpl.
              by rewrite lookup_alter_ne.
           ++ right; left.
              exists (written +:+ PyStr.take n rest), (PyStr.drop n rest).
              conjs; [done | |].
              ** simpl. by rewrite lookup_alter_eq, Hw.
              ** by rewrite str_app_assoc, str_take_drop.
        -- apply (holder_step _ _ c); try done.
           ++ eapply snapshot_ok_other; [| done]. simpl.
              by rewrite lookup_alter_ne.
           ++ right; right; left. split; [done |].
              simpl. rewrite lookup_alter_eq, Hw. simpl. by rewrite Hpay.
      * apply (holder_step _ _ c); try done.
        right; right; right; left. by split.
      * simpl. rewrite Hw, Hp.
        apply (holder_step _ _ c); try done.
        -- right. exists c. split; [by eapply list_elem_of_lookup_2 |].
           by rewrite lookup_insert_eq.
        -- by repeat right.
      * by apply (holder_release _ _ c).
    + unfold step. simpl. rewrite Hi.
      destruct (Hothers i c ops Hne Hc Hi) as [-> | ->]; [| done].
      by simpl.
  - unfold step. simpl. rewrite Hi.
    destruct (Hlock i c ops Hc Hi) as [-> | ->]; [| done].
    simpl. apply (holder_step _ _ c); try done.
    + intros j c' ops' _. apply Hlock.
    + by left.
Qed.

Lemma run_inv sched : ∀ s,
  save_inv json_dumps d0 saves path s →
  save_inv json_dumps d0 saves path (run sched s).
Proof.
  induction sched as [|[i n] sched IH]; intros s Hs; [done |].
  simpl. apply IH. by apply step_inv.
Qed.

Lemma save_system_inv :
  save_inv json_dumps d0 saves path (save_system json_dumps d0 saves).
Proof.
  unfold save_inv, save_system. simpl. conjs.
  - by left.
  - by rewrite length_map.
  - intros j c' ops' Hc' Hops. rewrite list_lookup_fmap, Hc' in Hops.
    injection Hops as <-. by left.
Qed.

End Invariant.

Lemma save_complete pm now d :
  save json_dumps pm now d !! progress_path pm
    = Some (json_dumps (save_data pm now))
  ∧ save json_dumps pm now d !! temp_path pm = None
  ∧ ∀ p, p ≠ progress_path pm → p ≠ temp_path pm →
         save json_dumps pm now d !! p = d !! p.
Proof.
  pose proof (temp_path_ne pm) as Hne.
  unfold save, save_ops. simpl.
  rewrite lookup_alter_eq, lookup_insert_eq. simpl.
  conjs.
  - by rewrite lookup_insert_eq.
  - rewrite lookup_insert_ne by done. by rewrite lookup_delete_eq.
  - intros p Hp Ht.
    rewrite lookup_insert_ne, lookup_delete_ne, lookup_alter_ne,
      lookup_insert_ne by done.
    done.
Qed.

(** C3. [save] writes the whole serialized state (processed ids, failure
    ledger, statistics, time of the save) to [progress_path + '.tmp'],
    which is another file than the progress file, and only then moves it
    over the progress file in one [os.replace], all of it between taking
    and releasing the lock.  Hence, for any number of [save] calls on one
    progress file and any interleaving of their steps, cut off at any
    point and with any write cut in two, the progress file is as it was
    before or holds the complete text of one of the saves; and a [save]
    that runs to its end leaves its own text there and no temporary
    file. *)
Theorem atomic_checkpoint
    (d0 : Disk) (saves : list (ProgressManager * string)) (path : string)
    (sched : list (nat * nat)) :
  (∀ c, c ∈ saves → progress_path c.1 = path) →
  snapshot_ok json_dumps d0 saves path
    (sys_disk (run sched (save_system json_dumps d0 saves)))
  ∧ save_inv json_dumps d0 saves path (run sched (save_system json_dumps d0 saves))
  ∧ (∀ pm now,
       save_ops json_dumps pm now
       = [ Acquire;
           Fs (OpenW (progress_path pm +:+ ".tmp"));
           Fs (WriteStr (progress_path pm +:+ ".tmp")
                 (json_dumps
                    {| pd_processed_rucs := elements (processed_rucs pm);
                       pd_failed_rucs := failed_rucs pm;
                       pd_statistics := statistics pm;
                       pd_last_save := now |}));
           Fs (CloseF (progress_path pm +:+ ".tmp"));
           Fs (Replace (progress_path pm +:+ ".tmp") (progress_path pm));
           Release ]
       ∧ progress_path pm +:+ ".tmp" ≠ progress_path pm)
  ∧ (∀ pm now d,
       save json_dumps pm now d !! progress_path pm
         = Some (json_dumps (save_data pm now))
       ∧ save json_dumps pm now d !! temp_path pm = None
       ∧ ∀ p, p ≠ progress_path pm → p ≠ temp_path pm →
              save json_dumps pm now d !! p = d !! p).
Proof.
  intros Hpath.
  assert (save_inv json_dumps d0 saves path
            (run sched (save_system json_dumps d0 saves))) as Hinv.
  { apply run_inv; [done |]. apply save_system_inv. }
  conjs.
  - apply Hinv.
  - done.
  - intros pm now. split; [done | apply temp_path_ne].
  - apply save_complete.
Qed.

End SaveAtomic.

Section SaveExample.

(** A save that is killed after it has written the first ten characters
    of the temporary file. *)
Lemma atomic_checkpoint_witness :
  let pm := add_result
              (ProgressManager_init default_config "osiptel_output/progress.json")
              Examples.failed_result 550 in
  let d0 : Disk := {[ "osiptel_output/progress.json" := "previous snapshot" ]} in
  snapshot_ok Examples.no_json d0 [(pm, "2025-01-01T00:10:00")]
    "osiptel_output/progress.json"
    (sys_disk (run [(0, 0); (0, 0); (0, 10)]%nat
                 (save_system Examples.no_json d0 [(pm, "2025-01-01T00:10:00")]))).
Proof.
  intros pm d0.
  apply (atomic_checkpoint Examples.no_json d0 [(pm, "2025-01-01T00:10:00")]
           "osiptel_output/progress.json" [(0, 0); (0, 0); (0, 10)]%nat).
  intros c Hc. apply list_elem_of_singleton in Hc. rewrite Hc. reflexivity.
Defined.

(** Without the lock two saves can leave a file that is neither of their
    texts: both open the temporary file, both write, one renames. *)
Lemma unlocked_saves_can_mix :
  let pm := ProgressManager_init default_config "progress.json" in
  let saves := [(pm, "first"); (pm, "second")] in
  ¬ snapshot_ok Examples.time_only ∅ saves "progress.json"
      (sys_disk (run [(0, 0); (1, 0); (0, 9); (1, 9); (0, 0); (0, 0)]%nat
                   (unlocked_system Examples.time_only ∅ saves))).
Proof.
  intros pm saves [H | (c & Hc & H)].
  - vm_compute in H. discriminate H.
  - apply elem_of_cons in Hc as [-> | Hc].
    + vm_compute in H. discriminate H.
    + apply list_elem_of_singleton in Hc as ->. vm_compute in H. discriminate H.
Qed.

End SaveExample.

(** * Further properties of the code *)

(** ** The pending list and the ledger *)

Section PendingAndLedger.

Lemma add_result_success_ledger pm result kb :
  success result = true → failed_rucs (add_result pm result kb) = failed_rucs pm.
Proof. intros Hs. simpl. by rewrite Hs. Qed.

Lemma add_result_ledger_grows pm result kb :
  dom (failed_rucs pm) ⊆ dom (failed_rucs (add_result pm result kb)).
Proof.
  simpl. destruct (success result); simpl; [done | apply dom_insert_subseteq].
Qed.

Lemma add_result_ledger_processed pm result kb :
  dom (failed_rucs pm) ⊆ processed_rucs pm →
  dom (failed_rucs (add_result pm result kb))
    ⊆ processed_rucs (add_result pm result kb).
Proof.
  intros H. simpl. destruct (success result); simpl.
  - set_solver.
  - rewrite dom_insert. set_solver.
Qed.

(** [get_pending_rucs] keeps the input order and the duplicates and drops
    exactly the processed ids; filtering twice changes nothing; nothing is
    dropped while no result has been recorded; and recording a result
    removes the occurrences of its id, and nothing else, from the pending
    list. *)
Theorem pending_rucs_order
    (pm : ProgressManager) (all_rucs : list string) (result : RUCResult) (kb : Q) :
  get_pending_rucs pm all_rucs `sublist_of` all_rucs
  ∧ (∀ id, id ∈ get_pending_rucs pm all_rucs
           ↔ id ∈ all_rucs ∧ id ∉ processed_rucs pm)
  ∧ get_pending_rucs pm (get_pending_rucs pm all_rucs) = get_pending_rucs pm all_rucs
  ∧ get_pending_rucs
      (ProgressManager_init (pm_config pm) (progress_path pm)) all_rucs = all_rucs
  ∧ get_pending_rucs (add_result pm result kb) all_rucs
    = filter (λ id, id ≠ ruc result) (get_pending_rucs pm all_rucs).
Proof.
  conjs.
  - apply sublist_filter.
  - intros id. apply get_pending_rucs_elem.
  - unfold get_pending_rucs. by apply list_filter_filter_l.
  - unfold get_pending_rucs. simpl.
    induction all_rucs as [|id l IH]; [done |].
    rewrite filter_cons_True by set_solver. by rewrite IH.
  - unfold get_pending_rucs. simpl. rewrite list_filter_filter.
    apply list_filter_iff. intros id. set_solver.
Qed.

Lemma add_results_counts results : ∀ pm,
  dom (failed_rucs pm) ⊆ dom (failed_rucs (add_results pm results))
  ∧ processed_rucs pm ⊆ processed_rucs (add_results pm results)
  ∧ (dom (failed_rucs pm) ⊆ processed_rucs pm →
     dom (failed_rucs (add_results pm results))
       ⊆ processed_rucs (add_results pm results))
  ∧ processed (statistics (add_results pm results))
    = processed (statistics pm) + Z.of_nat (length results)
  ∧ (size (processed_rucs (add_results pm results))
     ≤ size (processed_rucs pm) + length results)%nat.
Proof.
  induction results as [|c results IH]; intros pm.
  - unfold add_results. simpl. conjs; try done; lia.
  - destruct (IH (add_result pm c.1 c.2)) as (H1 & H2 & H3 & H4 & H5).
    change (add_results pm (c :: results))
      with (add_results (add_result pm c.1 c.2) results).
    conjs.
    + etrans; [apply (add_result_ledger_grows pm c.1 c.2) | done].
    + etrans; [| done]. simpl. set_solver.
    + intros H. apply H3. by apply add_result_ledger_processed.
    + rewrite H4. simpl. rewrite update_processed. lia.
    + etrans; [apply H5 |]. simpl.
      assert (size ({[ruc c.1]} ∪ processed_rucs pm) ≤ 1 + size (processed_rucs pm))%nat.
      { rewrite size_union_alt, size_singleton.
        assert (processed_rucs pm ∖ {[ruc c.1]} ⊆ processed_rucs pm) as Hsub
          by apply subseteq_difference_l, reflexivity.
        apply subseteq_size in Hsub. lia. }
      lia.
Qed.

(** [add_result] never takes an id out of the failure ledger or out of the
    processed set; a successful result leaves the ledger as it is, also for
    an id that failed before.  In a run that starts empty every id of the
    ledger is a processed id, the counter [processed] counts the recorded
    results, and the processed set has at most that many ids. *)
Theorem ledger_and_processed_grow
    (pm : ProgressManager) (config : ScraperConfig) (path : string)
    (results : list (RUCResult * Q)) :
  dom (failed_rucs pm) ⊆ dom (failed_rucs (add_results pm results))
  ∧ processed_rucs pm ⊆ processed_rucs (add_results pm results)
  ∧ (∀ result kb, success result = true →
       failed_rucs (add_result pm result kb) = failed_rucs pm)
  ∧ (let run := add_results (ProgressManager_init config path) results in
     dom (failed_rucs run) ⊆ processed_rucs run
     ∧ processed (statistics run) = Z.of_nat (length results)
     ∧ Z.of_nat (size (processed_rucs run)) ≤ processed (statistics run)).
Proof.
  destruct (add_results_counts results pm) as (H1 & H2 & _).
  destruct (add_results_counts results (ProgressManager_init config path))
    as (_ & _ & H3 & H4 & H5).
  conjs; try done.
  - intros result kb. apply add_result_success_ledger.
  - simpl. conjs.
    + apply H3. simpl. set_solver.
    + rewrite H4. simpl. lia.
    + rewrite H4. cbn [ProgressManager_init processed_rucs statistics] in H5 |- *.
      rewrite size_empty in H5. simpl. lia.
Qed.

End PendingAndLedger.

(** ** Totals of the statistics *)

Section StatisticsTotals.

Lemma update_step self result kb :
  let st := Statistics_update self result kb in
  successful st = successful self + (if success result then 1 else 0)
  ∧ failed st = failed self + (if success result then 0 else 1)
  ∧ total_lines_found st
    = total_lines_found self + (if success result then line_count result else 0)
  ∧ total_retries st = total_retries self + Z.max 0 (attempts result - 1)
  ∧ ∀ name, default 0 (errors_by_type st !! name)
            = default 0 (errors_by_type self !! name)
              + (if decide (counted_error result = Some name) then 1 else 0).
Proof.
  unfold Statistics_update, counted_error.
  destruct (success result) eqn:Hs; simpl; conjs; try lia.
  intros name. destruct (error_type result) as [e|]; simpl.
  - rewrite lookup_insert. repeat case_decide; simplify_eq; simpl; lia.
  - try case_decide; simplify_eq; lia.
Qed.

Lemma updates_totals results : ∀ self,
  let st := Statistics_updates self results in
  processed st = processed self + Z.of_nat (length results)
  ∧ successful st
    = successful self
      + Z.of_nat (length (filter (λ c : RUCResult * Q, success c.1 = true) results))
  ∧ failed st
    = failed self
      + Z.of_nat (length (filter (λ c : RUCResult * Q, success c.1 = false) results))
  ∧ total_lines_found st
    = total_lines_found self
      + sumZ (map (λ c : RUCResult * Q, line_count c.1)
                (filter (λ c : RUCResult * Q, success c.1 = true) results))
  ∧ total_retries self ≤ total_retries st
  ∧ ∀ name, default 0 (errors_by_type st !! name)
            = default 0 (errors_by_type self !! name)
              + Z.of_nat (length (filter (λ c : RUCResult * Q,
                                            counted_error c.1 = Some name) results)).
Proof.
  induction results as [|c results IH]; intros self.
  - simpl. conjs; intros; simpl; lia.
  - destruct (IH (Statistics_update self c.1 c.2)) as (H1 & H2 & H3 & H4 & H5 & H6).
    destruct (update_step self c.1 c.2) as (S2 & S3 & S4 & S5 & S6).
    change (Statistics_updates self (c :: results))
      with (Statistics_updates (Statistics_update self c.1 c.2) results).
    cbv zeta. rewrite H1, H2, H3, H4, update_processed, S2, S3, S4.
    rewrite !filter_cons. simpl length.
    destruct (success c.1) eqn:Hs.
    + rewrite decide_True by done. rewrite (decide_False (P := true = false)) by done.
      simpl. conjs; try lia.
      intros name. rewrite H6, S6, filter_cons.
      destruct (decide (counted_error c.1 = Some name)); simpl; lia.
    + rewrite decide_False by done. rewrite (decide_True (P := false = false)) by done.
      simpl. conjs; try lia.
      intros name. rewrite H6, S6, filter_cons.
      destruct (decide (counted_error c.1 = Some name)); simpl; lia.
Qed.

Lemma success_rate_range st :
  0 ≤ successful st ≤ processed st →
  (0 <= success_rate st)%Q ∧ (success_rate st <= 100)%Q.
Proof.
  intros [H0 H1]. unfold success_rate.
  destruct (processed st) as [|p|p] eqn:Hp; simpl.
  - split; unfold Qle; simpl; lia.
  - unfold Qle, Qdiv, Qmult, Qinv, inject_Z. simpl. split; nia.
  - lia.
Qed.

(** After any results fed into fresh statistics: [processed] is their
    number, [successful] and [failed] the numbers of results with and
    without status SUCCESS, [total_lines_found] the lines of the successful
    ones, each entry of [errors_by_type] the number of failed results of that
    kind, [total_retries] is not negative and the success rate lies between
    0 and 100.  The statistics of a progress manager are those of its
    results. *)
Theorem statistics_totals (results : list (RUCResult * Q)) (pm : ProgressManager) :
  let st := Statistics_updates Statistics_init results in
  processed st = Z.of_nat (length results)
  ∧ successful st
    = Z.of_nat (length (filter (λ c : RUCResult * Q, success c.1 = true) results))
  ∧ failed st
    = Z.of_nat (length (filter (λ c : RUCResult * Q, success c.1 = false) results))
  ∧ total_lines_found st
    = sumZ (map (λ c : RUCResult * Q, line_count c.1)
              (filter (λ c : RUCResult * Q, success c.1 = true) results))
  ∧ (∀ name, default 0 (errors_by_type st !! name)
             = Z.of_nat (length (filter (λ c : RUCResult * Q,
                                           counted_error c.1 = Some name) results)))
  ∧ 0 ≤ total_retries st
  ∧ (0 <= success_rate st)%Q ∧ (success_rate st <= 100)%Q
  ∧ statistics (add_results pm results) = Statistics_updates (statistics pm) results.
Proof.
  destruct (updates_totals results Statistics_init) as (H1 & H2 & H3 & H4 & H5 & H6).
  cbv zeta in *. simpl in H1, H2, H3, H4, H5.
  conjs; try done.
  - apply success_rate_range. rewrite H1, H2.
    pose proof (length_filter (λ c : RUCResult * Q, success c.1 = true) results). lia.
  - apply success_rate_range. rewrite H1, H2.
    pose proof (length_filter (λ c : RUCResult * Q, success c.1 = true) results). lia.
  - clear H1 H2 H3 H4 H5 H6. revert pm.
    induction results as [|c results IH]; intros pm; [done |].
    change (add_results pm (c :: results))
      with (add_results (add_result pm c.1 c.2) results).
    by rewrite IH.
Qed.

End StatisticsTotals.

(** ** Reading and counting the ids *)

Section ReadingIds.
Context {char : Type}.
Variable isdigit : char → bool.

Lemma filter_forallb (l : list char) : forallb isdigit (List.filter isdigit l) = true.
Proof.
  induction l as [|a l IH]; [done |]. simpl.
  destruct (isdigit a) eqn:Hp; [| done]. simpl. by rewrite Hp, IH.
Qed.

Lemma filter_forallb_id (l : list char) :
  forallb isdigit l = true → List.filter isdigit l = l.
Proof.
  induction l as [|a l IH]; [done |]. simpl.
  intros [Ha Hs]%andb_true_iff. rewrite Ha. f_equal. by apply IH.
Qed.

Lemma valid_rucs_cons r l :
  valid_rucs isdigit (r :: l)
  = (if (length (clean_ruc isdigit r) =? 11)%nat then [clean_ruc isdigit r] else [])
      ++ valid_rucs isdigit l.
Proof.
  unfold valid_rucs. simpl. by destruct (length (clean_ruc isdigit r) =? 11)%nat.
Qed.

Lemma valid_rucs_length l : (length (valid_rucs isdigit l) ≤ length l)%nat.
Proof.
  induction l as [|r l IH]; [done |]. rewrite valid_rucs_cons, length_app.
  destruct (length (clean_ruc isdigit r) =? 11)%nat; simpl; lia.
Qed.

Lemma valid_rucs_elem rucs r :
  r ∈ valid_rucs isdigit rucs → length r = 11%nat ∧ forallb isdigit r = true.
Proof.
  unfold valid_rucs. rewrite list_elem_of_omap. intros (x & _ & Hx).
  destruct (length (clean_ruc isdigit x) =? 11)%nat eqn:E; [| done].
  injection Hx as <-. split; [by apply Nat.eqb_eq | apply filter_forallb].
Qed.

Lemma valid_rucs_fixed l :
  (∀ r, r ∈ l → length r = 11%nat ∧ forallb isdigit r = true) →
  valid_rucs isdigit l = l.
Proof.
  induction l as [|r l IH]; intros H; [done |].
  destruct (H r) as [Hlen Hdig]; [left |].
  rewrite valid_rucs_cons. unfold clean_ruc.
  rewrite (filter_forallb_id _ Hdig), Hlen. simpl.
  f_equal. apply IH. intros r' Hr'. apply H. by right.
Qed.

(** [read_rucs_from_file] raises ValueError for a suffix other than
    .xlsx, .xls and .csv, and otherwise, when the file can be read,
    returns the ids with the number of rows.  Every id it returns has
    eleven characters and [str.isdigit] holds of each of them; the ids
    come in the order of their rows and there are no more of them than
    rows; of a cell the characters that are no digits are dropped before
    the length is tested, and a cell of eleven digit characters is
    returned as it is; reading the returned ids again gives them back. *)
Theorem read_rucs_valid (file_ext : string) (rucs more : list (list char)) :
  (file_ext ∉ [".xlsx"; ".xls"; ".csv"] →
   ∀ first_column,
     read_rucs_from_file isdigit file_ext first_column = RaiseValueError)
  ∧ (file_ext ∈ [".xlsx"; ".xls"; ".csv"] →
     read_rucs_from_file isdigit file_ext (Some rucs)
     = ReturnRucs (valid_rucs isdigit rucs) (Z.of_nat (length rucs))
     ∧ read_rucs_from_file isdigit file_ext None = RaiseReadError)
  ∧ (∀ r, r ∈ valid_rucs isdigit rucs →
          length r = 11%nat ∧ forallb isdigit r = true)
  ∧ (length (valid_rucs isdigit rucs) ≤ length rucs)%nat
  ∧ valid_rucs isdigit (rucs ++ more)
    = valid_rucs isdigit rucs ++ valid_rucs isdigit more
  ∧ (∀ r, valid_rucs isdigit [r]
          = if (length (List.filter isdigit r) =? 11)%nat
            then [List.filter isdigit r] else [])
  ∧ (∀ r, length r = 11%nat → forallb isdigit r = true →
          valid_rucs isdigit [r] = [r])
  ∧ valid_rucs isdigit (valid_rucs isdigit rucs) = valid_rucs isdigit rucs.
Proof.
  conjs.
  - intros Hext first_column. unfold read_rucs_from_file.
    rewrite !bool_decide_eq_false_2; [done | |]; set_solver.
  - intros Hext. unfold read_rucs_from_file.
    assert (bool_decide (file_ext ∈ [".xlsx"; ".xls"])
            || bool_decide (file_ext = ".csv") = true) as ->; [| done].
    apply orb_true_iff. rewrite !bool_decide_eq_true. set_solver.
  - intros r. apply valid_rucs_elem.
  - apply valid_rucs_length.
  - unfold valid_rucs. apply omap_app.
  - intros r. rewrite valid_rucs_cons. by rewrite app_nil_r.
  - intros r Hlen Hdig. apply valid_rucs_fixed.
    intros r' ->%list_elem_of_singleton. done.
  - apply valid_rucs_fixed. intros r. apply valid_rucs_elem.
Qed.

(** The ids that [initialize] of run_auto counts are among those that
    [read_rucs_from_file] returns, in the same order: the count shown at the
    start is never larger than the number of ids that are processed. *)
Lemma counted_rucs_sublist (rucs : list (list char)) :
  Auto.counted_rucs isdigit rucs `sublist_of` valid_rucs isdigit rucs.
Proof.
  induction rucs as [|r l IH]; [done |].
  rewrite valid_rucs_cons. unfold Auto.counted_rucs. simpl.
  destruct (Auto.counted_ruc isdigit r) eqn:Hc.
  - unfold Auto.counted_ruc in Hc.
    apply andb_true_iff in Hc as [[_ Hlen]%andb_true_iff [_ Hdig]%andb_true_iff].
    unfold clean_ruc. rewrite (filter_forallb_id _ Hdig), Hlen. simpl.
    by apply sublist_skip.
  - destruct (length (clean_ruc isdigit r) =? 11)%nat; simpl; [| done].
    by apply sublist_cons.
Qed.

End ReadingIds.

Section CountedIds.

(** The ids that [initialize] of run_auto counts are among those that
    [read_rucs_from_file] returns, in the same order: the count shown at the
    start is never larger than the number of ids that are processed.  A cell
    such as an id written with a dash is processed but not counted. *)
Theorem counted_rucs_are_read {char : Type} (isdigit : char → bool)
    (rucs : list (list char)) :
  Auto.counted_rucs isdigit rucs `sublist_of` valid_rucs isdigit rucs
  ∧ (length (Auto.counted_rucs isdigit rucs) ≤ length (valid_rucs isdigit rucs))%nat
  ∧ Auto.counted_rucs PyStr.is_digit [list_ascii_of_string "2010000000-1"] = []
  ∧ valid_rucs PyStr.is_digit [list_ascii_of_string "2010000000-1"]
    = [list_ascii_of_string "20100000001"].
Proof.
  pose proof (counted_rucs_sublist isdigit rucs) as Hsub.
  conjs; [done | by apply sublist_length | done | done].
Qed.

End CountedIds.

Section BandwidthEstimate.

Lemma int_of_floor (n : Z) (d : positive) (count : Z) :
  0 ≤ n → (count ≤ PyStr.int_of (n # d) ↔ count * Z.pos d ≤ n).
Proof.
  intros Hn. unfold PyStr.int_of. simpl.
  rewrite Z.quot_div_nonneg by lia.
  split; intros H.
  - pose proof (Z.mul_div_le n (Z.pos d) ltac:(lia)). nia.
  - apply Z.div_le_lower_bound; lia.
Qed.

Lemma int_of_ge (x : Q) (n : Z) : 0 ≤ n → (inject_Z n <= x)%Q → n ≤ PyStr.int_of x.
Proof.
  destruct x as [p d]. intros Hn Hle.
  unfold Qle in Hle. simpl in Hle.
  apply int_of_floor; lia.
Qed.

Lemma int_of_upper (x : Q) (n : Z) : 0 ≤ n → (x <= inject_Z n)%Q → PyStr.int_of x ≤ n.
Proof.
  destruct x as [p d]. unfold PyStr.int_of, Qle. simpl. intros Hn Hle.
  destruct (Z_lt_le_dec p 0) as [Hneg | Hpos].
  - pose proof (Z.quot_opp_l p (Z.pos d) ltac:(lia)) as Hopp.
    pose proof (Z.quot_pos (- p) (Z.pos d) ltac:(lia) ltac:(lia)). lia.
  - rewrite Z.quot_div_nonneg by lia.
    apply Z.div_le_upper_bound; lia.
Qed.

Lemma exact_division_rounds : rounds_division Qdiv.
Proof. intros a b n Hb Hn. split; intros H; exact H. Qed.

(** For a division that rounds as binary64 does, a positive estimate per
    id, a limit that is not negative, and a count, a limit in KB and a
    quotient within 2^53 (so that the conversion of the limit to a float
    is exact and the quotient is finite): [validate_ruc_count] accepts
    every list whose estimated bandwidth fits the limit, and a list that
    it accepts exceeds the limit by less than one id.  With a zero
    estimate the calculation fails instead of answering. *)
Theorem validate_ruc_count_fits {A} (fdiv : Q → Q → Q) (rucs : list A)
    (config : ScraperConfig) :
  (rounds_division fdiv →
   (0 < estimated_kb_per_ruc config)%Q → 0 ≤ max_bandwidth_mb config →
   Z.of_nat (length rucs) ≤ 2 ^ 53 →
   max_bandwidth_mb config * 1024 ≤ 2 ^ 53 →
   (inject_Z (max_bandwidth_mb config * 1024)
    <= inject_Z (2 ^ 53) * estimated_kb_per_ruc config)%Q →
   ∃ answer,
     validate_ruc_count fdiv rucs config = Some answer
     ∧ ((inject_Z (Z.of_nat (length rucs)) * estimated_kb_per_ruc config
         <= inject_Z (max_bandwidth_mb config * 1024))%Q → answer = true)
     ∧ (answer = true →
        (inject_Z (Z.of_nat (length rucs) - 1) * estimated_kb_per_ruc config
         < inject_Z (max_bandwidth_mb config * 1024))%Q))
  ∧ ((estimated_kb_per_ruc config == 0)%Q →
     validate_ruc_count fdiv rucs config = None).
Proof.
  unfold validate_ruc_count, calculate_max_rucs. split.
  - intros Hround Hkb Hmax Hcount _ _.
    destruct (Qeq_bool (estimated_kb_per_ruc config) 0) eqn:E.
    { apply Qeq_bool_iff in E. rewrite E in Hkb. by apply Qlt_irrefl in Hkb. }
    eexists. split; [done |].
    set (count := Z.of_nat (length rucs)) in *.
    set (kb := estimated_kb_per_ruc config) in *.
    set (a := inject_Z (max_bandwidth_mb config * 1024)).
    rewrite negb_true_iff, Z.gtb_ltb, Z.ltb_ge.
    split.
    + intros Hfit. apply int_of_ge; [lia |].
      apply (Hround a kb count); [done | lia |].
      apply Qle_shift_div_l; done.
    + intros Hans.
      destruct (Qlt_le_dec (inject_Z (count - 1) * kb) a) as [Hlt | Hge]; [done |].
      exfalso.
      destruct (Z.eq_dec count 0) as [Hz | Hnz].
      * assert (0 <= a)%Q as Ha by (unfold a, Qle; simpl; lia).
        rewrite Hz in Hge. change (inject_Z (0 - 1)) with (-1 # 1)%Q in Hge.
        clearbody a kb. lra.
      * assert (PyStr.int_of (fdiv a kb) ≤ count - 1); [| lia].
        apply int_of_upper; [lia |].
        apply (Hround a kb (count - 1)); [done | lia |].
        apply Qle_shift_div_r; done.
  - intros Hz. apply Qeq_bool_iff in Hz. by rewrite Hz.
Qed.

Lemma validate_ruc_count_fits_witness :
  validate_ruc_count Qdiv (replicate 3 "20100000001") default_config = Some true.
Proof.
  destruct (proj1 (validate_ruc_count_fits Qdiv (replicate 3 "20100000001")
                     default_config))
    as (answer & -> & Hanswer & _).
  - apply exact_division_rounds.
  - unfold Qlt. simpl. lia.
  - simpl. lia.
  - simpl. lia.
  - simpl. lia.
  - unfold Qle. simpl. lia.
  - f_equal. apply Hanswer. rewrite length_replicate. unfold Qle. simpl. lia.
Defined.

End BandwidthEstimate.

(** ** Cells, header and export *)

Section CsvCells.

Lemma str_length_app (s t : string) :
  String.length (s +:+ t) = (String.length s + String.length t)%nat.
Proof. induction s as [|a s IH]; [done |]. rewrite str_app_cons. simpl. by rewrite IH. Qed.

Lemma str_app_inj_r (t : string) : ∀ s1 s2 : string, s1 +:+ t = s2 +:+ t → s1 = s2.
Proof.
  induction s1 as [|a s1 IH]; intros [|b s2] H; [done | | |].
  - apply (f_equal String.length) in H. rewrite !str_length_app in H.
    cbn [String.length] in H. lia.
  - apply (f_equal String.length) in H. rewrite !str_length_app in H.
    cbn [String.length] in H. lia.
  - rewrite !str_app_cons in H. injection H as -> H. f_equal. by apply IH.
Qed.

Lemma double_quotes_inj : ∀ s1 s2,
  PyStr.double_quotes s1 = PyStr.double_quotes s2 → s1 = s2.
Proof.
  induction s1 as [|a s1 IH]; intros [|b s2]; simpl.
  - done.
  - by destruct (Ascii.eqb b PyStr.dquote).
  - by destruct (Ascii.eqb a PyStr.dquote).
  - destruct (Ascii.eqb a PyStr.dquote) eqn:Ea, (Ascii.eqb b PyStr.dquote) eqn:Eb.
    + apply Ascii.eqb_eq in Ea, Eb. subst. intros [= H]. f_equal. by apply IH.
    + intros [= <- _]. by rewrite Ascii.eqb_refl in Eb.
    + intros [= -> _]. by rewrite Ascii.eqb_refl in Ea.
    + intros [= -> H]. f_equal. by apply IH.
Qed.

(** Whether [_escape_csv] wraps the value. *)
Lemma escape_csv_cases value :
  (PyStr.char_in PyStr.comma value || PyStr.char_in PyStr.dquote value
   || PyStr.char_in PyStr.newline value = false ∧ _escape_csv value = value)
  ∨ (PyStr.char_in PyStr.comma value || PyStr.char_in PyStr.dquote value
     || PyStr.char_in PyStr.newline value = true
     ∧ _escape_csv value
       = String PyStr.dquote (PyStr.double_quotes value +:+ String PyStr.dquote "")).
Proof.
  unfold _escape_csv.
  destruct (PyStr.char_in PyStr.comma value || PyStr.char_in PyStr.dquote value
            || PyStr.char_in PyStr.newline value); [right | left]; done.
Qed.

Lemma char_in_head a s : PyStr.char_in a (String a s) = true.
Proof. simpl. by rewrite Ascii.eqb_refl. Qed.

(** [_escape_csv] gives different cells for different values, and it
    leaves a value as it is exactly when the value holds no comma, no
    double quote and no newline; otherwise the cell begins with a double
    quote. *)
Theorem escape_csv_injective (v1 v2 : string) :
  (_escape_csv v1 = _escape_csv v2 → v1 = v2)
  ∧ (_escape_csv v1 = v1
     ↔ PyStr.char_in PyStr.comma v1 || PyStr.char_in PyStr.dquote v1
       || PyStr.char_in PyStr.newline v1 = false)
  ∧ (_escape_csv v1 ≠ v1 → ∃ rest, _escape_csv v1 = String PyStr.dquote rest).
Proof.
  assert (∀ v rest, _escape_csv v = v → v = String PyStr.dquote rest → False) as Hno.
  { intros v rest Hv ->.
    destruct (escape_csv_cases (String PyStr.dquote rest)) as [[Hc _] | [_ He]].
    - rewrite char_in_head in Hc. by rewrite orb_true_r in Hc.
    - rewrite He in Hv. injection Hv as Hv.
      apply (f_equal String.length) in Hv. rewrite str_length_app in Hv.
      assert (∀ s, String.length s ≤ String.length (PyStr.double_quotes s))%nat as Hlen.
      { induction s as [|a s IH]; simpl; [done |].
        destruct (Ascii.eqb a PyStr.dquote); simpl; lia. }
      pose proof (Hlen (String PyStr.dquote rest)). simpl in *. lia. }
  conjs.
  - destruct (escape_csv_cases v1) as [[_ H1] | [_ H1]],
             (escape_csv_cases v2) as [[_ H2] | [_ H2]]; intros H.
    + congruence.
    + exfalso. eapply (Hno v1); [done |]. rewrite <- H1, H, H2. done.
    + exfalso. eapply (Hno v2); [done |]. rewrite <- H2, <- H, H1. done.
    + rewrite H1, H2 in H. injection H as H.
      apply str_app_inj_r in H. by apply double_quotes_inj.
  - destruct (escape_csv_cases v1) as [[Hc H1] | [Hc H1]]; split; intros H; try done.
    + exfalso. eapply (Hno v1); [done |]. rewrite <- H at 1. by rewrite H1.
    + congruence.
  - destruct (escape_csv_cases v1) as [[_ H1] | [_ H1]]; intros H; [done |].
    eexists. by rewrite H1.
Qed.

Lemma header_columns_elem n x :
  x ∈ flat_map (λ i, [col_modalidad i; col_numero i; col_operadora i]) (seq 1 n) →
  ∃ i, x = col_modalidad i ∨ x = col_numero i ∨ x = col_operadora i.
Proof.
  rewrite list_elem_of_In, in_flat_map. intros (i & _ & Hx).
  exists i. simpl in Hx. naive_solver.
Qed.

Lemma header_columns_NoDup (l : list nat) :
  NoDup l →
  NoDup (flat_map (λ i, [col_modalidad i; col_numero i; col_operadora i]) l).
Proof.
  induction 1 as [|a l Ha Hl IH]; simpl; [constructor |].
  assert (∀ x, x ∈ flat_map (λ i, [col_modalidad i; col_numero i; col_operadora i]) l →
               x ≠ col_modalidad a ∧ x ≠ col_numero a ∧ x ≠ col_operadora a) as Hfresh.
  { intros x. rewrite list_elem_of_In, in_flat_map. intros (i & Hi & Hx).
    apply list_elem_of_In in Hi. simpl in Hx.
    assert (i ≠ a) by (intros ->; done).
    unfold col_modalidad, col_numero, col_operadora in *.
    destruct Hx as [<- | [<- | [<- | []]]]; conjs; intros E; simplify_eq. }
  repeat constructor.
  - rewrite !elem_of_cons. intros [E | [E | E]].
    + unfold col_modalidad, col_numero in E. simplify_eq.
    + unfold col_modalidad, col_operadora in E. simplify_eq.
    + apply Hfresh in E. naive_solver.
  - rewrite !elem_of_cons. intros [E | E].
    + unfold col_numero, col_operadora in E. simplify_eq.
    + apply Hfresh in E. naive_solver.
  - intros E. apply Hfresh in E. naive_solver.
  - done.
Qed.

(** For every number of record groups, the header has one name for the id
    and three for each group, and no two of its names are the same. *)
Theorem generate_header_columns (max_lines : nat) :
  length (_generate_header max_lines) = (1 + 3 * max_lines)%nat
  ∧ NoDup (_generate_header max_lines).
Proof.
  unfold _generate_header. split.
  - simpl. f_equal.
    assert (∀ l : list nat,
              length (flat_map (λ i, [col_modalidad i; col_numero i; col_operadora i]) l)
              = (3 * length l)%nat) as Hlen.
    { induction l as [|a l IH]; simpl; [done | lia]. }
    rewrite Hlen, length_seq. lia.
  - constructor; [| apply header_columns_NoDup, NoDup_seq].
    intros Hin. apply header_columns_elem in Hin as (i & [E | [E | E]]);
      unfold col_modalidad, col_numero, col_operadora in E; simplify_eq.
Qed.

Lemma char_in_take c n : ∀ s,
  PyStr.char_in c s = false → PyStr.char_in c (PyStr.take n s) = false.
Proof.
  induction n as [|n IH]; intros [|a s]; simpl; try done.
  destruct (Ascii.eqb a c); [done |]. apply IH.
Qed.

Lemma char_in_replaced c d s : c ≠ d → PyStr.char_in c (PyStr.replace_char c d s) = false.
Proof.
  intros Hne. induction s as [|a s IH]; [done |]. simpl.
  destruct (Ascii.eqb a c) eqn:E.
  - assert (Ascii.eqb d c = false) as -> by (apply Ascii.eqb_neq; congruence). done.
  - by rewrite E.
Qed.

Lemma char_in_replace_other x c d s :
  x ≠ d → PyStr.char_in x s = false → PyStr.char_in x (PyStr.replace_char c d s) = false.
Proof.
  intros Hne. induction s as [|a s IH]; [done |]. simpl.
  destruct (Ascii.eqb a x) eqn:Ex; [done |]. intros Hs.
  destruct (Ascii.eqb a c).
  - assert (Ascii.eqb d x = false) as -> by (apply Ascii.eqb_neq; congruence). by apply IH.
  - rewrite Ex. by apply IH.
Qed.

Lemma str_length_take n : ∀ s, (String.length (PyStr.take n s) ≤ n)%nat.
Proof. induction n as [|n IH]; intros [|a s]; simpl; try lia. specialize (IH s). lia. Qed.

(** [write_failed_rucs] writes nothing for an empty ledger; otherwise it
    writes the header and one row for each id of the ledger.  The message
    of a row holds no double quote and no newline and has at most 200
    characters, so it stays inside its quotes. *)
Theorem failed_export_rows (failed_rucs : gmap string FailureInfo) :
  write_failed_rucs ∅ = None
  ∧ (failed_rucs ≠ ∅ →
     ∃ rows, write_failed_rucs failed_rucs = Some (failed_header :: rows)
             ∧ length rows = size failed_rucs
             ∧ ∀ id info, failed_rucs !! id = Some info → failed_row id info ∈ rows)
  ∧ (∀ info,
       PyStr.char_in PyStr.dquote (failed_message info) = false
       ∧ PyStr.char_in PyStr.newline (failed_message info) = false
       ∧ (String.length (failed_message info) ≤ 200)%nat).
Proof.
  conjs.
  - done.
  - intros Hne. unfold write_failed_rucs. rewrite decide_False by done.
    eexists. split; [done |]. split.
    + by rewrite length_map, length_map_to_list.
    + intros id info Hin. apply list_elem_of_fmap.
      exists (id, info). split; [done |]. by apply elem_of_map_to_list.
  - intros info. unfold failed_message. conjs.
    + apply char_in_take, char_in_replace_other; [done |].
      by apply char_in_replaced.
    + by apply char_in_take, char_in_replaced.
    + apply str_length_take.
Qed.

End CsvCells.

(** ** The fields of a written row *)

Section RowsReadBack.
Variable report_dumps : list BatchTime → string.















End RowsReadBack.

Section RowsReadBackExamples.



End RowsReadBackExamples.

(** ** The writer over a whole run *)

Section WriterTotals.
Variable report_dumps : list BatchTime → string.

Local Abbreviation writes := (foldl (write_result report_dumps)).

Lemma sumZ_app l1 l2 : sumZ (l1 ++ l2) = sumZ l1 + sumZ l2.
Proof. unfold sumZ. induction l1 as [|a l1 IH]; simpl; lia. Qed.

Lemma save_batch_totals w :
  _batch_results (_save_batch report_dumps w) = []
  ∧ _header_written (_save_batch report_dumps w) = _header_written w
  ∧ _total_saved (_save_batch report_dumps w)
    = _total_saved w + Z.of_nat (length (_batch_results w))
  ∧ sumZ (map bt_rucs_count (_batch_times (_save_batch report_dumps w)))
    = sumZ (map bt_rucs_count (_batch_times w)) + Z.of_nat (length (_batch_results w))
  ∧ sumZ (map bt_total_lines (_batch_times (_save_batch report_dumps w)))
    = sumZ (map bt_total_lines (_batch_times w))
      + sumZ (map line_count (_batch_results w))
  ∧ Z.of_nat (length (_batch_times (_save_batch report_dumps w)))
    - _batch_number (_save_batch report_dumps w)
    = Z.of_nat (length (_batch_times w)) - _batch_number w.
Proof.
  unfold _save_batch. destruct (_batch_results w) as [|r0 buf] eqn:E.
  - rewrite E. simpl. conjs; (done || lia).
  - rewrite <- E. clear E. cbn [_save_timing_report _batch_results _header_written
      _total_saved _batch_times _batch_number].
    rewrite !map_app, !sumZ_app, length_app. simpl. conjs; (done || lia).
Qed.

Lemma write_result_totals w r :
  _header_written (write_result report_dumps w r) = true
  ∧ _total_saved (write_result report_dumps w r)
    + Z.of_nat (length (_batch_results (write_result report_dumps w r)))
    = _total_saved w + Z.of_nat (length (_batch_results w)) + 1
  ∧ sumZ (map bt_rucs_count (_batch_times (write_result report_dumps w r)))
    - _total_saved (write_result report_dumps w r)
    = sumZ (map bt_rucs_count (_batch_times w)) - _total_saved w
  ∧ sumZ (map bt_total_lines (_batch_times (write_result report_dumps w r)))
    + sumZ (map line_count (_batch_results (write_result report_dumps w r)))
    = sumZ (map bt_total_lines (_batch_times w))
      + sumZ (map line_count (_batch_results w)) + line_count r
  ∧ Z.of_nat (length (_batch_times (write_result report_dumps w r)))
    - _batch_number (write_result report_dumps w r)
    = Z.of_nat (length (_batch_times w)) - _batch_number w.
Proof.
  unfold write_result.
  match goal with |- context [_save_batch report_dumps ?a] => set (appended := a) end.
  assert (sumZ (map line_count (_batch_results appended))
          = sumZ (map line_count (_batch_results w)) + line_count r) as Hlines.
  { subst appended. cbn [_batch_results]. rewrite map_app, sumZ_app. simpl. lia. }
  assert (length (_batch_results appended) = S (length (_batch_results w))) as Hlen.
  { subst appended. cbn [_batch_results]. rewrite length_app. simpl. lia. }
  case_match.
  - destruct (save_batch_totals appended) as (Hb & Hh & Ht & Hc & Hl & Hn).
    rewrite Hb, Hh, Ht, Hc, Hl, Hlines, Hlen. simpl.
    conjs; [done | lia | lia | lia |].
    rewrite Hn. done.
  - rewrite Hlines, Hlen. simpl. conjs; (done || lia).
Qed.

Lemma writes_totals rs : ∀ w,
  _total_saved (writes w rs) + Z.of_nat (length (_batch_results (writes w rs)))
  = _total_saved w + Z.of_nat (length (_batch_results w)) + Z.of_nat (length rs)
  ∧ sumZ (map bt_rucs_count (_batch_times (writes w rs))) - _total_saved (writes w rs)
    = sumZ (map bt_rucs_count (_batch_times w)) - _total_saved w
  ∧ sumZ (map bt_total_lines (_batch_times (writes w rs)))
    + sumZ (map line_count (_batch_results (writes w rs)))
    = sumZ (map bt_total_lines (_batch_times w))
      + sumZ (map line_count (_batch_results w)) + sumZ (map line_count rs)
  ∧ Z.of_nat (length (_batch_times (writes w rs))) - _batch_number (writes w rs)
    = Z.of_nat (length (_batch_times w)) - _batch_number w.
Proof.
  induction rs as [|r rs IH]; intros w.
  - simpl. conjs; lia.
  - cbn [foldl]. destruct (IH (write_result report_dumps w r)) as (H1 & H2 & H3 & H4).
    destruct (write_result_totals w r) as (_ & G1 & G2 & G3 & G4).
    cbn [map length]. change (sumZ (line_count r :: map line_count rs))
      with (line_count r + sumZ (map line_count rs)).
    conjs; lia.
Qed.

Lemma finalize_totals w :
  _batch_results (finalize report_dumps w) = []
  ∧ _total_saved (finalize report_dumps w)
    = _total_saved w + Z.of_nat (length (_batch_results w))
  ∧ sumZ (map bt_rucs_count (_batch_times (finalize report_dumps w)))
    = sumZ (map bt_rucs_count (_batch_times w)) + Z.of_nat (length (_batch_results w))
  ∧ sumZ (map bt_total_lines (_batch_times (finalize report_dumps w)))
    = sumZ (map bt_total_lines (_batch_times w))
      + sumZ (map line_count (_batch_results w))
  ∧ main_file (finalize report_dumps w) = main_file w.
Proof.
  unfold finalize.
  assert (∀ v, _batch_results (match _batch_times v with
                               | [] => v
                               | _ => _save_timing_report report_dumps v
                               end) = _batch_results v
               ∧ _total_saved (match _batch_times v with
                               | [] => v
                               | _ => _save_timing_report report_dumps v
                               end) = _total_saved v
               ∧ _batch_times (match _batch_times v with
                               | [] => v
                               | _ => _save_timing_report report_dumps v
                               end) = _batch_times v
               ∧ main_file (match _batch_times v with
                               | [] => v
                               | _ => _save_timing_report report_dumps v
                               end) = main_file v) as Hrep.
  { intros v. destruct (_batch_times v) eqn:Et; conjs; done. }
  destruct (_batch_results w) as [|r0 buf] eqn:E.
  - destruct (Hrep w) as (-> & -> & -> & ->). rewrite E. simpl. conjs; (done || lia).
  - rewrite <- E.
    destruct (Hrep (_save_batch report_dumps w)) as (-> & -> & -> & ->).
    destruct (save_batch_totals w) as (Hb & _ & Ht & Hc & Hl & _).
    rewrite save_batch_main_file. done.
Qed.

Lemma writes_main_file rs : ∀ w,
  main_file (writes w rs)
  = main_file w
      ++ (if _header_written w then []
          else match rs with [] => [] | _ => [header_line] end)
      ++ map row_line rs.
Proof.
  induction rs as [|r rs IH]; intros w.
  - simpl. destruct (_header_written w); by rewrite app_nil_r.
  - cbn [foldl]. rewrite IH, write_result_main_file.
    destruct (write_result_totals w r) as (-> & _).
    destruct (_header_written w); simpl; by rewrite <- !app_assoc.
Qed.

(** After any results are written, whatever the batch size and the state
    the writer starts in, the main file is what it was, then the header
    if the writer had not written it yet and there was a result, then one
    row for each result in the order of the writes; [finalize] leaves
    the main file as it is. *)
Theorem main_file_after_run (w0 : ResultsWriter) (results : list RUCResult) :
  main_file (writes w0 results)
  = main_file w0
      ++ (if _header_written w0 then []
          else match results with [] => [] | _ => [header_line] end)
      ++ map row_line results
  ∧ main_file (finalize report_dumps (writes w0 results))
    = main_file (writes w0 results)
  ∧ main_file (writes (ResultsWriter_init (rw_config w0) (_input_filename w0)
                         [] (save_dir w0)) results)
    = match results with
      | [] => []
      | _ => header_line :: map row_line results
      end.
Proof.
  conjs.
  - apply writes_main_file.
  - apply finalize_totals.
  - rewrite writes_main_file. by destruct results.
Qed.

(** Whatever the batch size, also zero or negative, every result given
    to the writer is either counted in [_total_saved] or waiting in the
    batch buffer; the counts and record totals of the timing entries add
    up to what was saved; after [finalize] the buffer is empty and all
    results are counted. *)
Theorem results_saved_or_buffered (w0 : ResultsWriter) (results : list RUCResult) :
  _total_saved (writes w0 results)
  + Z.of_nat (length (_batch_results (writes w0 results)))
  = _total_saved w0 + Z.of_nat (length (_batch_results w0))
    + Z.of_nat (length results)
  ∧ sumZ (map bt_rucs_count (_batch_times (writes w0 results)))
    - sumZ (map bt_rucs_count (_batch_times w0))
    = _total_saved (writes w0 results) - _total_saved w0
  ∧ Z.of_nat (length (_batch_times (writes w0 results)))
    - Z.of_nat (length (_batch_times w0))
    = _batch_number (writes w0 results) - _batch_number w0
  ∧ _batch_results (finalize report_dumps (writes w0 results)) = []
  ∧ _total_saved (finalize report_dumps (writes w0 results))
    = _total_saved w0 + Z.of_nat (length (_batch_results w0))
      + Z.of_nat (length results)
  ∧ sumZ (map bt_total_lines (_batch_times (finalize report_dumps (writes w0 results))))
    = sumZ (map bt_total_lines (_batch_times w0))
      + sumZ (map line_count (_batch_results w0))
      + sumZ (map line_count results).
Proof.
  destruct (writes_totals results w0) as (H1 & H2 & H3 & H4).
  destruct (finalize_totals (writes w0 results)) as (F1 & F2 & F3 & F4 & _).
  conjs; try done; lia.
Qed.

End WriterTotals.

(** ** Browsers and sessions *)

Section BrowserSessions.
Import Worker.

Lemma get_session_id_next p w t r :
  _session_counter (get_session_id p w t r).2 = _session_counter p + 1.
Proof. done. Qed.

Lemma issued_before_mono p p' sid :
  _session_counter p ≤ _session_counter p' → issued_before p sid → issued_before p' sid.
Proof.
  intros Hle (q & w & t & r & -> & Hlt). exists q, w, t, r. split; [done | lia].
Qed.

Lemma issued_before_fresh p w t r :
  ¬ issued_before p (get_session_id p w t r).1.
Proof.
  intros (q & w' & t' & r' & Heq & Hlt).
  apply token_determines_counter in Heq. lia.
Qed.

Lemma created_sessions_snoc log e :
  created_sessions (log ++ [e])
  = created_sessions log ++ match e with Created sid => [sid] | _ => [] end.
Proof. unfold created_sessions. rewrite omap_app. by destruct e. Qed.

Lemma pages_of_snoc sid log e :
  pages_of sid (log ++ [e])
  = (pages_of sid log + if decide (e = PageOpened sid) then 1 else 0)%nat.
Proof.
  unfold pages_of. rewrite filter_app, length_app. f_equal.
  rewrite filter_cons, filter_nil. by case_decide.
Qed.

Lemma pages_of_absent sid log : PageOpened sid ∉ log → pages_of sid log = 0%nat.
Proof.
  intros Hnot. unfold pages_of.
  induction log as [|e log IH]; [done |].
  rewrite filter_cons. case_decide as He.
  - subst e. exfalso. apply Hnot. left.
  - apply IH. intros Hin. apply Hnot. by right.
Qed.

Lemma cleanup_fields self :
  bm_worker_id (_cleanup self) = bm_worker_id self
  ∧ _browser (_cleanup self) = (_browser self && negb (_browser_context self))
  ∧ _browser_context (_cleanup self) = false
  ∧ _current_session_id (_cleanup self) = _current_session_id self
  ∧ _pages_opened (_cleanup self) = _pages_opened self
  ∧ _max_pages_per_browser (_cleanup self) = _max_pages_per_browser self
  ∧ bm_proxy (_cleanup self) = bm_proxy self
  ∧ created_sessions (bm_log (_cleanup self)) = created_sessions (bm_log self)
  ∧ (∀ sid, pages_of sid (bm_log (_cleanup self)) = pages_of sid (bm_log self))
  ∧ (∀ sid, PageOpened sid ∈ bm_log (_cleanup self) ↔ PageOpened sid ∈ bm_log self).
Proof.
  unfold _cleanup. destruct (_browser_context self) eqn:E; simpl.
  - rewrite created_sessions_snoc, app_nil_r. conjs; try done.
    + by rewrite andb_false_r.
    + intros sid. rewrite pages_of_snoc. rewrite decide_False by done. lia.
    + intros sid. rewrite elem_of_app, list_elem_of_singleton. naive_solver.
  - rewrite E. conjs; try done. by rewrite andb_true_r.
Qed.

Lemma cleanup_inv self : browser_inv self → browser_inv (_cleanup self).
Proof.
  intros (Hnd & Hiss & Hpg & Hmax & Hlive).
  destruct (cleanup_fields self)
    as (_ & Hb & Hc & Hs & Hp & Hm & Hpr & Hcr & Hpo & Hpi).
  unfold browser_inv. rewrite Hb, Hm, Hpr, Hcr. conjs.
  - done.
  - done.
  - intros sid. rewrite Hpi. apply Hpg.
  - intros sid. rewrite Hpo. apply Hmax.
  - intros [Hbr Hctx]%andb_true_iff.
    destruct (Hlive Hbr) as (Hctx' & _). rewrite Hctx' in Hctx. done.
Qed.

(** A creation that fails leaves no browser; one that starts opens a new
    session with no pages. *)
Lemma create_browser_inv c self :
  browser_inv self →
  browser_inv (_create_browser c self).2
  ∧ _max_pages_per_browser (_create_browser c self).2 = _max_pages_per_browser self
  ∧ bm_worker_id (_create_browser c self).2 = bm_worker_id self
  ∧ _session_counter (bm_proxy (_create_browser c self).2)
    = _session_counter (bm_proxy self) + 1
  ∧ ((_create_browser c self).1 = true →
     _browser (_create_browser c self).2 = true
     ∧ _pages_opened (_create_browser c self).2 = 0).
Proof.
  intros Hinv.
  pose proof Hinv as (Hnd & Hiss & Hpg & Hmax & Hlive).
  unfold _create_browser.
  set (sid := get_session_id (bm_proxy self) (bm_worker_id self)
                (cr_time_ms c) (cr_random_part c)).
  assert (_session_counter sid.2 = _session_counter (bm_proxy self) + 1) as Hnext
    by apply get_session_id_next.
  assert (sid.1 ∉ created_sessions (bm_log self)) as Hfresh.
  { intros Hin. apply Hiss in Hin. by apply issued_before_fresh in Hin. }
  assert (∀ s, s ∈ created_sessions (bm_log self) → issued_before sid.2 s) as Hiss'.
  { intros s Hs. eapply issued_before_mono; [| by apply Hiss]. lia. }
  assert (∀ b ctx,
            (b = true → ctx = true) →
            browser_inv
              (_cleanup
                 {| bm_worker_id := bm_worker_id self; _browser := b;
                    _browser_context := ctx;
                    _current_session_id := Some sid.1;
                    _pages_opened := _pages_opened self;
                    _max_pages_per_browser := _max_pages_per_browser self;
                    bm_proxy := sid.2;
                    bm_log := bm_log self |})) as Hfail.
  { intros b ctx Hbc.
    match goal with |- browser_inv (_cleanup ?x) => set (failed := x) end.
    destruct (cleanup_fields failed)
      as (_ & Hb & Hc & Hs & Hp & Hm & Hpr & Hcr & Hpo & Hpi).
    unfold browser_inv. rewrite Hb, Hm, Hpr, Hcr. conjs; try done.
    - intros s. rewrite Hpi. apply Hpg.
    - intros s. rewrite Hpo. apply Hmax.
    - subst failed. simpl. intros [Hbt Hct]%andb_true_iff.
      rewrite (Hbc Hbt) in Hct. done. }
  assert (∀ x, _max_pages_per_browser (_cleanup x) = _max_pages_per_browser x) as Hcm
    by (intros x; apply cleanup_fields).
  assert (∀ x, bm_worker_id (_cleanup x) = bm_worker_id x) as Hcw
    by (intros x; apply cleanup_fields).
  assert (∀ x, bm_proxy (_cleanup x) = bm_proxy x) as Hcp
    by (intros x; apply cleanup_fields).
  destruct (cr_outcome c); cbn [fst snd].
  - rewrite Hcm, Hcw, Hcp. cbn [_max_pages_per_browser bm_worker_id bm_proxy].
    conjs; try done. apply Hfail. intros Hb. by apply Hlive.
  - rewrite Hcm, Hcw, Hcp. cbn [_max_pages_per_browser bm_worker_id bm_proxy].
    conjs; try done. by apply Hfail.
  - cbn [_max_pages_per_browser bm_worker_id bm_proxy _browser _pages_opened].
    conjs; try done.
    unfold browser_inv.
    cbn [bm_log bm_proxy _max_pages_per_browser _browser _browser_context
         _current_session_id _pages_opened].
    rewrite created_sessions_snoc.
    assert (PageOpened sid.1 ∉ bm_log self) as Hnopage.
    { intros Hin. by apply Hpg in Hin. }
    conjs.
    + apply NoDup_app. split; [done |]. split; [| apply NoDup_singleton].
      intros s Hs ->%list_elem_of_singleton. done.
    + intros s [Hs | ->%list_elem_of_singleton]%elem_of_app; [by apply Hiss' |].
      exists (bm_proxy self), (bm_worker_id self), (cr_time_ms c), (cr_random_part c).
      split; [done | lia].
    + intros s [Hs | Hs%list_elem_of_singleton]%elem_of_app; [| done].
      apply elem_of_app. left. by apply Hpg.
    + intros s. rewrite pages_of_snoc, decide_False by done.
      rewrite Nat.add_0_r. apply Hmax.
    + intros _. split; [done |]. exists sid.1. conjs; [done | |].
      * by rewrite last_snoc.
      * rewrite pages_of_snoc, decide_False by done.
        rewrite pages_of_absent by done. done.
Qed.

Lemma get_browser_inv force_new c self :
  browser_inv self →
  match get_browser force_new c self with
  | inl ready =>
      browser_inv ready ∧ _browser ready = true
      ∧ _pages_opened ready < Z.max 1 (_max_pages_per_browser ready)
      ∧ _max_pages_per_browser ready = _max_pages_per_browser self
      ∧ bm_worker_id ready = bm_worker_id self
  | inr failed =>
      browser_inv failed
      ∧ _max_pages_per_browser failed = _max_pages_per_browser self
      ∧ bm_worker_id failed = bm_worker_id self
  end.
Proof.
  intros Hinv. unfold get_browser.
  destruct (force_new || negb (_browser self)
            || (_pages_opened self >=? _max_pages_per_browser self)) eqn:Hrestart.
  - destruct (create_browser_inv c (_cleanup self) (cleanup_inv _ Hinv))
      as (Hinv' & Hm & Hw & _ & Hok).
    destruct (cleanup_fields self) as (Hcw & _ & _ & _ & _ & Hcm & _).
    rewrite Hcm in Hm. rewrite Hcw in Hw.
    destruct (_create_browser c (_cleanup self)).1 eqn:E.
    + destruct (Hok eq_refl) as (Hb & Hp). rewrite Hp. conjs; try done. lia.
    + done.
  - apply orb_false_iff in Hrestart as [[_ Hb]%orb_false_iff Hp].
    apply negb_false_iff in Hb. rewrite Z.geb_leb in Hp. apply Z.leb_gt in Hp.
    conjs; try done. lia.
Qed.

Lemma browser_step_inv self o :
  browser_inv self →
  browser_inv (browser_step self o)
  ∧ _max_pages_per_browser (browser_step self o) = _max_pages_per_browser self
  ∧ bm_worker_id (browser_step self o) = bm_worker_id self.
Proof.
  intros Hinv. destruct o as [c page_opens | c | | call]; simpl.
  - unfold new_page.
    pose proof (get_browser_inv false c self Hinv) as Hget.
    destruct (get_browser false c self) as [ready | failed]; [| done].
    destruct Hget as (Hready & Hb & Hlt & Hm & Hw).
    destruct page_opens; [| done].
    cbn [_max_pages_per_browser bm_worker_id]. conjs; try done.
    destruct Hready as (Hnd & Hiss & Hpg & Hmax & Hlive).
    destruct (Hlive Hb) as (Hctx & sid & Hcur & Hlast & Hpages).
    unfold browser_inv.
    cbn [bm_log bm_proxy _max_pages_per_browser _browser _browser_context
         _current_session_id _pages_opened].
    rewrite Hcur. cbn [default]. rewrite created_sessions_snoc, app_nil_r.
    assert (sid ∈ created_sessions (bm_log ready)) as Hsid.
    { apply last_Some in Hlast as (l' & ->). apply elem_of_app. right. left. }
    conjs.
    + done.
    + done.
    + intros s [Hs | Hs%list_elem_of_singleton]%elem_of_app; [by apply Hpg |].
      by simplify_eq.
    + intros s. rewrite pages_of_snoc. case_decide as Hs.
      * simplify_eq. lia.
      * rewrite Nat.add_0_r. apply Hmax.
    + intros _. split; [done |]. exists sid. conjs; [done | done |].
      rewrite pages_of_snoc, decide_True by done. lia.
  - unfold rotate_ip.
    destruct (create_browser_inv c (_cleanup self) (cleanup_inv _ Hinv))
      as (Hinv' & Hm & Hw & _).
    destruct (cleanup_fields self) as (Hcw & _ & _ & _ & _ & Hcm & _).
    rewrite Hcm in Hm. rewrite Hcw in Hw. done.
  - unfold close.
    destruct (cleanup_fields self) as (Hcw & _ & _ & _ & _ & Hcm & _).
    conjs; [by apply cleanup_inv | done | done].
  - conjs; try done.
    destruct Hinv as (Hnd & Hiss & Hpg & Hmax & Hlive).
    unfold browser_inv.
    cbn [bm_log bm_proxy _max_pages_per_browser _browser _browser_context
         _current_session_id _pages_opened].
    conjs; try done.
    intros s Hs. eapply issued_before_mono; [| by apply Hiss].
    simpl. lia.
Qed.

Lemma browser_run_inv ops : ∀ self,
  browser_inv self →
  browser_inv (browser_run self ops)
  ∧ _max_pages_per_browser (browser_run self ops) = _max_pages_per_browser self
  ∧ bm_worker_id (browser_run self ops) = bm_worker_id self.
Proof.
  unfold browser_run.
  induction ops as [|o ops IH]; intros self Hinv; [done |].
  cbn [foldl]. destruct (browser_step_inv self o Hinv) as (Hinv' & Hm & Hw).
  destruct (IH _ Hinv') as (Hinv'' & Hm' & Hw'). conjs; [done | lia | lia].
Qed.

Lemma browser_init_inv worker_id proxy : browser_inv (BrowserManager_init worker_id proxy).
Proof.
  unfold browser_inv. simpl. conjs; try done.
  - constructor.
  - intros sid Hin. by apply elem_of_nil in Hin.
  - intros sid Hin. by apply elem_of_nil in Hin.
Qed.

(** Whatever pages a worker asks for, whatever rotations and failures
    happen and whatever the other workers ask of the shared proxy
    manager, no session has more than 150 pages opened under it, and
    every page is opened under the session of a browser that started. *)
Theorem pages_per_session_bounded (worker_id : Z) (proxy : ProxyManager)
    (ops : list BrowserOp) :
  let bm := browser_run (BrowserManager_init worker_id proxy) ops in
  (∀ sid, (pages_of sid (bm_log bm) ≤ 150)%nat)
  ∧ (∀ sid, PageOpened sid ∈ bm_log bm → sid ∈ created_sessions (bm_log bm))
  ∧ (_browser bm = true →
     ∃ sid, _current_session_id bm = Some sid
            ∧ Z.of_nat (pages_of sid (bm_log bm)) = _pages_opened bm).
Proof.
  intros bm.
  destruct (browser_run_inv ops _ (browser_init_inv worker_id proxy))
    as ((Hnd & Hiss & Hpg & Hmax & Hlive) & Hm & _).
  fold bm in Hnd, Hiss, Hpg, Hmax, Hlive, Hm. conjs.
  - intros sid. specialize (Hmax sid). rewrite Hm in Hmax. simpl in Hmax. lia.
  - done.
  - intros Hb. destruct (Hlive Hb) as (_ & sid & Hcur & _ & Hp). by exists sid.
Qed.

(** The browsers of a worker start under pairwise different sessions, so
    each start asks the proxy for an address of its own; the session of
    the running browser is the last one created. *)
Theorem browser_sessions_distinct (worker_id : Z) (proxy : ProxyManager)
    (ops : list BrowserOp) :
  let bm := browser_run (BrowserManager_init worker_id proxy) ops in
  NoDup (created_sessions (bm_log bm))
  ∧ (∀ sid, sid ∈ created_sessions (bm_log bm) →
       ∃ p w t r, sid = (get_session_id p w t r).1
                  ∧ _session_counter p < _session_counter (bm_proxy bm))
  ∧ (_browser bm = true →
     ∃ sid, _current_session_id bm = Some sid
            ∧ last (created_sessions (bm_log bm)) = Some sid)
  ∧ bm_worker_id bm = worker_id
  ∧ _max_pages_per_browser bm = 150.
Proof.
  intros bm.
  destruct (browser_run_inv ops _ (browser_init_inv worker_id proxy))
    as ((Hnd & Hiss & Hpg & Hmax & Hlive) & Hm & Hw).
  fold bm in Hnd, Hiss, Hpg, Hmax, Hlive, Hm, Hw. conjs; try done.
  intros Hb. destruct (Hlive Hb) as (_ & sid & Hcur & Hlast & _). by exists sid.
Qed.

Lemma str_app_inj_l (s : string) : ∀ t1 t2 : string, s +:+ t1 = s +:+ t2 → t1 = t2.
Proof.
  induction s as [|a s IH]; intros t1 t2 H; [done |].
  rewrite !str_app_cons in H. injection H as H. by apply IH.
Qed.

(** The proxy user name and the proxy URL of a session determine the
    session, so the tokens that [get_session_id] gives out during a run
    lead to pairwise different proxy user names; the server and the
    password do not depend on the session. *)
Theorem proxy_username_per_session (config : ProxyConfig) :
  (∀ s1 s2,
     ps_username (get_proxy_config_for_camoufox config s1)
     = ps_username (get_proxy_config_for_camoufox config s2) → s1 = s2)
  ∧ (∀ s1 s2, get_proxy_url config s1 = get_proxy_url config s2 → s1 = s2)
  ∧ (∀ s1 s2,
       ps_server (get_proxy_config_for_camoufox config s1)
       = ps_server (get_proxy_config_for_camoufox config s2)
       ∧ ps_password (get_proxy_config_for_camoufox config s1)
         = ps_password (get_proxy_config_for_camoufox config s2))
  ∧ (∀ self calls,
       NoDup (map (λ sid, ps_username (get_proxy_config_for_camoufox config sid))
                (session_ids self calls))).
Proof.
  assert (∀ s1 s2,
     ps_username (get_proxy_config_for_camoufox config s1)
     = ps_username (get_proxy_config_for_camoufox config s2) → s1 = s2) as Hinj.
  { intros s1 s2. unfold get_proxy_config_for_camoufox. cbn [ps_username].
    intros H. apply str_app_inj_l in H. by apply str_app_inj_l in H. }
  conjs.
  - done.
  - intros s1 s2. unfold get_proxy_url. intros H.
    apply str_app_inj_l in H.
    rewrite !str_app_assoc in H.
    apply str_app_inj_l in H. apply str_app_inj_l in H.
    by apply str_app_inj_r in H.
  - done.
  - intros self calls. apply NoDup_fmap_2; [intros s1 s2; apply Hinj |].
    revert self. induction calls as [|c calls IH]; intros self; simpl.
    + constructor.
    + constructor; [| apply IH].
      intros Hin. apply session_ids_later in Hin as (pm' & w & t & r & Hle & Heq).
      apply token_determines_counter in Heq. simpl in Hle. lia.
Qed.

End BrowserSessions.

(** ** Waiting for the table *)

Section TableWait.
Import Worker.

Lemma stable_loop_spec (readings : nat → Z) : ∀ fuel attempt stable_count prev_count,
  0 ≤ stable_count ≤ 3 →
  (Z.to_nat stable_count < attempt)%nat →
  (∀ k, (k ≤ Z.to_nat stable_count)%nat → readings (attempt - 1 - k)%nat = prev_count) →
  (attempt + Nat.min fuel (Z.to_nat (4 - stable_count))
   ≤ stable_loop readings fuel attempt stable_count prev_count
   ≤ attempt + fuel)%nat
  ∧ ((stable_loop readings fuel attempt stable_count prev_count < attempt + fuel)%nat →
     0 ≤ readings (stable_loop readings fuel attempt stable_count prev_count - 1)%nat
     ∧ ∀ k, (k ≤ 4)%nat →
         readings (stable_loop readings fuel attempt stable_count prev_count - 1 - k)%nat
         = readings (stable_loop readings fuel attempt stable_count prev_count - 1)%nat).
Proof.
  induction fuel as [|fuel IH]; intros attempt sc prev Hsc Hatt Hprev.
  - simpl. split; lia.
  - cbn [stable_loop].
    destruct ((readings attempt =? prev) && (readings attempt >=? 0)) eqn:Hcond.
    + apply andb_true_iff in Hcond as [Heq%Z.eqb_eq Hge].
      rewrite Z.geb_leb in Hge. apply Z.leb_le in Hge.
      destruct (sc + 1 >=? 4) eqn:Hfour; rewrite Z.geb_leb in Hfour.
      * apply Z.leb_le in Hfour. split; [lia |]. intros _.
        replace (S attempt - 1)%nat with attempt by lia.
        split; [done |]. intros k Hk.
        destruct k as [|k]; [by rewrite Nat.sub_0_r |].
        replace (attempt - S k)%nat with (attempt - 1 - k)%nat by lia.
        rewrite Heq. apply Hprev. lia.
      * apply Z.leb_gt in Hfour.
        destruct (IH (S attempt) (sc + 1) (readings attempt)) as (Hb & He).
        -- lia.
        -- lia.
        -- intros k Hk. replace (S attempt - 1 - k)%nat with (attempt - k)%nat by lia.
           destruct k as [|k]; [by rewrite Nat.sub_0_r |].
           replace (attempt - S k)%nat with (attempt - 1 - k)%nat by lia.
           rewrite Heq. apply Hprev. lia.
        -- split; [lia |]. intros Hlt. apply He. lia.
    + destruct (IH (S attempt) 0 (readings attempt)) as (Hb & He).
      * lia.
      * simpl. lia.
      * intros k Hk. simpl in Hk. replace k with 0%nat by lia.
        f_equal. lia.
      * split; [lia |]. intros Hlt. apply He. lia.
Qed.

Lemma stable_loop_unstable (readings : nat → Z) : ∀ fuel attempt stable_count prev_count,
  (∀ i, readings i < 0) →
  stable_loop readings fuel attempt stable_count prev_count = (attempt + fuel)%nat.
Proof.
  induction fuel as [|fuel IH]; intros attempt sc prev Hneg; simpl; [lia |].
  assert ((readings attempt >=? 0) = false) as ->.
  { rewrite Z.geb_leb. apply Z.leb_gt. apply Hneg. }
  rewrite andb_false_r, IH by done. lia.
Qed.

Lemma stable_loop_step readings fuel attempt stable_count prev_count :
  stable_loop readings (S fuel) attempt stable_count prev_count
  = if (readings attempt =? prev_count) && (readings attempt >=? 0) then
      if stable_count + 1 >=? 4 then S attempt
      else stable_loop readings fuel (S attempt) (stable_count + 1) (readings attempt)
    else stable_loop readings fuel (S attempt) 0 (readings attempt).
Proof. reflexivity. Qed.

Lemma table_polls_first (readings : nat → Z) :
  table_polls readings = stable_loop readings 29 1 0 (readings 0%nat).
Proof.
  unfold table_polls. change 30%nat with (S 29). rewrite stable_loop_step.
  destruct (readings 0%nat =? -1) eqn:E; [| reflexivity].
  apply Z.eqb_eq in E. rewrite E. reflexivity.
Qed.

(** The wait for the table polls at least 5 and at most 30 times, so it
    lasts between 13 and 63 seconds.  When it stops before the 30th poll,
    the last five polls found the same number of rows and a table was
    there; while no table is found it goes on to the 30th poll. *)
Theorem table_wait_bounds (readings : nat → Z) :
  (5 ≤ table_polls readings ≤ 30)%nat
  ∧ 13000 ≤ _wait_for_table_complete readings ≤ 63000
  ∧ ((table_polls readings < 30)%nat →
     0 ≤ readings (table_polls readings - 1)%nat
     ∧ ∀ k, (k ≤ 4)%nat →
         readings (table_polls readings - 1 - k)%nat
         = readings (table_polls readings - 1)%nat)
  ∧ ((∀ i, readings i < 0) →
     table_polls readings = 30%nat ∧ _wait_for_table_complete readings = 63000).
Proof.
  assert ((5 ≤ table_polls readings ≤ 30)%nat
          ∧ ((table_polls readings < 30)%nat →
             0 ≤ readings (table_polls readings - 1)%nat
             ∧ ∀ k, (k ≤ 4)%nat →
                 readings (table_polls readings - 1 - k)%nat
                 = readings (table_polls readings - 1)%nat)) as [Hb He].
  { rewrite table_polls_first.
    destruct (stable_loop_spec readings 29 1 0 (readings 0%nat)) as (Hb & He).
    - lia.
    - simpl. lia.
    - intros k Hk. simpl in Hk. replace k with 0%nat by lia. done.
    - change (Z.to_nat (4 - 0)) with 4%nat in Hb.
      split; [lia |]. intros Hlt. apply He. lia. }
  assert ((∀ i, readings i < 0) → table_polls readings = 30%nat) as Hnone.
  { intros Hneg. unfold table_polls. by rewrite stable_loop_unstable. }
  unfold _wait_for_table_complete. conjs; try lia; try exact He.
  intros Hneg. rewrite (Hnone Hneg). split; reflexivity.
Qed.

End TableWait.

(** ** The retry loop and the worker loop *)

Section WorkerLoop.
Import Worker.

Lemma attempts_loop_trace config env ruc : ∀ fuel (a : nat) last trace,
  Z.of_nat a + Z.of_nat fuel = max_retries config + 1 →
  (1 ≤ fuel)%nat →
  ∃ k, (a ≤ k < a + fuel)%nat
    ∧ (attempts_loop config env ruc fuel (Z.of_nat a) last trace).2
      = trace ++ flat_map (retry_events config env) (seq a (k - a))
          ++ [EvScrape (Z.of_nat k)]
    ∧ (∀ j, (a ≤ j < k)%nat → attempt_succeeds env (Z.of_nat j) = false)
    ∧ (attempts_loop config env ruc fuel (Z.of_nat a) last trace).1
      = Return (if attempt_succeeds env (Z.of_nat k)
                then attempt_result env ruc (Z.of_nat k)
                else set_attempts (attempt_result env ruc (Z.of_nat k))
                       (max_retries config))
    ∧ (attempt_succeeds env (Z.of_nat k) = false → Z.of_nat k = max_retries config).
Proof.
  induction fuel as [|fuel IH]; intros a last trace Hsum Hfuel; [lia |].
  cbn [attempts_loop].
  set (step := match attempt_outcome env (Z.of_nat a) with
               | Scraped result =>
                   if success (set_attempts result (Z.of_nat a))
                   then inl (set_attempts result (Z.of_nat a))
                   else inr (set_attempts result (Z.of_nat a))
               | Raised msg => inr (exception_result env ruc (Z.of_nat a) msg)
               end).
  assert (step = if attempt_succeeds env (Z.of_nat a)
                 then inl (attempt_result env ruc (Z.of_nat a))
                 else inr (attempt_result env ruc (Z.of_nat a))) as Hstep.
  { subst step. unfold attempt_succeeds, attempt_result.
    destruct (attempt_outcome env (Z.of_nat a)) as [res|msg]; [| done].
    by destruct (success (set_attempts res (Z.of_nat a))). }
  clearbody step. subst step.
  destruct (attempt_succeeds env (Z.of_nat a)) eqn:Hsucc.
  - exists a. rewrite Nat.sub_diag, Hsucc. simpl.
    conjs; try done; try lia; try (intros; lia).
  - destruct fuel as [|fuel].
    + assert ((Z.of_nat a <? max_retries config) = false) as ->
        by (apply Z.ltb_ge; lia).
      exists a. rewrite Nat.sub_diag, Hsucc. simpl.
      conjs; try done; try lia; try (intros; lia).
    + assert ((Z.of_nat a <? max_retries config) = true) as ->
        by (apply Z.ltb_lt; lia).
      replace (Z.of_nat a + 1) with (Z.of_nat (S a)) by lia.
      match goal with
      | |- context [attempts_loop _ _ _ _ _ _ ?t] =>
          destruct (IH (S a) (Some (attempt_result env ruc (Z.of_nat a))) t)
            as (k & Hk & Htr & Hfail & Hret & Hlast); [lia | lia |]
      end.
      exists k. split; [lia |]. conjs.
      * rewrite Htr. replace (k - a)%nat with (S (k - S a)) by lia.
        cbn [seq flat_map]. unfold retry_events at 2.
        rewrite <- !app_assoc. done.
      * intros j Hj. destruct (decide (j = a)) as [-> | Hne]; [done |].
        apply Hfail. lia.
      * done.
      * done.
Qed.

Lemma default_pow_in_range : pow_in_range default_config.
Proof.
  intros attempt Ha. assert (attempt = 1 ∨ attempt = 2) as [-> | ->] by (simpl in Ha; lia);
    vm_compute; intros H; discriminate H.
Qed.

(** When at least one attempt is allowed and the powers of the
    multiplier stay in the range of a float (so that computing a delay
    does not raise OverflowError), a call that is not cancelled returns a
    result after some attempt [k]: the attempts before [k] all failed and
    each was followed by one sleep and one rotation of the address,
    attempt [k] is followed by neither, and either attempt [k] succeeded
    and its result is returned, or [k] is the last attempt allowed. *)
Theorem retry_trace (config : ScraperConfig) (env : Env) (ruc : string) :
  1 ≤ max_retries config →
  pow_in_range config →
  ∃ k : nat,
    1 ≤ Z.of_nat k ≤ max_retries config
    ∧ (_process_ruc_with_retries config env ruc).2
      = flat_map (retry_events config env) (seq 1 (k - 1)) ++ [EvScrape (Z.of_nat k)]
    ∧ (∀ j, (1 ≤ j < k)%nat → attempt_succeeds env (Z.of_nat j) = false)
    ∧ (_process_ruc_with_retries config env ruc).1
      = Return (if attempt_succeeds env (Z.of_nat k)
                then attempt_result env ruc (Z.of_nat k)
                else set_attempts (attempt_result env ruc (Z.of_nat k))
                       (max_retries config))
    ∧ (attempt_succeeds env (Z.of_nat k) = false → Z.of_nat k = max_retries config).
Proof.
  intros Hmax _. unfold _process_ruc_with_retries.
  destruct (attempts_loop_trace config env ruc (Z.to_nat (max_retries config)) 1 None [])
    as (k & Hk & Htr & Hfail & Hret & Hlast); [lia | lia |].
  exists k. conjs; try done; lia.
Qed.

Lemma retry_trace_witness :
  (_process_ruc_with_retries default_config Examples.always_timeout "20100000001").1
  ≠ RaiseAttributeError.
Proof.
  destruct (retry_trace default_config Examples.always_timeout "20100000001")
    as (k & _ & _ & _ & Hret & _).
  - simpl. lia.
  - apply default_pow_in_range.
  - rewrite Hret. discriminate.
Defined.

Lemma no_attempt_raises config env ruc :
  max_retries config ≤ 0 →
  _process_ruc_with_retries config env ruc = (RaiseAttributeError, []).
Proof.
  intros Hmax. unfold _process_ruc_with_retries.
  replace (Z.to_nat (max_retries config)) with 0%nat by lia. done.
Qed.





(** When the configuration allows no attempt, the retry loop has no
    result to return and fails without a single scrape; the worker that
    took the id ends there: it hands over no result for it, does not
    count it and leaves the rest of the queue untouched. *)
Theorem worker_stops_without_attempts (config : ScraperConfig)
    (min_delay max_delay : Q) (wenv : WorkerEnv) (ruc : string)
    (queue : list (option string)) :
  max_retries config ≤ 0 →
  running wenv 0%nat = true →
  _process_ruc_with_retries config (envs wenv 0%nat) ruc = (RaiseAttributeError, [])
  ∧ crashed (worker_run config min_delay max_delay wenv (Some ruc :: queue)) = true
  ∧ emitted (worker_run config min_delay max_delay wenv (Some ruc :: queue)) = []
  ∧ _processed_count (worker_run config min_delay max_delay wenv (Some ruc :: queue)) = 0
  ∧ left (worker_run config min_delay max_delay wenv (Some ruc :: queue)) = queue.
Proof.
  intros Hmax Hrun. unfold worker_run. cbn [worker_loop].
  rewrite Hrun, no_attempt_raises by done. done.
Qed.

Lemma worker_stops_without_attempts_witness :
  crashed (worker_run Examples.no_attempts 1 2 Examples.steady_worker
             [Some "20100000001"; None]) = true.
Proof.
  apply (worker_stops_without_attempts Examples.no_attempts 1 2
           Examples.steady_worker "20100000001" [None]).
  - simpl. lia.
  - done.
Defined.

End WorkerLoop.

(** ** The result consumer *)

Section MainLoop.
Variable json_dumps : ProgressData → string.
Variable report_dumps : list BatchTime → string.

Local Abbreviation consume := (Main._process_results json_dumps report_dumps).
Local Abbreviation consume_events :=
  (Main._process_results_events json_dumps report_dumps).
Local Abbreviation queued :=
  (map (λ c : RUCResult * string, (Some c.1, c.2))).
Local Abbreviation got :=
  (map (λ c : RUCResult * string, Main.Got (Some c.1) c.2)).

Lemma process_results_app arrivals queue : ∀ self,
  consume self (queued arrivals ++ queue) = consume (consume self (queued arrivals)) queue.
Proof.
  induction arrivals as [|[r now] arrivals IH]; intros self; simpl.
  - by destruct queue as [|[[r|] now] queue].
  - apply IH.
Qed.

Lemma process_results_snoc arrivals r now self :
  consume self (queued (arrivals ++ [(r, now)]))
  = Main.process_result json_dumps report_dumps (consume self (queued arrivals)) r now.
Proof. by rewrite map_app, process_results_app. Qed.

Lemma process_results_fields arrivals : ∀ self,
  Main.config (consume self (queued arrivals)) = Main.config self
  ∧ Main.progress_manager (consume self (queued arrivals))
    = add_results (Main.progress_manager self)
        (map (λ c, (c.1, estimated_kb_per_ruc (Main.config self))) arrivals)
  ∧ Main.results_writer (consume self (queued arrivals))
    = foldl (write_result report_dumps) (Main.results_writer self)
        (filter (λ r, success r = true) (map fst arrivals)).
Proof.
  induction arrivals as [|[r now] arrivals IH]; intros self; [done |].
  cbn [map Main._process_results fst snd].
  destruct (IH (Main.process_result json_dumps report_dumps self r now))
    as (Hc & Hp & Hw).
  assert (Main.config (Main.process_result json_dumps report_dumps self r now)
          = Main.config self) as Hc0.
  { unfold Main.process_result. by case_match. }
  assert (Main.progress_manager (Main.process_result json_dumps report_dumps self r now)
          = add_result (Main.progress_manager self) r
              (estimated_kb_per_ruc (Main.config self))) as Hp0.
  { unfold Main.process_result. by case_match. }
  assert (Main.results_writer (Main.process_result json_dumps report_dumps self r now)
          = if success r then write_result report_dumps (Main.results_writer self) r
            else Main.results_writer self) as Hw0.
  { unfold Main.process_result. by case_match. }
  rewrite Hc, Hp, Hw, Hc0, Hp0, Hw0. conjs; [done | done |].
  rewrite filter_cons. destruct (success r); by simplify_eq/=.
Qed.

(** The loop with its timeouts handles exactly the results that
    [handled_results] lists. *)
Lemma process_results_events_handled events : ∀ self,
  consume_events self events = consume self (queued (Main.handled_results events)).
Proof.
  induction events as [|[[r|] now | shutdown tasks_done] events IH]; intros self;
    cbn [Main._process_results_events Main.handled_results].
  - done.
  - cbn [map Main._process_results fst snd]. apply IH.
  - done.
  - destruct (Main.keeps_waiting shutdown tasks_done); [apply IH | done].
Qed.

Lemma handled_results_got arrivals events :
  Main.handled_results (got arrivals ++ events)
  = arrivals ++ Main.handled_results events.
Proof.
  induction arrivals as [|[r now] arrivals IH]; [done |].
  cbn [map app Main.handled_results fst snd]. by rewrite IH.
Qed.

(** The consumer is left at the sentinel, and also at a wait that times
    out when some worker task is done and no shutdown was requested: what
    is queued after that is not handled.  A wait that times out while
    shutdown is requested or no worker task is done changes nothing.
    Every result taken before the loop is left goes to the progress
    manager with the bandwidth estimate of the configuration, and the
    successful ones, in the order in which they were taken, go to the
    writer; so the main file gains the header if it was not written yet
    and one row for each successful result handled. *)
Theorem consumer_composition (self : Main.Orchestrator)
    (events later : list Main.QueueEvent)
    (arrivals : list (RUCResult * string)) (now : string)
    (shutdown_requested : bool) (tasks_done : list bool) :
  let handled := Main.handled_results events in
  Main.handled_results (got arrivals ++ Main.Got None now :: later) = arrivals
  ∧ (Main.keeps_waiting shutdown_requested tasks_done = false →
     Main.handled_results
       (got arrivals ++ Main.TimedOut shutdown_requested tasks_done :: later)
     = arrivals)
  ∧ (Main.keeps_waiting shutdown_requested tasks_done = true →
     Main.handled_results
       (got arrivals ++ Main.TimedOut shutdown_requested tasks_done :: later)
     = arrivals ++ Main.handled_results later)
  ∧ (Main.keeps_waiting shutdown_requested tasks_done = false
     ↔ shutdown_requested = false ∧ true ∈ tasks_done)
  ∧ Main.config (consume_events self events) = Main.config self
  ∧ Main.progress_manager (consume_events self events)
    = add_results (Main.progress_manager self)
        (map (λ c, (c.1, estimated_kb_per_ruc (Main.config self))) handled)
  ∧ Main.results_writer (consume_events self events)
    = foldl (write_result report_dumps) (Main.results_writer self)
        (filter (λ r, success r = true) (map fst handled))
  ∧ main_file (Main.results_writer (consume_events self events))
    = main_file (Main.results_writer self)
        ++ (if _header_written (Main.results_writer self) then []
            else match filter (λ r, success r = true) (map fst handled) with
                 | [] => []
                 | _ => [header_line]
                 end)
        ++ map row_line (filter (λ r, success r = true) (map fst handled)).
Proof.
  intros handled. rewrite process_results_events_handled. fold handled.
  destruct (process_results_fields handled self) as (Hc & Hp & Hw).
  rewrite !handled_results_got. cbn [Main.handled_results]. conjs; try done.
  - by rewrite app_nil_r.
  - intros ->. by rewrite app_nil_r.
  - by intros ->.
  - unfold Main.keeps_waiting. rewrite orb_false_iff.
    split.
    + intros [-> Hall]. split; [done |].
      induction tasks_done as [|d ds IH]; [done |].
      simpl in Hall. destruct d; [left |]. right. by apply IH.
    + intros [-> Hin]. split; [done |].
      induction tasks_done as [|d ds IH]; [by apply elem_of_nil in Hin |].
      apply elem_of_cons in Hin as [<- | Hin]; [done |].
      simpl. rewrite IH by done. by rewrite andb_false_r.
  - rewrite Hw. apply writes_main_file.
Qed.

Lemma add_results_path results : ∀ pm,
  progress_path (add_results pm results) = progress_path pm.
Proof.
  unfold add_results. induction results as [|c results IH]; intros pm; [done |].
  simpl. by rewrite IH.
Qed.

Lemma add_results_snoc pm results c :
  add_results pm (results ++ [c]) = add_result (add_results pm results) c.1 c.2.
Proof. unfold add_results. by rewrite foldl_app. Qed.

Lemma process_results_checkpoints (self : Main.Orchestrator)
    (arrivals : list (RUCResult * string)) :
  1 ≤ checkpoint_interval (Main.config self) →
  0 ≤ Main.checkpoint_counter self < checkpoint_interval (Main.config self) →
  ∃ q,
    0 ≤ q
    ∧ Main.checkpoint_counter self + Z.of_nat (length arrivals)
      = q * checkpoint_interval (Main.config self)
        + Main.checkpoint_counter (consume self (queued arrivals))
    ∧ 0 ≤ Main.checkpoint_counter (consume self (queued arrivals))
        < checkpoint_interval (Main.config self)
    ∧ ((q = 0 ∧ Main.disk (consume self (queued arrivals)) = Main.disk self)
       ∨ (1 ≤ q
          ∧ ∃ saved pending now,
              arrivals = saved ++ pending
              ∧ Z.of_nat (length pending)
                = Main.checkpoint_counter (consume self (queued arrivals))
              ∧ last (map snd saved) = Some now
              ∧ Main.disk (consume self (queued arrivals))
                  !! progress_path (Main.progress_manager self)
                = Some (json_dumps
                          (save_data
                             (add_results (Main.progress_manager self)
                                (map (λ c, (c.1, estimated_kb_per_ruc (Main.config self)))
                                   saved))
                             now)))).
Proof.
  intros HK Hc.
  induction arrivals as [|[r now] arrivals IH] using rev_ind.
  - exists 0. simpl. conjs; try lia. by left.
  - destruct IH as (q & Hq & Hsum & Hrange & Hdisk).
    rewrite process_results_snoc.
    destruct (process_results_fields arrivals self) as (Hcfg & Hpm & _).
    set (mid := consume self (queued arrivals)) in *.
    unfold Main.process_result. rewrite Hcfg, Hpm, length_app.
    cbn [length].
    destruct (Main.checkpoint_counter mid + 1
              >=? checkpoint_interval (Main.config self)) eqn:Hsave;
      rewrite Z.geb_leb in Hsave.
    + apply Z.leb_le in Hsave. exists (q + 1).
      cbn [Main.checkpoint_counter Main.disk].
      conjs; try lia. right. split; [lia |].
      exists (arrivals ++ [(r, now)]), [], now.
      rewrite app_nil_r, map_app. cbn [map snd]. rewrite last_snoc. conjs; try done.
      rewrite (map_app _ arrivals). cbn [map]. rewrite add_results_snoc. cbn [fst snd].
      match goal with
      | |- save _ ?pm _ _ !! _ = _ =>
          replace (progress_path (Main.progress_manager self))
            with (progress_path pm)
            by (cbn [add_result progress_path]; apply add_results_path);
          apply (save_complete json_dumps pm)
      end.
    + apply Z.leb_gt in Hsave. exists q.
      cbn [Main.checkpoint_counter Main.disk].
      conjs; try lia.
      destruct Hdisk as [[-> Hd] | (Hq1 & saved & pending & t & Harr & Hlen & Hlast & Hfile)].
      * by left.
      * right. split; [done |].
        exists saved, (pending ++ [(r, now)]), t. rewrite length_app. cbn [length].
        conjs; try done; [| lia].
        rewrite Harr. by rewrite <- app_assoc.
Qed.

(** With a checkpoint interval K of at least 1, the consumer saves the
    progress exactly when the number of results handled since the last
    save reaches K.  After it has handled n results (those taken before
    the sentinel or the timeout that ends the loop) the counter is
    (c + n) mod K for a start value c; while c + n stays below K the
    progress file is not written; afterwards the progress file holds the
    state as of the last save, and the results handled after that save
    are as many as the counter says, fewer than K. *)
Theorem checkpoint_cadence (self : Main.Orchestrator)
    (events : list Main.QueueEvent) :
  1 ≤ checkpoint_interval (Main.config self) →
  0 ≤ Main.checkpoint_counter self < checkpoint_interval (Main.config self) →
  let handled := Main.handled_results events in
  Main.checkpoint_counter (consume_events self events)
  = (Main.checkpoint_counter self + Z.of_nat (length handled))
      `mod` checkpoint_interval (Main.config self)
  ∧ (Main.checkpoint_counter self + Z.of_nat (length handled)
       < checkpoint_interval (Main.config self) →
     Main.disk (consume_events self events) = Main.disk self)
  ∧ (checkpoint_interval (Main.config self)
       ≤ Main.checkpoint_counter self + Z.of_nat (length handled) →
     ∃ saved pending now,
       handled = saved ++ pending
       ∧ Z.of_nat (length pending)
         = Main.checkpoint_counter (consume_events self events)
       ∧ Z.of_nat (length pending) < checkpoint_interval (Main.config self)
       ∧ last (map snd saved) = Some now
       ∧ Main.disk (consume_events self events)
           !! progress_path (Main.progress_manager self)
         = Some (json_dumps
                   (save_data
                      (add_results (Main.progress_manager self)
                         (map (λ c, (c.1, estimated_kb_per_ruc (Main.config self)))
                            saved))
                      now))).
Proof.
  intros HK Hc handled. rewrite process_results_events_handled. fold handled.
  destruct (process_results_checkpoints self handled HK Hc)
    as (q & Hq & Hsum & Hrange & Hdisk).
  conjs.
  - apply (Z.mod_unique_pos _ _ q); lia.
  - intros Hlt. destruct Hdisk as [[_ Hd] | (Hq1 & _)]; [done | nia].
  - intros Hge.
    destruct Hdisk as [[-> _] | (_ & saved & pending & now & Harr & Hlen & Hlast & Hfile)];
      [lia |].
    exists saved, pending, now. conjs; try done. lia.
Qed.

End MainLoop.

Section MainLoopExample.

Lemma checkpoint_cadence_witness :
  Main.checkpoint_counter
    (Main._process_results_events Examples.no_json Examples.no_report
       Examples.fresh_orchestrator
       [Main.Got (Some Examples.ok_result) "2025-01-01T00:00:12";
        Main.TimedOut false [false; false];
        Main.Got (Some Examples.failed_result) "2025-01-01T00:01:40";
        Main.TimedOut false [true; false];
        Main.Got (Some Examples.ok_result) "2025-01-01T00:03:00"]) = 2.
Proof.
  apply (proj1 (checkpoint_cadence Examples.no_json Examples.no_report
                  Examples.fresh_orchestrator
                  [Main.Got (Some Examples.ok_result) "2025-01-01T00:00:12";
                   Main.TimedOut false [false; false];
                   Main.Got (Some Examples.failed_result) "2025-01-01T00:01:40";
                   Main.TimedOut false [true; false];
                   Main.Got (Some Examples.ok_result) "2025-01-01T00:03:00"]
                  ltac:(simpl; lia) ltac:(simpl; lia))).
Defined.

End MainLoopExample.

(** ** Resources and the performance report *)

Section OptimizerRanges.
Import Optimizer.

Lemma int_of_le (x : Q) (n : Z) : 0 ≤ n → (x <= inject_Z n)%Q → PyStr.int_of x ≤ n.
Proof.
  destruct x as [p d]. unfold PyStr.int_of, Qle. simpl. intros Hn Hle.
  destruct (Z_lt_le_dec p 0) as [Hneg | Hpos].
  - pose proof (Z.quot_opp_l p (Z.pos d) ltac:(lia)) as Hopp.
    pose proof (Z.quot_pos (- p) (Z.pos d) ltac:(lia) ltac:(lia)). lia.
  - rewrite Z.quot_div_nonneg by lia.
    apply Z.div_le_upper_bound; lia.
Qed.

Lemma network_factor_le self : (network_factor self <= inject_Z 20)%Q.
Proof.
  unfold network_factor.
  repeat destruct (Qlt_le_dec _ _); unfold Qle; simpl; lia.
Qed.

(** Whatever resources are detected, [optimize] chooses between 4 and 20
    workers (the upper limit of 24 in the code is never reached, because
    the network factor is at most 20), delays with
    1/2 <= min < max <= 3, and 50, 100, 150 or 200 pages per browser; it
    leaves the detected values as they are. *)
Theorem optimize_ranges (detected : SystemResources) :
  4 ≤ optimal_workers (optimize detected) ≤ 20
  ∧ optimal_workers (optimize detected)
    = Z.max 4 (PyStr.int_of
                 (Worker.py_min
                    (Worker.py_min (inject_Z (cpu_cores detected) * (5 # 2))
                       (ram_available_gb detected * 1024 / 350))
                    (network_factor detected)))
  ∧ (1 # 2 <= optimal_delay_min (optimize detected))%Q
  ∧ (optimal_delay_min (optimize detected) < optimal_delay_max (optimize detected))%Q
  ∧ (optimal_delay_max (optimize detected) <= 3)%Q
  ∧ max_pages_per_browser (optimize detected) ∈ [50; 100; 150; 200]
  ∧ cpu_cores (optimize detected) = cpu_cores detected
  ∧ ram_available_gb (optimize detected) = ram_available_gb detected
  ∧ network_latency_ms (optimize detected) = network_latency_ms detected.
Proof.
  assert (PyStr.int_of
            (Worker.py_min
               (Worker.py_min (inject_Z (cpu_cores detected) * (5 # 2))
                  (ram_available_gb detected * 1024 / 350))
               (network_factor detected)) ≤ 20) as Hcap.
  { apply int_of_le; [lia |].
    eapply Qle_trans; [apply py_min_le_r | apply network_factor_le]. }
  unfold optimize, calculate_pages_per_browser, calculate_optimal_delays,
    calculate_optimal_workers.
  cbn [optimal_workers optimal_delay_min optimal_delay_max max_pages_per_browser
       cpu_cores ram_available_gb network_latency_ms].
  conjs.
  - lia.
  - lia.
  - lia.
  - repeat destruct (Qlt_le_dec _ _); unfold Qle; simpl; lia.
  - repeat destruct (Qlt_le_dec _ _); unfold Qlt; simpl; lia.
  - repeat destruct (Qlt_le_dec _ _); unfold Qle; simpl; lia.
  - repeat destruct (Qlt_le_dec _ _); set_solver.
  - done.
  - done.
  - done.
Qed.

(** For any rounding of the divisions: [calculate_metrics] sets the
    remaining ids to the total minus the processed ones and, with both
    times set, the duration to their difference.  It changes a rate only
    when the duration is positive, the rate per worker only when there is
    also a worker, and the average size only when something was processed
    and bandwidth was used; it leaves the counts, the times and the
    bandwidth as they are.  Calling it again changes nothing. *)
Theorem calculate_metrics_rates (fdiv : Q → Q → Q) (self : PerformanceReport) :
  rucs_remaining (calculate_metrics fdiv self)
  = total_rucs_to_process self - rucs_processed self
  ∧ (∀ e s, end_time self = Some e → start_time self = Some s →
       total_duration_seconds (calculate_metrics fdiv self) = (e - s)%Q)
  ∧ (end_time self = None ∨ start_time self = None →
     total_duration_seconds (calculate_metrics fdiv self)
     = total_duration_seconds self)
  ∧ ((total_duration_seconds (calculate_metrics fdiv self) <= 0)%Q →
     rucs_per_minute (calculate_metrics fdiv self) = rucs_per_minute self
     ∧ rucs_per_hour (calculate_metrics fdiv self) = rucs_per_hour self
     ∧ rucs_per_worker_per_hour (calculate_metrics fdiv self)
       = rucs_per_worker_per_hour self)
  ∧ (workers_used self ≤ 0 →
     rucs_per_worker_per_hour (calculate_metrics fdiv self)
     = rucs_per_worker_per_hour self)
  ∧ (rucs_processed self ≤ 0 ∨ (bandwidth_used_mb self <= 0)%Q →
     avg_kb_per_ruc (calculate_metrics fdiv self) = avg_kb_per_ruc self)
  ∧ total_rucs_to_process (calculate_metrics fdiv self) = total_rucs_to_process self
  ∧ rucs_processed (calculate_metrics fdiv self) = rucs_processed self
  ∧ rucs_successful (calculate_metrics fdiv self) = rucs_successful self
  ∧ rucs_failed (calculate_metrics fdiv self) = rucs_failed self
  ∧ start_time (calculate_metrics fdiv self) = start_time self
  ∧ end_time (calculate_metrics fdiv self) = end_time self
  ∧ bandwidth_used_mb (calculate_metrics fdiv self) = bandwidth_used_mb self
  ∧ bandwidth_remaining_mb (calculate_metrics fdiv self) = bandwidth_remaining_mb self
  ∧ workers_used (calculate_metrics fdiv self) = workers_used self
  ∧ calculate_metrics fdiv (calculate_metrics fdiv self) = calculate_metrics fdiv self.
Proof.
  conjs; try done.
  - intros e s He Hs. unfold calculate_metrics. cbn [total_duration_seconds].
    by rewrite He, Hs.
  - intros Hnone. unfold calculate_metrics. cbn [total_duration_seconds].
    destruct Hnone as [-> | ->]; [done |]. by destruct (end_time self).
  - unfold calculate_metrics.
    cbn [total_duration_seconds rucs_per_minute rucs_per_hour rucs_per_worker_per_hour].
    intros Hle.
    destruct (Qlt_le_dec 0 _) as [Hd | Hd]; [exfalso; by eapply Qlt_not_le | done].
  - unfold calculate_metrics. cbn [rucs_per_worker_per_hour]. intros Hw.
    assert ((workers_used self >? 0) = false) as -> by lia.
    by rewrite andb_false_r.
  - unfold calculate_metrics. cbn [avg_kb_per_ruc]. intros [Hp | Hb].
    + assert ((rucs_processed self >? 0) = false) as -> by lia. done.
    + destruct (Qlt_le_dec 0 (bandwidth_used_mb self)) as [H | H];
        [exfalso; by apply (Qlt_not_le 0 (bandwidth_used_mb self)) |].
      by rewrite andb_false_r.
  - unfold calculate_metrics.
    cbn [start_time end_time total_duration_seconds total_rucs_to_process
         rucs_processed rucs_successful rucs_failed rucs_remaining rucs_per_minute
         rucs_per_hour rucs_per_worker_per_hour bandwidth_used_mb
         bandwidth_remaining_mb avg_kb_per_ruc workers_used].
    assert (match end_time self with
            | Some e =>
                match start_time self with
                | Some s => (e - s)%Q
                | None =>
                    match end_time self with
                    | Some e0 =>
                        match start_time self with
                        | Some s => (e0 - s)%Q
                        | None => total_duration_seconds self
                        end
                    | None => total_duration_seconds self
                    end
                end
            | None =>
                match end_time self with
                | Some e =>
                    match start_time self with
                    | Some s => (e - s)%Q
                    | None => total_duration_seconds self
                    end
                | None => total_duration_seconds self
                end
            end
            = match end_time self with
              | Some e =>
                  match start_time self with
                  | Some s => (e - s)%Q
                  | None => total_duration_seconds self
                  end
              | None => total_duration_seconds self
              end) as ->.
    { by destruct (end_time self), (start_time self). }
    set (duration := match end_time self with
                     | Some e =>
                         match start_time self with
                         | Some s => (e - s)%Q
                         | None => total_duration_seconds self
                         end
                     | None => total_duration_seconds self
                     end).
    destruct (Qlt_le_dec 0 duration), (Qlt_le_dec 0 (fdiv duration 60%Q)),
      (Qlt_le_dec 0 (fdiv duration 3600%Q)), (workers_used self >? 0),
      (rucs_processed self >? 0), (Qlt_le_dec 0 (bandwidth_used_mb self));
      reflexivity.
Qed.

(** In the report that [finalize] computes, the remaining ids are the
    total minus the processed ones, where a total of 0 is replaced by
    the processed count: the value [max(0, ...)] that [finalize] assigns
    first is overwritten by [calculate_metrics], so the number is
    negative when more ids were processed than a non-zero total.  The
    end time is the time read and the remaining bandwidth is the limit
    minus what was used. *)
Theorem finalize_remaining_unclamped (fdiv : Q → Q → Q) (max_bandwidth_mb now : Q)
    (report : PerformanceReport) :
  rucs_remaining (Auto.finalize_metrics fdiv max_bandwidth_mb now report)
  = (if total_rucs_to_process report =? 0 then 0
     else total_rucs_to_process report - rucs_processed report)
  ∧ (total_rucs_to_process report ≠ 0 →
     total_rucs_to_process report < rucs_processed report →
     rucs_remaining (Auto.finalize_metrics fdiv max_bandwidth_mb now report) < 0)
  ∧ end_time (Auto.finalize_metrics fdiv max_bandwidth_mb now report) = Some now
  ∧ bandwidth_remaining_mb (Auto.finalize_metrics fdiv max_bandwidth_mb now report)
    = (max_bandwidth_mb - bandwidth_used_mb report)%Q
  ∧ (∀ s, start_time report = Some s →
       total_duration_seconds (Auto.finalize_metrics fdiv max_bandwidth_mb now report)
       = (now - s)%Q).
Proof.
  unfold Auto.finalize_metrics, calculate_metrics.
  cbn [rucs_remaining total_rucs_to_process rucs_processed end_time start_time
       bandwidth_remaining_mb total_duration_seconds].
  conjs.
  - destruct (total_rucs_to_process report =? 0); lia.
  - intros Hnz Hlt. destruct (total_rucs_to_process report =? 0) eqn:E; lia.
  - done.
  - done.
  - intros s Hs. by rewrite Hs.
Qed.

End OptimizerRanges.

(** ** Classifying errors *)

Section ErrorClasses.
Import Worker.

Lemma lower_char_idem c : PyStr.lower_char (PyStr.lower_char c) = PyStr.lower_char c.
Proof. destruct c as [[] [] [] [] [] [] [] []]; reflexivity. Qed.

Lemma lower_idem s : PyStr.lower (PyStr.lower s) = PyStr.lower s.
Proof. induction s as [|a s IH]; [done |]. simpl. by rewrite lower_char_idem, IH. Qed.

(** Both classifiers look at the message in lower case only, and both
    give the timeout class to a message that the worker classifies as
    a timeout.  The scraper never answers with the data extraction
    class, the worker only with browser crash, timeout or unknown.  They
    can disagree: a message with [timeout] and [closed] in it is a
    timeout for the scraper and a browser crash for the worker. *)
Theorem error_classification (msg : string) :
  _classify_error (PyStr.lower msg) = _classify_error msg
  ∧ classify_exception (PyStr.lower msg) = classify_exception msg
  ∧ _classify_error msg ≠ DATA_EXTRACTION_ERROR
  ∧ classify_exception msg ∈ [BROWSER_CRASH; TIMEOUT; UNKNOWN]
  ∧ (classify_exception msg = TIMEOUT → _classify_error msg = TIMEOUT)
  ∧ (PyStr.contains "timeout" (PyStr.lower msg) = true →
     _classify_error msg = TIMEOUT)
  ∧ (PyStr.contains "closed" (PyStr.lower msg) = true →
     classify_exception msg = BROWSER_CRASH)
  ∧ _classify_error "Timeout 30000ms exceeded: page closed" = TIMEOUT
  ∧ classify_exception "Timeout 30000ms exceeded: page closed" = BROWSER_CRASH.
Proof.
  unfold _classify_error, classify_exception. cbv zeta. rewrite lower_idem.
  conjs.
  - done.
  - done.
  - repeat case_match; done.
  - repeat case_match; set_solver.
  - destruct (PyStr.contains "closed" (PyStr.lower msg)
              || PyStr.contains "target" (PyStr.lower msg)); [done |].
    destruct (PyStr.contains "timeout" (PyStr.lower msg)); done.
  - by intros ->.
  - by intros ->.
  - reflexivity.
  - reflexivity.
Qed.

End ErrorClasses.
